(** * bes.py: integrity checker for BES model files

    A shallow embedding of [scripts/bes.py] and the properties of its
    block scanner and block handlers.

    Conventions of the embedding:
    - a Python [bytes] object is a [list byte]; offsets, lengths and the
      decoded unsigned integers are binary naturals ([N]), so that 32-bit
      sizes can be evaluated;
    - the [logging] calls and the writes to standard output are collected,
      in order, in a list of [event]s; a message keeps the arguments that
      are formatted into its text;
    - a computation either returns, raises a Python exception, or has not
      finished when its fuel ran out (the [while] loop of [parse_blocks]
      has no termination argument in the source). *)

From Stdlib Require Import NArith ZArith List Bool Lia String Ascii.
From Stdlib Require Strings.Byte.
Import ListNotations.

Local Open Scope N_scope.

Definition bytes := list Byte.byte.

(* ===================================================================== *)
(** ** Python slices of [bytes] *)

Module Slice.

(** [len(data)] *)
Fixpoint len {A} (l : list A) : N :=
  match l with
  | [] => 0
  | _ :: t => N.succ (len t)
  end.

(** [data[n:]] for [n >= 0] *)
Fixpoint drop {A} (n : N) (l : list A) : list A :=
  match l with
  | [] => []
  | _ :: t => if n =? 0 then l else drop (N.pred n) t
  end.

(** [data[:n]] for [n >= 0] *)
Fixpoint take {A} (n : N) (l : list A) : list A :=
  match l with
  | [] => []
  | x :: t => if n =? 0 then [] else x :: take (N.pred n) t
  end.

(** [data[a:b]] for [a, b >= 0]; empty when [b <= a]. *)
Definition slice {A} (a b : N) (l : list A) : list A :=
  take (b - a) (drop a l).

End Slice.
Import Slice.

(* ===================================================================== *)
(** ** Outcomes, the diagnostic log and the monad of the checker *)

(** The exceptions the script can raise.  [RuntimeError] carries the text
    it is raised with in [parse_header] and [parse_preview]. *)
Inductive exn : Type :=
| StructError            (* struct.error: buffer shorter than the format *)
| UnicodeDecodeError     (* str(pchar, 'ascii') on a byte above 0x7f *)
| IndexError             (* list index out of range *)
| KeyError               (* dict lookup of an absent key *)
| ValueError             (* negative shift count *)
| UnboundLocalError      (* local variable referenced before assignment *)
| FileNotFoundError
| RuntimeError (text : string).

Inductive outcome (A : Type) : Type :=
| Return (a : A)
| Raise (e : exn)
| OutOfFuel.
Arguments Return {A} a.
Arguments Raise {A} e.
Arguments OutOfFuel {A}.

Section Monad.
Context {E : Type}.

(** A computation: what it wrote to the log, and how it ended. *)
Definition M (A : Type) : Type := (list E * outcome A)%type.

Definition ret {A} (a : A) : M A := ([], Return a).
Definition raise {A} (e : exn) : M A := ([], Raise e).
Definition out_of_fuel {A} : M A := ([], OutOfFuel).
Definition emit (e : E) : M unit := ([e], Return tt).

Definition bind {A B} (m : M A) (f : A -> M B) : M B :=
  let '(l, o) := m in
  match o with
  | Return a => let '(l', o') := f a in (l ++ l', o')
  | Raise e => (l, Raise e)
  | OutOfFuel => (l, OutOfFuel)
  end.

(** [try: m  except <handled>: h(e)] *)
Definition try_except (m : M unit) (handled : exn -> bool) (h : exn -> M unit)
  : M unit :=
  let '(l, o) := m in
  match o with
  | Raise e => if handled e then let '(l', o') := h e in (l ++ l', o') else m
  | _ => m
  end.

Definition log_of {A} (m : M A) : list E := fst m.
Definition out_of {A} (m : M A) : outcome A := snd m.
End Monad.
Arguments M E A : clear implicits.

Declare Scope bes_scope.
Delimit Scope bes_scope with bes.
Notation "x <- m ;; k" := (bind m (fun x => k))
  (at level 61, m at next level, right associativity) : bes_scope.
Notation "' p <- m ;; k" := (bind m (fun x => let 'p := x in k))
  (at level 61, p pattern, m at next level, right associativity) : bes_scope.
Notation "m ;; k" := (bind m (fun _ => k))
  (at level 61, right associativity) : bes_scope.
Local Open Scope bes_scope.

(* ===================================================================== *)
(** ** [struct] formats and [BES.unpack] *)

Module Struct.

(** The format characters the script uses, after the ["<"] prefix
    (little-endian, no padding). *)
Inductive fld : Type :=
| fI            (* "I": unsigned 32-bit integer *)
| fF            (* "f": 32-bit float, kept as its bit pattern *)
| fS (n : N).   (* "<n>s": n raw bytes *)

Definition fld_size (f : fld) : N :=
  match f with
  | fI => 4
  | fF => 4
  | fS n => n
  end.

Definition fld_type (f : fld) : Type :=
  match f with
  | fI => N
  | fF => N
  | fS _ => bytes
  end.

(** [struct.calcsize] *)
Fixpoint calcsize (fmt : list fld) : N :=
  match fmt with
  | [] => 0
  | f :: r => fld_size f + calcsize r
  end.

(** The tuple [unpack_from] returns. *)
Fixpoint tuple (fmt : list fld) : Type :=
  match fmt with
  | [] => unit
  | f :: r => (fld_type f * tuple r)%type
  end.

(** Little-endian value of a byte string. *)
Fixpoint le_value (l : bytes) : N :=
  match l with
  | [] => 0
  | b :: t => Byte.to_N b + 256 * le_value t
  end.

Definition decode_fld (f : fld) (d : bytes) : fld_type f :=
  match f with
  | fI => le_value (take 4 d)
  | fF => le_value (take 4 d)
  | fS n => take n d
  end.

Fixpoint decode (fmt : list fld) (d : bytes) : tuple fmt :=
  match fmt with
  | [] => tt
  | f :: r => (decode_fld f d, decode r (drop (fld_size f) d))
  end.

End Struct.
Import Struct.

(** [BES.unpack(fmt, data)]: [unpack_from] on [data[:calcsize(fmt)]]
    raises [struct.error] when that slice is shorter than the format. *)
Definition unpack {E} (fmt : list fld) (data : bytes) : M E (tuple fmt) :=
  let st_len := calcsize fmt in
  let buf := take st_len data in
  if len buf <? st_len then raise StructError else ret (decode fmt buf).

(* ===================================================================== *)
(** ** Strings *)

(** [str(pchar, 'ascii')]: every byte must be below 0x80. *)
Definition ascii_decode (pchar : bytes) : option (list ascii) :=
  if forallb (fun b => Byte.to_N b <? 128) pchar
  then Some (map ascii_of_byte pchar)
  else None.

Definition is_nul (c : ascii) : bool := Ascii.eqb c zero.

Fixpoint lstrip (l : list ascii) : list ascii :=
  match l with
  | [] => []
  | c :: t => if is_nul c then lstrip t else l
  end.

(** [s.strip(chr(0))]: NUL characters are removed at both ends. *)
Definition strip_nul (l : list ascii) : list ascii :=
  rev (lstrip (rev (lstrip l))).

(** [pchar_to_string(pchar)] *)
Definition pchar_to_string {E} (pchar : bytes) : M E string :=
  match ascii_decode pchar with
  | Some s => ret (string_of_list_ascii (strip_nul s))
  | None => raise UnicodeDecodeError
  end.

(** [l[i]] for a Python list and a possibly negative index. *)
Definition py_index {A} (l : list A) (i : Z) : option A :=
  if (i <? 0)%Z
  then (if (i <? - Z.of_N (len l))%Z then None
        else nth_error l (Z.to_nat (Z.of_N (len l) + i)))
  else nth_error l (Z.to_nat i).

(* ===================================================================== *)
(** ** Dictionaries keyed by block label

    [blocks] and [blocks_parsed] are Python dicts; the scanner iterates
    over [blocks] in insertion order, so a dict is the list of its items
    in that order. *)

Module Dict.

Definition dict (V : Type) : Type := list (N * V).

(** [d[k]], [None] standing for [KeyError] *)
Fixpoint get {V} (d : dict V) (k : N) : option V :=
  match d with
  | [] => None
  | (k', v) :: r => if k' =? k then Some v else get r k
  end.

(** [k in d] *)
Definition mem {V} (d : dict V) (k : N) : bool :=
  match get d k with
  | Some _ => true
  | None => false
  end.

(** [d[k] = v]: the value of an existing key is replaced in place, a new
    key goes to the end. *)
Fixpoint set {V} (d : dict V) (k : N) (v : V) : dict V :=
  match d with
  | [] => [(k, v)]
  | (k', v') :: r => if k' =? k then (k', v) :: r else (k', v') :: set r k v
  end.

Definition keys {V} (d : dict V) : list N := map fst d.

End Dict.
Import Dict.

(* ===================================================================== *)
(** ** Constants of class [BES] *)

Module Header.
(** [b'BES\x00'] *)
Definition sig : bytes := [Byte.x42; Byte.x45; Byte.x53; Byte.x00].
(** [b'0100\x00'] *)
Definition ver : bytes := [Byte.x30; Byte.x31; Byte.x30; Byte.x30; Byte.x00].
End Header.

Module BlockID.
Definition Object     : N := 0x0001.
Definition Unk30      : N := 0x0030.
Definition Mesh       : N := 0x0031.
Definition Vertices   : N := 0x0032.
Definition Faces      : N := 0x0033.
Definition Properties : N := 0x0034.
Definition Unk35      : N := 0x0035.
Definition Unk36      : N := 0x0036.
Definition Unk38      : N := 0x0038.
Definition UserInfo   : N := 0x0070.
Definition Material   : N := 0x1000.
Definition Bitmap     : N := 0x1001.
Definition PteroMat   : N := 0x1002.
End BlockID.

Inductive BlockPresence : Type :=
| OptSingle     (* <0;1> *)
| OptMultiple   (* <0;N> *)
| ReqSingle     (* <1;1> *)
| ReqMultiple.  (* <1;N> *)

Definition presence_eqb (a b : BlockPresence) : bool :=
  match a, b with
  | OptSingle, OptSingle | OptMultiple, OptMultiple
  | ReqSingle, ReqSingle | ReqMultiple, ReqMultiple => true
  | _, _ => false
  end.

Module Bitmap.
Definition maps : list string :=
  ["Diffuse Color"; "Displacement"; "Bump"; "Ambient Color";
   "Specular Color"; "Specular Level"; "Glossiness"; "Self-Illumination";
   "UNKNOWN"; "Filter Color"; "Reflection"; "Refraction"]%string.
End Bitmap.

(* ===================================================================== *)
(** ** The diagnostic sink *)

Inductive level : Type := VERBOSE | INFO | WARNING | ERROR.

(** Pieces of the summary line ([sPrint]) that the Bitmap and PteroMat
    handlers build up and log at the end. *)
Inductive frag : Type :=
| BitmapHead (index len unk1 : N) (unk2 : bytes)
| MapLine (index : N) (map : string) (name_size : N) (name : string)
| PteroHead (index len name_size : N) (name : string) (sides : N)
            (collis0 collis1 veget0 veget1 : Byte.byte)
| TexLine (index : N) (tex : string) (name_size : N) (name : string)
| UTile | UMirror | VTile | VMirror.

(** One constructor per format string of the script. *)
Inductive message : Type :=
| ModelName (fileName : string)
| ExceptionText (e : exn)
| UnsupportedVersion (ver : bytes)
| ExpectedTrailingZeros
| UnknownBlock (label : N)
| UnexpectedBlock (index label : N)
| InvalidOccurrencesMax (index label : N)
| MoreDataThanExpected (index label : N)
| InvalidOccurrencesMin (label : N)
| ObjectInfo (index len children name_size : N) (name : string)
| Unk30Info (index len children : N)
| MeshInfo (index len material : N)
| VerticesInfo (index len count size vType : N)
| VertexSizeMismatch (index : N)
| BlockSizeMismatch (index : N)
| BlockSizeMismatchVs (index len expected : N)
| BlockSizeMismatchPlain
| FacesInfo (index len count : N)
| PropertiesInfo (index len : N) (text : string)
| Unk35Info (index len x y z : N)
| Unk36Info (index len : N)
| Unk38Info (index len : N)
| UserInfoInfo (index len name_size : N) (name : string)
               (comment_size : N) (comment : string) (unknown : N)
| InvalidNameLength (index name_size : N)
| MaterialInfo (index len children : N)
| UndocumentedBitmap
| UnknownCoordinates (coord : N)
| UnknownBitmap (bit : N)
| InvalidTransparentSides (tSides : N)
| ExpectedZerosCollision
| ExpectedZerosVegetation
| UnknownTexture (bit : N)
| TextureTypeMismatch (coord bit : N)
| UnknownTextureBits (coord : N)
| Summary (sPrint : list frag).

Inductive event : Type :=
| Log (lv : level) (m : message)            (* a [logging] call *)
| HexDump (data : bytes) (index : N)        (* [hex_dump], on stdout *)
| SavePreview (image : bytes) (name : string).  (* [savePreview] *)

Definition warning (m : message) : M event unit := emit (Log WARNING m).
Definition error (m : message) : M event unit := emit (Log ERROR m).
Definition verbose (m : message) : M event unit := emit (Log VERBOSE m).
Definition info (m : message) : M event unit := emit (Log INFO m).

(** [for x in l: s = body(x, s)] *)
Fixpoint for_each {A S} (l : list A) (s : S) (body : A -> S -> M event S)
  : M event S :=
  match l with
  | [] => ret s
  | x :: r => s' <- body x s ;; for_each r s' body
  end.

(** [range(n)] *)
Definition range (n : nat) : list N := map N.of_nat (seq 0 n).

Definition of_option {A} (o : option A) (e : exn) : M event A :=
  match o with
  | Some a => ret a
  | None => raise e
  end.

Definition when (c : bool) (m : M event unit) : M event unit :=
  if c then m else ret tt.

(** Truth value of a Python integer. *)
Definition truthy (n : N) : bool := negb (n =? 0).

Module PteroMat.
Definition texs : list string :=
  ["Diffuse #1 - Ground"; "Diffuse #2 - Multitexture"; "Diffuse #3 - Overlay";
   "Environment #1"; "LightMap"; "UNKNOWN";
   "Environment #2"; "LightMap (Engine Lights)"]%string.
Definition offset : N := 16.

(** [1 << n] for a Python integer [n]; a negative count is a
    [ValueError]. *)
Definition shl1 (n : Z) : M event N :=
  if (n <? 0)%Z then raise ValueError else ret (N.shiftl 1 (Z.to_N n)).

(** [BES.PteroMat.parseTexture(data, index, texID)] *)
Definition parseTexture (data : bytes) (index texID : N)
  : M event (N * list frag) :=
  '(coord, (name_size, _)) <- unpack [fI; fI] data ;;
  '(name, _) <- unpack [fS name_size] (drop 8 data) ;;
  let rel := (Z.of_N texID - Z.of_N offset)%Z in
  tex <- of_option (py_index texs rel) IndexError ;;
  when (String.eqb tex "UNKNOWN") (warning UndocumentedBitmap) ;;
  bit <- shl1 rel ;;
  when (negb (N.shiftr coord offset =? bit))
    (error (TextureTypeMismatch coord (N.shiftl 1 texID))) ;;
  when (truthy (N.land coord 0xFFFC)) (warning (UnknownTextureBits coord)) ;;
  tex' <- of_option (py_index texs rel) IndexError ;;
  name_s <- pchar_to_string name ;;
  let sPrint := [TexLine (index + 1) tex' name_size name_s] in
  let sPrint := if truthy (N.land coord 0x1) then sPrint ++ [UTile] else sPrint in
  let sPrint := if truthy (N.land coord 0x2) then sPrint ++ [VTile] else sPrint in
  ret (8 + name_size, sPrint).
End PteroMat.

(* ===================================================================== *)
(** ** Block handlers

    The handlers of container blocks call back into the scanner; inside
    this section [parse_blocks] stands for that call ([self.parse_blocks]),
    and the knot is tied below. *)

Section Handlers.
Variable parse_blocks : dict BlockPresence -> bytes -> N -> M event unit.

Definition parse_block_desc (data : bytes) : M event (N * N) :=
  '(label, (size, _)) <- unpack [fI; fI] data ;;
  ret (label, size).

Definition parse_block_object (data : bytes) (index : N) : M event unit :=
  '(children, (name_size, _)) <- unpack [fI; fI] data ;;
  '(name, _) <- unpack [fS name_size] (drop 8 data) ;;
  name_s <- pchar_to_string name ;;
  verbose (ObjectInfo index (len data) children name_size name_s) ;;
  parse_blocks [(BlockID.Object, OptMultiple);
                (BlockID.Unk30, OptSingle);
                (BlockID.Properties, OptSingle);
                (BlockID.Unk35, OptSingle);
                (BlockID.Unk38, OptSingle);
                (BlockID.Material, OptSingle)]
               (drop (8 + name_size) data) (index + 1).

Definition parse_block_unk30 (data : bytes) (index : N) : M event unit :=
  '(children, _) <- unpack [fI] data ;;
  verbose (Unk30Info index (len data) children) ;;
  parse_blocks [(BlockID.Mesh, OptMultiple);
                (BlockID.Properties, ReqSingle);
                (BlockID.Unk35, ReqSingle);
                (BlockID.Unk36, OptSingle)]
               (drop 4 data) (index + 1).

Definition parse_block_mesh (data : bytes) (index : N) : M event unit :=
  '(material, _) <- unpack [fI] data ;;
  verbose (MeshInfo index (len data) material) ;;
  parse_blocks [(BlockID.Vertices, ReqSingle);
                (BlockID.Faces, ReqSingle)]
               (drop 4 data) (index + 1).

Definition parse_block_vertices (data : bytes) (index : N) : M event unit :=
  '(count, (size, (vType, _))) <- unpack [fI; fI; fI] data ;;
  let texCnt := N.land (N.shiftr vType 8) 0xFF in
  verbose (VerticesInfo index (len data) count size vType) ;;
  if negb (24 + 8 * texCnt =? size) then
    error (VertexSizeMismatch index)
  else if negb (len (drop 12 data) =? size * count) then
    error (BlockSizeMismatch index)
  else ret tt.

Definition parse_block_faces (data : bytes) (index : N) : M event unit :=
  '(count, _) <- unpack [fI] data ;;
  verbose (FacesInfo index (len data) count) ;;
  when (negb (len (drop 4 data) =? count * 12))
    (error (BlockSizeMismatch index)).

Definition parse_block_properties (data : bytes) (index : N) : M event unit :=
  '(count, _) <- unpack [fI] data ;;
  '(prop, _) <- unpack [fS count] (drop 4 data) ;;
  text <- pchar_to_string prop ;;
  verbose (PropertiesInfo index (len data) text) ;;
  when (negb (count + 4 =? len data))
    (error (BlockSizeMismatchVs index (len data) (count + 4))).

Definition parse_block_unk35 (data : bytes) (index : N) : M event unit :=
  '(x, (y, (z, _))) <- unpack [fF; fF; fF] data ;;
  verbose (Unk35Info index (len data) x y z) ;;
  when (negb (len data =? 100)) (error (BlockSizeMismatch index)).

Definition parse_block_unk36 (data : bytes) (index : N) : M event unit :=
  verbose (Unk36Info index (len data)).

Definition parse_block_unk38 (data : bytes) (index : N) : M event unit :=
  verbose (Unk38Info index (len data)).

Definition parse_block_user_info (data : bytes) (index : N) : M event unit :=
  '(name_size, (comment_size, (unknown, _))) <- unpack [fI; fI; fI] data ;;
  '(name, _) <- unpack [fS name_size] (drop 12 data) ;;
  '(comment, _) <- unpack [fS comment_size] (drop 76 data) ;;
  name_s <- pchar_to_string name ;;
  comment_s <- pchar_to_string comment ;;
  verbose (UserInfoInfo index (len data) name_size name_s
                        comment_size comment_s unknown) ;;
  when (64 <? name_size) (error (InvalidNameLength index name_size)) ;;
  when (negb (len data =? 76 + comment_size))
    (error (BlockSizeMismatchVs index (len data) (76 + comment_size))).

Definition parse_block_material (data : bytes) (index : N) : M event unit :=
  '(children, _) <- unpack [fI] data ;;
  verbose (MaterialInfo index (len data) children) ;;
  parse_blocks [(BlockID.Bitmap, OptMultiple);
                (BlockID.PteroMat, OptMultiple)]
               (drop 4 data) (index + 1).

Fixpoint bytes_eqb (a b : bytes) : bool :=
  match a, b with
  | [], [] => true
  | x :: a', y :: b' => Byte.eqb x y && bytes_eqb a' b'
  | _, _ => false
  end.

(** Lines 339-354 of [parse_block_bitmap]: the U and V wrap markers of
    one texture map, appended to the summary line. *)
Definition coord_flags (coord : N) (sPrint : list frag)
  : M event (list frag) :=
  sPrint <-
    (if truthy (N.land coord 0x5) then
       if N.land coord 0x5 =? 0x1 then ret (sPrint ++ [UTile])
       else if N.land coord 0x5 =? 0x4 then ret (sPrint ++ [UMirror])
       else error (UnknownCoordinates coord) ;; ret sPrint
     else ret sPrint) ;;
  if truthy (N.land coord 0xA) then
    if N.land coord 0xA =? 0x2 then ret (sPrint ++ [VTile])
    else if N.land coord 0xA =? 0xA then ret (sPrint ++ [VMirror])
    else error (UnknownCoordinates coord) ;; ret sPrint
  else ret sPrint.

(** Body of the [for mapID in range(32)] loop of [parse_block_bitmap];
    the loop state is [(ptr, sPrint)]. *)
Definition bitmap_map (data : bytes) (index bType mapID : N)
           (st : N * list frag) : M event (N * list frag) :=
  let '(ptr, sPrint) := st in
  if truthy (N.land bType (N.shiftl 1 mapID)) then
    if mapID <? len Bitmap.maps then
      map_name <- of_option (nth_error Bitmap.maps (N.to_nat mapID)) IndexError ;;
      when (String.eqb map_name "UNKNOWN") (warning UndocumentedBitmap) ;;
      '(name_size, (coord, _)) <- unpack [fI; fI] (drop ptr data) ;;
      '(name, _) <- unpack [fS name_size] (drop (ptr + 8) data) ;;
      name_s <- pchar_to_string name ;;
      let sPrint := sPrint ++ [MapLine (index + 1) map_name name_size name_s] in
      sPrint <- coord_flags coord sPrint ;;
      ret (ptr + (8 + name_size), sPrint)
    else
      error (UnknownBitmap (N.shiftl 1 mapID)) ;; ret (ptr, sPrint)
  else ret (ptr, sPrint).

Definition parse_block_bitmap (data : bytes) (index : N) : M event unit :=
  '(unk1, (unk2, (bType, _))) <- unpack [fI; fS 4; fI] data ;;
  let sPrint := [BitmapHead index (len data) unk1 unk2] in
  '(ptr, sPrint) <- for_each (range 32) (12, sPrint) (bitmap_map data index bType) ;;
  when (negb (ptr =? len data)) (error BlockSizeMismatchPlain) ;;
  verbose (Summary sPrint).

(** Body of the [for texID in range(32)] loop of
    [parse_block_ptero_mat]. *)
Definition ptero_tex (data : bytes) (index pType texID : N)
           (st : N * list frag) : M event (N * list frag) :=
  let '(ptr, sPrint) := st in
  if truthy (N.land pType (N.shiftl 1 texID)) then
    if (PteroMat.offset <=? texID)
       && (texID <? PteroMat.offset + len PteroMat.texs) then
      '(dataSize, sPrintNew) <-
         PteroMat.parseTexture (drop ptr data) (index + 1) texID ;;
      ret (ptr + dataSize, sPrint ++ sPrintNew)
    else
      error (UnknownTexture (N.shiftl 1 texID)) ;; ret (ptr, sPrint)
  else ret (ptr, sPrint).

Definition parse_block_ptero_mat (data : bytes) (index : N) : M event unit :=
  '(tSides, (pType, (collisMat, (unk4, (veget, _))))) <-
     unpack [fI; fI; fS 4; fI; fS 4] data ;;
  '(name_size, _) <- unpack [fI] (drop 20 data) ;;
  '(name, _) <- unpack [fS name_size] (drop 24 data) ;;
  when (truthy (N.land tSides 0xFFFFFFE))
    (warning (InvalidTransparentSides tSides)) ;;
  when (negb (bytes_eqb (drop 2 collisMat) [Byte.x00; Byte.x00]))
    (warning ExpectedZerosCollision) ;;
  when (negb (bytes_eqb (drop 2 veget) [Byte.x00; Byte.x00]))
    (warning ExpectedZerosVegetation) ;;
  name_s <- pchar_to_string name ;;
  c0 <- of_option (nth_error collisMat 0) IndexError ;;
  c1 <- of_option (nth_error collisMat 1) IndexError ;;
  v0 <- of_option (nth_error veget 0) IndexError ;;
  v1 <- of_option (nth_error veget 1) IndexError ;;
  let sPrint :=
    [PteroHead index (len data) name_size name_s (tSides + 1) c0 c1 v0 v1] in
  '(ptr, sPrint) <-
     for_each (range 32) (24 + name_size, sPrint) (ptero_tex data index pType) ;;
  verbose (Summary sPrint) ;;
  when (negb (ptr =? len data)) (error BlockSizeMismatchPlain).

Definition process_block_by_label (label : N) (subblock : bytes) (index : N)
  : M event unit :=
  if label =? BlockID.Object then parse_block_object subblock index
  else if label =? BlockID.Unk30 then parse_block_unk30 subblock index
  else if label =? BlockID.Mesh then parse_block_mesh subblock index
  else if label =? BlockID.Vertices then parse_block_vertices subblock index
  else if label =? BlockID.Faces then parse_block_faces subblock index
  else if label =? BlockID.Properties then parse_block_properties subblock index
  else if label =? BlockID.Unk35 then parse_block_unk35 subblock index
  else if label =? BlockID.Unk36 then parse_block_unk36 subblock index
  else if label =? BlockID.Unk38 then parse_block_unk38 subblock index
  else if label =? BlockID.UserInfo then parse_block_user_info subblock index
  else if label =? BlockID.Material then parse_block_material subblock index
  else if label =? BlockID.Bitmap then parse_block_bitmap subblock index
  else if label =? BlockID.PteroMat then parse_block_ptero_mat subblock index
  else warning (UnknownBlock label) ;; emit (HexDump subblock index).

Definition single (rule : BlockPresence) : bool :=
  presence_eqb rule OptSingle || presence_eqb rule ReqSingle.

Definition required (rule : BlockPresence) : bool :=
  presence_eqb rule ReqSingle || presence_eqb rule ReqMultiple.

(** Lines 189-197: the presence bookkeeping for one decoded label. *)
Definition note_label (blocks : dict BlockPresence) (blocks_parsed : dict bool)
           (label index : N) : M event (dict bool) :=
  if negb (mem blocks label) then
    warning (UnexpectedBlock index label) ;; ret blocks_parsed
  else
    rule <- of_option (get blocks label) KeyError ;;
    (if single rule then
       seen <- of_option (get blocks_parsed label) KeyError ;;
       when seen (warning (InvalidOccurrencesMax index label))
     else ret tt) ;;
    ret (set blocks_parsed label true).

(** The state of the [while] loop: [blocks_parsed], [start] and the
    local [label] (unbound until a loop assigns it). *)
Definition scan_state : Type := (dict bool * N * option N)%type.

(** Lines 186-201: the [while] loop, one unit of fuel per test of its
    condition. *)
Fixpoint parse_blocks_while (fuel : nat) (blocks : dict BlockPresence)
         (data : bytes) (index : N) (st : scan_state) : M event scan_state :=
  match fuel with
  | O => out_of_fuel
  | S fuel' =>
      let '(blocks_parsed, start, _) := st in
      if 0 <? len (drop start data) then
        '(label, size) <- parse_block_desc (drop start data) ;;
        blocks_parsed <- note_label blocks blocks_parsed label index ;;
        let subblock := slice (start + 8) (start + size) data in
        process_block_by_label label subblock index ;;
        parse_blocks_while fuel' blocks data index
                           (blocks_parsed, start + size, Some label)
      else ret st
  end.

(** Lines 203-211: the checks after the loop. *)
Definition parse_blocks_finish (blocks : dict BlockPresence) (data : bytes)
           (index : N) (st : scan_state) : M event unit :=
  let '(blocks_parsed, start, label) := st in
  (if negb (start =? len data) then
     label <- of_option label UnboundLocalError ;;
     error (MoreDataThanExpected index label)
   else ret tt) ;;
  for_each (keys blocks) tt (fun label _ =>
    rule <- of_option (get blocks label) KeyError ;;
    if required rule then
      seen <- of_option (get blocks_parsed label) KeyError ;;
      when (negb seen) (warning (InvalidOccurrencesMin label))
    else ret tt).

(** Lines 179-182: [blocks_parsed] starts with every label unseen; the
    [for] loop leaves [label] bound to the last key. *)
Definition scan_init (blocks : dict BlockPresence) : scan_state :=
  (fold_left (fun d label => set d label false) (keys blocks) [],
   0, last (map Some (keys blocks)) None).

Definition parse_blocks_body (fuel : nat) (blocks : dict BlockPresence)
           (data : bytes) (index : N) : M event unit :=
  st <- parse_blocks_while fuel blocks data index (scan_init blocks) ;;
  parse_blocks_finish blocks data index st.

End Handlers.

(** [BES.parse_blocks(blocks, data, index)].  [fuel] bounds the number of
    loop tests of this scan and the depth of the scans nested in it.  The
    frame limit of the interpreter is not described: in the script a
    nesting deep enough to reach it (some hundreds of levels) ends with
    [RecursionError], so what is stated below describes the scanner as it
    is written, on nestings the interpreter can follow. *)
Fixpoint parse_blocks (fuel : nat) (blocks : dict BlockPresence)
         (data : bytes) (index : N) : M event unit :=
  match fuel with
  | O => out_of_fuel
  | S fuel' => parse_blocks_body (parse_blocks fuel') fuel' blocks data index
  end.

(** [BES.parse_header()] *)
Definition parse_header (data : bytes) : M event bytes :=
  '(sig, (ver, (unk1, (unk2, _)))) <- unpack [fS 4; fS 5; fI; fS 3] data ;;
  (if negb (bytes_eqb sig Header.sig)
   then raise (RuntimeError "  Invalid header signature")
   else ret tt) ;;
  when (negb (bytes_eqb ver Header.ver)) (warning (UnsupportedVersion ver)) ;;
  when (negb (bytes_eqb unk2 [Byte.x00; Byte.x00; Byte.x00]))
    (warning ExpectedTrailingZeros) ;;
  ret ver.

(** [BES.parse_preview()] *)
Definition parse_preview (data : bytes) : M event bytes :=
  if len data <? 0x3010
  then raise (RuntimeError "  Missing model preview image")
  else ret (slice 0x10 0x3010 data).

(** [BES.parse_data()] *)
Definition parse_data (fuel : nat) (data : bytes) : M event unit :=
  parse_blocks fuel [(BlockID.Object, ReqSingle); (BlockID.UserInfo, ReqSingle)]
               (drop 0x3010 data) 0.

(** [savePreview(imageData, besName)]: the image library is outside the
    script; the call is recorded with its arguments, and what the library
    does with them, failures included, is not described.  The pixel loops
    of the function are [savePreview_pixels] below. *)
Definition savePreview (imageData : bytes) (besName : string) : M event unit :=
  emit (SavePreview imageData besName).

(** [processFile(fileName, extract)]; [fs] is the file system:
    [fs fileName] is the content of the file, and [None] stands for a
    file that does not exist, on which [open] raises [FileNotFoundError].
    Other failures of [open] (a directory, a missing permission) are not
    described. *)
Definition processFile (fs : string -> option bytes) (fuel : nat)
           (fileName : string) (extract : bool) : M event unit :=
  info (ModelName fileName) ;;
  try_except
    (data <- of_option (fs fileName) FileNotFoundError ;;
     version <- parse_header data ;;
     preview <- parse_preview data ;;
     if extract then savePreview preview fileName
     else parse_data fuel data)
    (fun e => match e with
              | FileNotFoundError | RuntimeError _ => true
              | _ => false
              end)
    (fun e => error (ExceptionText e)).

(* ===================================================================== *)
(** ** Building inputs *)

Module Enc.

Definition byte_of (n : N) : Byte.byte :=
  match Byte.of_N (n mod 256) with
  | Some b => b
  | None => Byte.x00
  end.

(** The four bytes [struct.pack("<I", n)]. *)
Definition le32 (n : N) : bytes :=
  [byte_of n; byte_of (n / 256); byte_of (n / 65536); byte_of (n / 16777216)].

Definition zeros (n : nat) : bytes := repeat Byte.x00 n.

(** A descriptor with a freely chosen size field. *)
Definition desc (label size : N) : bytes := le32 label ++ le32 size.

(** A block whose size field is right. *)
Definition block (label : N) (payload : bytes) : bytes :=
  desc label (8 + len payload) ++ payload.

End Enc.
Import Enc.

(* ===================================================================== *)
(** ** Vocabulary of the properties *)

(** What a computation may write, how it may fail and what it may return:
    every logged event satisfies [P], a raised exception satisfies [Q], a
    returned value satisfies [R].  Nothing is said about a run that is
    out of fuel. *)
Definition spec {A} (P : event -> Prop) (Q : exn -> Prop) (R : A -> Prop)
           (m : M event A) : Prop :=
  Forall P (fst m) /\
  match snd m with
  | Return a => R a
  | Raise e => Q e
  | OutOfFuel => True
  end.

(** The exceptions of the decoders: a short buffer, a non-ASCII text. *)
Definition decode_exn (e : exn) : Prop :=
  e = StructError \/ e = UnicodeDecodeError.

(** The nesting depth a scanner message is indented by. *)
Definition scan_index (e : event) : option N :=
  match e with
  | Log _ (UnexpectedBlock i _)
  | Log _ (InvalidOccurrencesMax i _)
  | Log _ (MoreDataThanExpected i _) => Some i
  | _ => None
  end.

(** The nesting depth of any event that carries one. *)
Definition event_index (e : event) : option N :=
  match e with
  | Log _ m =>
      match m with
      | UnexpectedBlock i _ | InvalidOccurrencesMax i _
      | MoreDataThanExpected i _
      | ObjectInfo i _ _ _ _ | Unk30Info i _ _ | MeshInfo i _ _
      | VerticesInfo i _ _ _ _ | VertexSizeMismatch i | BlockSizeMismatch i
      | BlockSizeMismatchVs i _ _ | FacesInfo i _ _ | PropertiesInfo i _ _
      | Unk35Info i _ _ _ _ | Unk36Info i _ | Unk38Info i _
      | UserInfoInfo i _ _ _ _ _ _ | InvalidNameLength i _
      | MaterialInfo i _ _ => Some i
      | _ => None
      end
  | HexDump _ i => Some i
  | SavePreview _ _ => None
  end.

(** An event of a scan that runs at depth [d] over [n] bytes, nested
    scans included: scanner messages are at depth [ds] or deeper, and an
    event at depth [i] is at most [n / 12] levels below [d]. *)
Definition depth_ok (ds d n : N) (e : event) : Prop :=
  (forall i, scan_index e = Some i -> ds <= i) /\
  (forall i, event_index e = Some i -> d <= i /\ 12 * (i - d) <= n).

(** Is [e] the "max 1" warning of depth [index] for [label]? *)
Definition is_max_warning (index label : N) (e : event) : bool :=
  match e with
  | Log WARNING (InvalidOccurrencesMax i l) => (i =? index) && (l =? label)
  | _ => false
  end.


(** [n] Object blocks, each with no children count, an empty name and the
    next one as its only child: [16 * n] bytes. *)
Fixpoint nested_objects (n : nat) : bytes :=
  match n with
  | O => []
  | S k => block BlockID.Object (le32 0 ++ le32 0 ++ nested_objects k)
  end.

(** The child schema of an Object block (lines 219-224). *)
Definition object_schema : dict BlockPresence :=
  [(BlockID.Object, OptMultiple);
   (BlockID.Unk30, OptSingle);
   (BlockID.Properties, OptSingle);
   (BlockID.Unk35, OptSingle);
   (BlockID.Unk38, OptSingle);
   (BlockID.Material, OptSingle)].

(** The root schema (lines 140-141). *)
Definition root_schema : dict BlockPresence :=
  [(BlockID.Object, ReqSingle); (BlockID.UserInfo, ReqSingle)].

(** The labels [process_block_by_label] has a branch for. *)
Definition known_labels : list N :=
  [BlockID.Object; BlockID.Unk30; BlockID.Mesh; BlockID.Vertices;
   BlockID.Faces; BlockID.Properties; BlockID.Unk35; BlockID.Unk36;
   BlockID.Unk38; BlockID.UserInfo; BlockID.Material; BlockID.Bitmap;
   BlockID.PteroMat].

(** The number of "max 1" warnings of depth [index] for [label]. *)
Definition count_max_warnings (index label : N) (log : list event) : nat :=
  List.length (filter (is_max_warning index label) log).

(** Example spans. *)
Definition overrun_span : bytes := desc BlockID.Unk36 100 ++ zeros 4.
Definition short_size_span : bytes := desc BlockID.Unk36 3.
Definition zero_size_span : bytes := desc BlockID.Unk36 0.
Definition unk36_schema : dict BlockPresence := [(BlockID.Unk36, OptSingle)].


(** A file with a good header, a blank preview and 66 nested Objects. *)
Definition deep_file : bytes :=
  Header.sig ++ Header.ver ++ zeros 7 ++ zeros (N.to_nat 12288)
    ++ nested_objects 66.

(** A Bitmap payload with one texture map (Diffuse Color, name "A")
    whose coordFlags field is [coord]. *)
Definition bitmap_one_map (coord : N) : bytes :=
  le32 0 ++ zeros 4 ++ le32 1 ++ le32 2 ++ le32 coord ++ [Byte.x41; Byte.x00].

(** A Vertices payload: count, stride, type flags, [n] vertex bytes. *)
Definition vertices_payload (count stride vType : N) (n : nat) : bytes :=
  le32 count ++ le32 stride ++ le32 vType ++ zeros n.

(** A PteroMat texture record with name "A". *)
Definition texture_record (coord : N) : bytes :=
  le32 coord ++ le32 2 ++ [Byte.x41; Byte.x00].

(** A file that is just a good 16-byte header. *)
Definition header_only_file : bytes := Header.sig ++ Header.ver ++ zeros 7.

(** The text [parse_preview] raises its [RuntimeError] with. *)
Definition missing_preview : exn := RuntimeError "  Missing model preview image".

(** What a handler that runs at depth [index] may log and raise. *)
Definition handler_spec (h : bytes -> N -> M event unit) : Prop :=
  forall data index,
    spec (depth_ok (index + 1) index (len data + 8)) decode_exn (fun _ => True)
         (h data index).

(** [blocks_parsed] has an entry for every label of [blocks]. *)
Definition covers (blocks : dict BlockPresence) (blocks_parsed : dict bool) : Prop :=
  forall k, mem blocks k = true -> mem blocks_parsed k = true.

(** What holds of the loop state between iterations, and at the exit. *)
Definition loop_inv (blocks : dict BlockPresence) (st : scan_state) : Prop :=
  let '(blocks_parsed, start, label) := st in
  covers blocks blocks_parsed /\ (start = 0 \/ label <> None).

Definition loop_exit (blocks : dict BlockPresence) (data : bytes)
           (st : scan_state) : Prop :=
  let '(blocks_parsed, start, label) := st in
  covers blocks blocks_parsed /\ (start = len data \/ label <> None).

(** [n] NUL characters. *)
Definition nuls (n : nat) : list ascii := repeat zero n.

(** The size of the fixed fields the handler of [label] unpacks first
    (0 for the handlers that unpack nothing, and for unknown labels). *)
Definition fixed_size (label : N) : N :=
  if label =? BlockID.Object then calcsize [fI; fI]
  else if label =? BlockID.Unk30 then calcsize [fI]
  else if label =? BlockID.Mesh then calcsize [fI]
  else if label =? BlockID.Vertices then calcsize [fI; fI; fI]
  else if label =? BlockID.Faces then calcsize [fI]
  else if label =? BlockID.Properties then calcsize [fI]
  else if label =? BlockID.Unk35 then calcsize [fF; fF; fF]
  else if label =? BlockID.UserInfo then calcsize [fI; fI; fI]
  else if label =? BlockID.Material then calcsize [fI]
  else if label =? BlockID.Bitmap then calcsize [fI; fS 4; fI]
  else if label =? BlockID.PteroMat then calcsize [fI; fI; fS 4; fI; fS 4]
  else 0.

(* ===================================================================== *)
(** ** The rest of the script, and vocabulary for its properties *)

(** The values a field can hold: an unsigned 32-bit integer, a byte
    string of the field's length.  (A float is kept as its 32-bit pattern,
    as [decode] keeps it.) *)
Definition fits_fld (f : fld) : fld_type f -> Prop :=
  match f return fld_type f -> Prop with
  | fI => fun n => n < 2 ^ 32
  | fF => fun n => n < 2 ^ 32
  | fS k => fun b => len b = k
  end.

Fixpoint fits (fmt : list fld) : tuple fmt -> Prop :=
  match fmt return tuple fmt -> Prop with
  | [] => fun _ => True
  | f :: r => fun t => fits_fld f (fst t) /\ fits r (snd t)
  end.

(** A format of integers and byte strings only. *)
Definition float_free (fmt : list fld) : bool :=
  forallb (fun f => match f with fF => false | _ => true end) fmt.

(** The bytes that [decode] reads a tuple of fields back from: each
    integer as its four little-endian bytes, each byte string as it is.
    The script has no encoder; this one serves to exhibit inputs. *)
Definition encode_fld (f : fld) : fld_type f -> bytes :=
  match f return fld_type f -> bytes with
  | fI => le32
  | fF => le32
  | fS _ => fun b => b
  end.

Fixpoint encode_fields (fmt : list fld) : tuple fmt -> bytes :=
  match fmt return tuple fmt -> bytes with
  | [] => fun _ => []
  | f :: r => fun t => encode_fld f (fst t) ++ encode_fields r (snd t)
  end.

(** A text with no NUL at either end. *)
Definition trimmed (text : list ascii) : Prop :=
  (forall c t, text = c :: t -> is_nul c = false) /\
  (forall c t, rev text = c :: t -> is_nul c = false).

(** The warnings of [parse_header] on a buffer with a good magic
    (lines 125-129). *)
Definition header_warnings (data : bytes) : list event :=
  (if bytes_eqb (slice 4 9 data) Header.ver then []
   else [Log WARNING (UnsupportedVersion (slice 4 9 data))])
  ++ (if bytes_eqb (slice 13 16 data) [Byte.x00; Byte.x00; Byte.x00] then []
      else [Log WARNING ExpectedTrailingZeros]).

(** The text [parse_header] raises its [RuntimeError] with. *)
Definition bad_signature : exn := RuntimeError "  Invalid header signature".

(** [imageData[i]] *)
Definition get_byte (imageData : bytes) (i : N) : M event Byte.byte :=
  of_option (nth_error imageData (N.to_nat i)) IndexError.

(** A [putpixel((col, row), (r, g, b))] call. *)
Definition pixel : Type := (N * N * (Byte.byte * Byte.byte * Byte.byte))%type.

(** The loops of [savePreview] (lines 401-407): the [putpixel] calls, in
    order.  Creating and saving the image is the image library's part. *)
Definition savePreview_pixels (imageData : bytes) : M event (list pixel) :=
  for_each (range 64) [] (fun row img =>
    for_each (range 64) img (fun col img =>
      b <- get_byte imageData (row * 192 + col * 3 + 0) ;;
      g <- get_byte imageData (row * 192 + col * 3 + 1) ;;
      r <- get_byte imageData (row * 192 + col * 3 + 2) ;;
      ret (img ++ [((col, row), (r, g, b))]))).

(** The byte at an offset that is known to exist. *)
Definition byte_at (imageData : bytes) (i : N) : Byte.byte :=
  nth (N.to_nat i) imageData Byte.x00.

(** The pixels of a preview: row by row, each pixel from three bytes in
    blue-green-red order. *)
Definition bgr_pixels (imageData : bytes) : list pixel :=
  flat_map (fun row =>
    flat_map (fun col =>
      [((col, row),
        (byte_at imageData (row * 192 + col * 3 + 2),
         byte_at imageData (row * 192 + col * 3 + 1),
         byte_at imageData (row * 192 + col * 3 + 0)))])
      (range 64))
    (range 64).

(** Lines 451-456 of the main program: the files of [--check] are
    processed in order, then the file of [--extract-preview].  [check] is
    [args.check] ([None] when the option is absent) and [extract_preview]
    is [args.extract_preview]; an empty list and an empty string are
    false. *)
Definition main_process (fs : string -> option bytes) (fuel : nat)
           (check : option (list string)) (extract_preview : option string)
  : M event unit :=
  (match check with
   | Some (f :: fs') =>
       for_each (f :: fs') tt (fun fileName _ => processFile fs fuel fileName false)
   | _ => ret tt
   end) ;;
  match extract_preview with
  | Some fileName =>
      if String.eqb fileName "" then ret tt
      else processFile fs fuel fileName true
  | None => ret tt
  end.

(** A computation that logs nothing and can only fail with
    [IndexError]. *)
Definition index_only {A} (R : A -> Prop) (m : M event A) : Prop :=
  spec (fun _ => False) (fun e => e = IndexError) R m /\ snd m <> OutOfFuel.

(** The conditions [processFile] catches: the file is missing, or it is
    at least a header long and has a bad signature or no room for the
    preview. *)
Definition fatal_for (fs : string -> option bytes) (fileName : string) : Prop :=
  fs fileName = None \/
  exists data, fs fileName = Some data /\ 16 <= len data /\
               (take 4 data <> Header.sig \/ len data < 0x3010).

(** The loop state with its cursor moved by [c]. *)
Definition shift_state (c : N) (st : scan_state) : scan_state :=
  let '(blocks_parsed, start, label) := st in (blocks_parsed, c + start, label).

(** A span made of blocks, each given by its label and payload. *)
Definition encode_blocks (bs : list (N * bytes)) : bytes :=
  flat_map (fun b => block (fst b) (snd b)) bs.

(** Labels and sizes that fit the 32-bit fields of a descriptor. *)
Definition encodable (b : N * bytes) : Prop :=
  fst b < 2 ^ 32 /\ 8 + len (snd b) < 2 ^ 32.

(** A computation that only writes [l]. *)
Definition emit_all (l : list event) : M event unit := (l, Return tt).

(** What the presence rules say when a block with [label] comes after
    blocks with the labels [prev]: an unexpected block, a second block
    under a single-kind rule, or nothing to report. *)
Definition note_events (blocks : dict BlockPresence) (index : N)
           (prev : list N) (label : N) : list event :=
  match get blocks label with
  | None => [Log WARNING (UnexpectedBlock index label)]
  | Some rule =>
      if single rule && existsb (N.eqb label) prev
      then [Log WARNING (InvalidOccurrencesMax index label)]
      else []
  end.

(** The scan of a sequence of blocks, told block by block: the report of
    the presence rules, then the dispatch of the payload. *)
Fixpoint scan_seq (rec : dict BlockPresence -> bytes -> N -> M event unit)
         (blocks : dict BlockPresence) (index : N) (prev : list N)
         (bs : list (N * bytes)) : M event unit :=
  match bs with
  | [] => ret tt
  | b :: r =>
      emit_all (note_events blocks index prev (fst b)) ;;
      process_block_by_label rec (fst b) (snd b) index ;;
      scan_seq rec blocks index (prev ++ [fst b]) r
  end.

(** The "min 1" warnings after blocks with the labels [seen]: one for
    each label of the schema, in its order, whose rule demands a block
    and that is not among [seen]. *)
Definition missing_warnings (blocks : dict BlockPresence) (seen : list N)
  : list event :=
  flat_map (fun k =>
    match get blocks k with
    | Some rule =>
        if required rule && negb (existsb (N.eqb k) seen)
        then [Log WARNING (InvalidOccurrencesMin k)]
        else []
    | None => []
    end) (keys blocks).

(** The seen-flags agree with the labels met so far. *)
Definition seen_ok (blocks : dict BlockPresence) (blocks_parsed : dict bool)
           (prev : list N) : Prop :=
  forall k, mem blocks k = true ->
            get blocks_parsed k = Some (existsb (N.eqb k) prev).

(** The span that the handler of a container block hands to the nested
    scan: the payload behind the fixed fields of the block and, for an
    Object, behind its name (lines 225, 236, 245 and 321).  A block of
    another kind holds no blocks. *)
Definition nested_span (label : N) (payload : bytes) : option bytes :=
  if label =? BlockID.Object then
    match out_of (unpack (E := event) [fI; fI] payload) with
    | Return (children, (name_size, _)) => Some (drop (8 + name_size) payload)
    | _ => None
    end
  else if label =? BlockID.Unk30 then Some (drop 4 payload)
  else if label =? BlockID.Mesh then Some (drop 4 payload)
  else if label =? BlockID.Material then Some (drop 4 payload)
  else None.

(** Whether a block descriptor with a size field of 0 lies on the way of
    the scan of [data]: at the cursor, in the span nested in the block at
    the cursor, or in the spans after that block.  Every call is on a
    span shorter than the one before, so [fuel] only has to exceed the
    length of [data]; where it does not, the answer is [true]. *)
Fixpoint zero_size_at (fuel : nat) (data : bytes) : bool :=
  match fuel with
  | O => true
  | S fuel' =>
      match out_of (parse_block_desc data) with
      | Return (label, size) =>
          if size =? 0 then true
          else
            match nested_span label (slice 8 size data) with
            | Some sub => zero_size_at fuel' sub
            | None => false
            end
            || zero_size_at fuel' (drop size data)
      | _ => false
      end
  end.

Definition has_zero_size (data : bytes) : bool :=
  zero_size_at (S (N.to_nat (len data))) data.

(** A computation that is not cut short by the fuel. *)
Definition finishes {A} (m : M event A) : Prop := snd m <> OutOfFuel.

(** The bit numbers above the twelve known texture maps of a Bitmap, and
    below and above the eight known textures of a PteroMat. *)
Definition high_map_bits : list N := map N.of_nat (seq 12 20).
Definition low_tex_bits : list N := range 16.
Definition known_tex_bits : list N := map N.of_nat (seq 16 8).
Definition high_tex_bits : list N := map N.of_nat (seq 24 8).

(** One error per bit of [bits] that is set among [ids], in the order of
    [ids]. *)
Definition unknown_bit_errors (mk : N -> message) (bits : N) (ids : list N)
  : list event :=
  flat_map (fun i => if N.testbit bits i
                     then [Log ERROR (mk (N.shiftl 1 i))] else []) ids.

(* ===================================================================== *)
(** * Properties *)

#[local] Arguments N.add : simpl never.
#[local] Arguments N.sub : simpl never.
#[local] Arguments N.mul : simpl never.
#[local] Arguments N.pred : simpl never.
#[local] Arguments N.min : simpl never.
#[local] Arguments N.eqb : simpl never.
#[local] Arguments N.ltb : simpl never.
#[local] Arguments N.leb : simpl never.
#[local] Arguments N.land : simpl never.
#[local] Arguments N.shiftl : simpl never.
#[local] Arguments N.shiftr : simpl never.
#[local] Arguments N.pow : simpl never.

(** ** Slices *)

Section SliceFacts.
Context {A : Type}.
Implicit Types (l a b : list A) (n m : N).

Lemma len_length l : len l = N.of_nat (List.length l).
Proof. induction l as [|x t IH]; simpl; [reflexivity | rewrite IH; lia]. Qed.

Lemma len_app a b : len (a ++ b) = len a + len b.
Proof. rewrite !len_length, length_app. lia. Qed.

Lemma len_nil_inv l : len l = 0 -> l = [].
Proof. destruct l; simpl; [reflexivity | lia]. Qed.

Lemma drop_0 l : drop 0 l = l.
Proof. destruct l; reflexivity. Qed.

Lemma take_0 l : take 0 l = [].
Proof. destruct l; reflexivity. Qed.

Lemma drop_cons n x l : 0 < n -> drop n (x :: l) = drop (N.pred n) l.
Proof. intros H. simpl. destruct (N.eqb_spec n 0); [lia | reflexivity]. Qed.

Lemma take_cons n x l : 0 < n -> take n (x :: l) = x :: take (N.pred n) l.
Proof. intros H. simpl. destruct (N.eqb_spec n 0); [lia | reflexivity]. Qed.

Lemma len_drop l : forall n, len (drop n l) = len l - n.
Proof.
  induction l as [|x t IH]; intros n; simpl; [reflexivity|].
  destruct (N.eqb_spec n 0); [subst; simpl; lia | rewrite IH; lia].
Qed.

Lemma len_take l : forall n, len (take n l) = N.min n (len l).
Proof.
  induction l as [|x t IH]; intros n; simpl; [lia|].
  destruct (N.eqb_spec n 0); [subst; simpl; lia | simpl; rewrite IH; lia].
Qed.

Lemma take_all l : forall n, len l <= n -> take n l = l.
Proof.
  induction l as [|x t IH]; intros n H; simpl in *; [reflexivity|].
  destruct (N.eqb_spec n 0); [lia | f_equal; apply IH; lia].
Qed.

Lemma drop_all l : forall n, len l <= n -> drop n l = [].
Proof.
  induction l as [|x t IH]; intros n H; simpl in *; [reflexivity|].
  destruct (N.eqb_spec n 0); [lia | apply IH; lia].
Qed.

Lemma drop_app_plus a b : forall n, drop (len a + n) (a ++ b) = drop n b.
Proof.
  induction a as [|x t IH]; intros n; simpl; [reflexivity|].
  destruct (N.eqb_spec (N.succ (len t) + n) 0); [lia|].
  replace (N.pred (N.succ (len t) + n)) with (len t + n) by lia. apply IH.
Qed.

Lemma drop_app_exact a b : drop (len a) (a ++ b) = b.
Proof.
  replace (len a) with (len a + 0) by lia.
  rewrite drop_app_plus. apply drop_0.
Qed.

Lemma take_app_plus a b : forall n, take (len a + n) (a ++ b) = a ++ take n b.
Proof.
  induction a as [|x t IH]; intros n; simpl; [reflexivity|].
  destruct (N.eqb_spec (N.succ (len t) + n) 0); [lia|].
  replace (N.pred (N.succ (len t) + n)) with (len t + n) by lia.
  f_equal. apply IH.
Qed.

Lemma take_app_exact a b : take (len a) (a ++ b) = a.
Proof.
  replace (len a) with (len a + 0) by lia.
  rewrite take_app_plus, take_0. apply app_nil_r.
Qed.

Lemma drop_app_at a b n : len a = n -> drop n (a ++ b) = b.
Proof. intros <-. apply drop_app_exact. Qed.

Lemma take_app_at a b n : len a = n -> take n (a ++ b) = a.
Proof. intros <-. apply take_app_exact. Qed.

Lemma take_take l : forall n m, n <= m -> take n (take m l) = take n l.
Proof.
  induction l as [|x t IH]; intros n m H; simpl; [reflexivity|].
  destruct (N.eqb_spec m 0) as [->|Hm]; [replace n with 0 by lia; reflexivity|].
  simpl. destruct (N.eqb_spec n 0); [reflexivity|]. f_equal. apply IH. lia.
Qed.

Lemma slice_overrun l (i j : N) : len l <= j -> slice i j l = drop i l.
Proof.
  intros H. unfold slice. apply take_all. rewrite len_drop. lia.
Qed.

Lemma slice_empty l (i j : N) : j <= i -> slice i j l = [].
Proof.
  intros H. unfold slice. replace (j - i) with 0 by lia. apply take_0.
Qed.

End SliceFacts.

Lemma len_repeat {A} (x : A) n : len (repeat x n) = N.of_nat n.
Proof. rewrite len_length, repeat_length. reflexivity. Qed.

(** ** The monad *)

Section MonadFacts.
Context {E A B C : Type}.

Lemma bind_ret_l (a : A) (f : A -> M E B) : bind (ret a) f = f a.
Proof. unfold bind, ret. destruct (f a). reflexivity. Qed.

Lemma bind_ret_r (m : M E A) : bind m ret = m.
Proof.
  destruct m as [l [a|e|]]; unfold bind, ret; simpl;
    rewrite ?app_nil_r; reflexivity.
Qed.

Lemma bind_raise (e : exn) (f : A -> M E B) : bind (raise e) f = raise e.
Proof. reflexivity. Qed.

Lemma bind_out_of_fuel (f : A -> M E B) : bind out_of_fuel f = out_of_fuel.
Proof. reflexivity. Qed.

Lemma bind_assoc (m : M E A) (f : A -> M E B) (g : B -> M E C) :
  bind (bind m f) g = bind m (fun a => bind (f a) g).
Proof.
  destruct m as [l [a|e|]]; unfold bind; simpl; try reflexivity.
  destruct (f a) as [l1 [b|e|]]; simpl; try reflexivity.
  destruct (g b) as [l2 o2]. rewrite app_assoc. reflexivity.
Qed.

Lemma bind_ext (m : M E A) (f g : A -> M E B) :
  (forall a, f a = g a) -> bind m f = bind m g.
Proof.
  intros H. destruct m as [l [a|e|]]; unfold bind; [rewrite H|..]; reflexivity.
Qed.

Lemma bind_log (l : list E) (a : A) (f : A -> M E B) :
  bind (l, Return a) f = (l ++ fst (f a), snd (f a)).
Proof. unfold bind. destruct (f a). reflexivity. Qed.

End MonadFacts.

(** ** Decoding and encoding of fields *)

Lemma to_N_byte_of n : Byte.to_N (byte_of n) = n mod 256.
Proof.
  unfold byte_of. destruct (Byte.of_N (n mod 256)) as [b|] eqn:Hb.
  - apply Byte.to_of_N. exact Hb.
  - apply Byte.of_N_None_iff in Hb.
    pose proof (N.mod_lt n 256). lia.
Qed.

Lemma len_le32 n : len (le32 n) = 4.
Proof. reflexivity. Qed.

Lemma le_value_le32 n : n < 2 ^ 32 -> le_value (le32 n) = n.
Proof.
  intros H. unfold le32, le_value. rewrite !to_N_byte_of.
  replace 65536 with (256 * 256) by reflexivity.
  replace 16777216 with (256 * 256 * 256) by reflexivity.
  rewrite <- !N.Div0.div_div.
  pose proof (N.div_mod n 256) as H0.
  pose proof (N.div_mod (n / 256) 256) as H1.
  pose proof (N.div_mod (n / 256 / 256) 256) as H2.
  pose proof (N.div_mod (n / 256 / 256 / 256) 256) as H3.
  pose proof (N.mod_lt n 256).
  pose proof (N.mod_lt (n / 256) 256).
  pose proof (N.mod_lt (n / 256 / 256) 256).
  pose proof (N.mod_lt (n / 256 / 256 / 256) 256).
  assert (n / 256 / 256 / 256 < 256).
  { rewrite !N.Div0.div_div. apply N.Div0.div_lt_upper_bound.
    change (256 * 256 * 256 * 256) with (2 ^ 32). exact H. }
  rewrite (N.mod_small (n / 256 / 256 / 256) 256) by assumption.
  lia.
Qed.

Lemma unpack_short {E} fmt (data : bytes) :
  len data < calcsize fmt -> @unpack E fmt data = raise StructError.
Proof.
  intros H. unfold unpack. rewrite len_take.
  destruct (N.ltb_spec (N.min (calcsize fmt) (len data)) (calcsize fmt));
    [reflexivity | lia].
Qed.

Lemma unpack_ok {E} fmt (data : bytes) :
  calcsize fmt <= len data ->
  @unpack E fmt data = ret (decode fmt (take (calcsize fmt) data)).
Proof.
  intros H. unfold unpack. rewrite len_take.
  destruct (N.ltb_spec (N.min (calcsize fmt) (len data)) (calcsize fmt));
    [lia | reflexivity].
Qed.

Lemma unpack_cases {E} fmt (data : bytes) :
  (len data < calcsize fmt /\ @unpack E fmt data = raise StructError) \/
  (calcsize fmt <= len data /\
   @unpack E fmt data = ret (decode fmt (take (calcsize fmt) data))).
Proof.
  destruct (N.lt_ge_cases (len data) (calcsize fmt)) as [H|H].
  - left. split; [exact H | apply unpack_short; exact H].
  - right. split; [exact H | apply unpack_ok; exact H].
Qed.

Lemma unpack_ret_inv {E} fmt (data : bytes) t :
  @unpack E fmt data = ret t -> calcsize fmt <= len data.
Proof.
  intros H. destruct (@unpack_cases E fmt data) as [[_ H']|[H' _]];
    [rewrite H' in H; discriminate | exact H'].
Qed.

Lemma unpack_bytes {E} n (data : bytes) :
  n <= len data -> @unpack E [fS n] data = ret (take n data, tt).
Proof.
  intros H. rewrite unpack_ok by (simpl; lia).
  simpl. rewrite take_take by lia. reflexivity.
Qed.

Lemma unpack_I_le32 {E} n (r : bytes) :
  n < 2 ^ 32 -> @unpack E [fI] (le32 n ++ r) = ret (n, tt).
Proof.
  intros H. rewrite unpack_ok by (rewrite len_app, len_le32; simpl; lia).
  change (calcsize [fI]) with (len (le32 n)). rewrite take_app_exact.
  unfold decode, decode_fld. rewrite (take_all (le32 n)) by (rewrite len_le32; lia).
  rewrite le_value_le32 by exact H. reflexivity.
Qed.

Lemma unpack_II_le32 {E} a b (r : bytes) :
  a < 2 ^ 32 -> b < 2 ^ 32 ->
  @unpack E [fI; fI] (le32 a ++ le32 b ++ r) = ret (a, (b, tt)).
Proof.
  intros Ha Hb.
  rewrite unpack_ok by (rewrite !len_app, !len_le32; simpl; lia).
  rewrite app_assoc.
  rewrite (take_app_at (le32 a ++ le32 b) r) by reflexivity.
  unfold decode, decode_fld, fld_size.
  rewrite (take_app_at (le32 a) (le32 b)) by reflexivity.
  rewrite (drop_app_at (le32 a) (le32 b)) by reflexivity.
  rewrite (take_all (le32 b)) by (rewrite len_le32; lia).
  rewrite !le_value_le32 by assumption. reflexivity.
Qed.

(** ** Rules of [spec] *)

Section SpecRules.
Context {A B : Type}.
Variables (P : event -> Prop) (Q : exn -> Prop).

Lemma spec_ret (R : A -> Prop) a : R a -> spec P Q R (ret a).
Proof. intros H. split; [constructor | exact H]. Qed.

Lemma spec_raise (R : A -> Prop) e : Q e -> spec P Q R (raise e).
Proof. intros H. split; [constructor | exact H]. Qed.

Lemma spec_out_of_fuel (R : A -> Prop) : spec P Q R out_of_fuel.
Proof. split; [constructor | exact I]. Qed.

Lemma spec_emit (R : unit -> Prop) e : P e -> R tt -> spec P Q R (emit e).
Proof. intros He Hr. split; [repeat constructor; exact He | exact Hr]. Qed.

Lemma spec_bind (R : A -> Prop) (R' : B -> Prop) m (f : A -> M event B) :
  spec P Q R m ->
  (forall a, R a -> spec P Q R' (f a)) ->
  spec P Q R' (bind m f).
Proof.
  destruct m as [l [a|e|]]; intros [Hl Ho] Hf; simpl in *.
  - destruct (Hf a Ho) as [Hl' Ho']. unfold bind.
    destruct (f a) as [l' o']. simpl in *. split; [|exact Ho'].
    apply Forall_app. split; assumption.
  - split; assumption.
  - split; [assumption | exact I].
Qed.

Lemma spec_post (R R' : A -> Prop) m :
  (forall a, R a -> R' a) -> spec P Q R m -> spec P Q R' m.
Proof.
  intros Hr [Hl Ho]. split; [exact Hl|].
  destruct (snd m); auto.
Qed.

Lemma spec_of_option (o : option A) e :
  (o = None -> Q e) -> spec P Q (fun a => o = Some a) (of_option o e).
Proof.
  intros H. destruct o; simpl.
  - apply spec_ret. reflexivity.
  - apply spec_raise. apply H. reflexivity.
Qed.

End SpecRules.

Lemma spec_weaken {A} (P P' : event -> Prop) (Q Q' : exn -> Prop)
      (R R' : A -> Prop) m :
  (forall e, P e -> P' e) -> (forall e, Q e -> Q' e) ->
  (forall a, R a -> R' a) ->
  spec P Q R m -> spec P' Q' R' m.
Proof.
  intros Hp Hq Hr [Hl Ho]. split.
  - eapply Forall_impl; [exact Hp | exact Hl].
  - destruct (snd m); auto.
Qed.

Lemma spec_when P Q (R : unit -> Prop) c m :
  (c = true -> spec P Q R m) -> R tt -> spec P Q R (when c m).
Proof.
  intros Hm Hr. destruct c; simpl; [apply Hm; reflexivity | apply spec_ret; exact Hr].
Qed.

Lemma spec_unpack P Q fmt (data : bytes) :
  Q StructError ->
  spec P Q (fun t => calcsize fmt <= len data /\
                     t = decode fmt (take (calcsize fmt) data))
       (unpack fmt data).
Proof.
  intros Hq. destruct (@unpack_cases event fmt data) as [[_ ->]|[H ->]].
  - apply spec_raise. exact Hq.
  - apply spec_ret. split; [exact H | reflexivity].
Qed.

Lemma spec_pchar_to_string P Q (pchar : bytes) :
  Q UnicodeDecodeError -> spec P Q (fun _ => True) (pchar_to_string pchar).
Proof.
  intros Hq. unfold pchar_to_string. destruct (ascii_decode pchar).
  - apply spec_ret. exact I.
  - apply spec_raise. exact Hq.
Qed.

Lemma spec_for_each {X S} P Q (Inv : S -> Prop) (l : list X) body :
  (forall x s, In x l -> Inv s -> spec P Q Inv (body x s)) ->
  forall s, Inv s -> spec P Q Inv (for_each l s body).
Proof.
  induction l as [|x r IH]; intros Hb s Hs; simpl.
  - apply spec_ret. exact Hs.
  - eapply spec_bind.
    + apply Hb; [left; reflexivity | exact Hs].
    + intros s' Hs'. apply IH; [|exact Hs'].
      intros y t Hy. apply Hb. right. exact Hy.
Qed.

(** ** Dictionaries *)

Section DictFacts.
Context {V : Type}.
Implicit Types (d : dict V) (k : N).

Lemma get_set d k v k' :
  get (set d k v) k' = if k =? k' then Some v else get d k'.
Proof.
  induction d as [|[k0 v0] r IH]; simpl; [reflexivity|].
  destruct (N.eqb_spec k0 k) as [->|Hk]; simpl.
  - destruct (N.eqb_spec k k'); reflexivity.
  - rewrite IH. destruct (N.eqb_spec k0 k') as [->|Hk'].
    + destruct (N.eqb_spec k k'); [congruence | reflexivity].
    + reflexivity.
Qed.

Lemma mem_set d k v k' : mem (set d k v) k' = (k =? k') || mem d k'.
Proof.
  unfold mem. rewrite get_set. destruct (k =? k'); reflexivity.
Qed.

Lemma get_keys d k : In k (keys d) -> exists v, get d k = Some v.
Proof.
  induction d as [|[k0 v0] r IH]; simpl; [tauto|].
  intros [->|H].
  - rewrite N.eqb_refl. eauto.
  - destruct (k0 =? k); eauto.
Qed.

Lemma mem_keys d k : In k (keys d) <-> mem d k = true.
Proof.
  unfold mem. split.
  - intros H. destruct (get_keys d k H) as [v ->]. reflexivity.
  - induction d as [|[k0 v0] r IH]; simpl; [discriminate|].
    destruct (N.eqb_spec k0 k); [left; assumption | right; apply IH; assumption].
Qed.

End DictFacts.

Lemma init_has_keys ks : forall (d : dict bool) k,
  In k ks \/ mem d k = true ->
  mem (fold_left (fun d label => set d label false) ks d) k = true.
Proof.
  induction ks as [|k0 r IH]; intros d k H; simpl.
  - destruct H as [[]|H]. exact H.
  - apply IH. rewrite mem_set.
    destruct H as [[->|H]|H]; [right | left; exact H | right].
    + rewrite N.eqb_refl. reflexivity.
    + rewrite H. apply orb_true_r.
Qed.

Lemma init_all_false ks : forall (d : dict bool),
  (forall k v, get d k = Some v -> v = false) ->
  forall k v,
    get (fold_left (fun d label => set d label false) ks d) k = Some v ->
    v = false.
Proof.
  induction ks as [|k0 r IH]; intros d Hd k v; simpl.
  - apply Hd.
  - apply IH. intros k' v'. rewrite get_set.
    destruct (k0 =? k'); [congruence | apply Hd].
Qed.

Lemma scan_init_get blocks label :
  mem blocks label = true ->
  get (fst (fst (scan_init blocks))) label = Some false.
Proof.
  intros H. simpl.
  assert (Hm : mem (fold_left (fun d l => set d l false) (keys blocks) [])
                   label = true).
  { apply init_has_keys. left. apply mem_keys. exact H. }
  unfold mem in Hm.
  destruct (get _ label) as [v|] eqn:Hg; [|discriminate].
  f_equal. eapply init_all_false; [|exact Hg]. discriminate.
Qed.

(** ** What a scan logs and how it can fail *)

Lemma decode_exn_struct : decode_exn StructError.
Proof. left. reflexivity. Qed.

Lemma decode_exn_unicode : decode_exn UnicodeDecodeError.
Proof. right. reflexivity. Qed.

Create HintDb bes.
#[local] Hint Resolve decode_exn_struct decode_exn_unicode : bes.

Lemma depth_ok_plain ds d n e :
  event_index e = None -> depth_ok ds d n e.
Proof.
  intros H. split; intros i Hi; [|congruence].
  destruct e as [lv m| |]; try discriminate.
  destruct m; simpl in *; congruence.
Qed.

Lemma depth_ok_handler ds d n e :
  scan_index e = None -> event_index e = Some d -> depth_ok ds d n e.
Proof.
  intros Hs He. split; intros i Hi; [congruence|].
  assert (i = d) by congruence. subst. lia.
Qed.

Lemma depth_ok_scanner d n e :
  event_index e = Some d -> depth_ok d d n e.
Proof.
  intros He. split; intros i Hi.
  - destruct e as [lv m| |]; try discriminate.
    destruct m; simpl in *; try discriminate; assert (i = d) by congruence; lia.
  - assert (i = d) by congruence. subst. lia.
Qed.

Lemma depth_ok_nested d n n' e :
  n' + 12 <= n + 8 -> depth_ok (d + 1) (d + 1) n' e -> depth_ok (d + 1) d (n + 8) e.
Proof.
  intros Hn [Hs He]. split; [exact Hs|].
  intros i Hi. specialize (He i Hi). lia.
Qed.

Lemma depth_ok_dispatch d n n' e :
  n' + 8 <= n -> depth_ok (d + 1) d (n' + 8) e -> depth_ok d d n e.
Proof.
  intros Hn [Hs He]. split.
  - intros i Hi. specialize (Hs i Hi). lia.
  - intros i Hi. specialize (He i Hi). lia.
Qed.

(** Discharges the side conditions of the rules on concrete events. *)
Ltac ev_ok :=
  first [ solve [auto with bes]
        | solve [apply depth_ok_plain; reflexivity]
        | solve [apply depth_ok_handler; reflexivity]
        | solve [apply depth_ok_scanner; reflexivity]
        | exact I ].

(** One statement of a handler: run it, name its result. *)
Ltac spec_step :=
  lazymatch goal with
  | |- spec _ _ _ (bind (unpack _ _) _) =>
      eapply spec_bind; [apply spec_unpack; ev_ok | intros ? [? ->]; cbn [decode decode_fld fld_size]]
  | |- spec _ _ _ (bind (pchar_to_string _) _) =>
      eapply spec_bind; [apply spec_pchar_to_string; ev_ok | intros ? _]
  | |- spec _ _ _ (bind (emit _) _) =>
      eapply spec_bind; [apply spec_emit with (R := fun _ => True); ev_ok | intros ? _]
  | |- spec _ _ _ (bind (when _ _) _) =>
      eapply spec_bind;
      [apply spec_when with (R := fun _ => True); [intros _|exact I] | intros ? _]
  | |- spec _ _ _ (when _ _) =>
      apply spec_when; [intros _|ev_ok]
  | |- spec _ _ _ (emit _) => apply spec_emit; ev_ok
  | |- spec _ _ _ (ret _) => apply spec_ret; ev_ok
  | |- spec _ _ _ (if ?c then _ else _) => destruct c
  end.

Section HandlerSpecs.
Variable rec : dict BlockPresence -> bytes -> N -> M event unit.
Hypothesis rec_spec : forall blocks data i,
  spec (depth_ok i i (len data)) decode_exn (fun _ => True) (rec blocks data i).

Lemma rec_nested blocks (data : bytes) index n :
  n <= len data -> 4 <= n ->
  spec (depth_ok (index + 1) index (len data + 8)) decode_exn (fun _ => True)
       (rec blocks (drop n data) (index + 1)).
Proof.
  intros Hn H4. eapply spec_weaken; [| | |apply rec_spec]; auto.
  intros e. apply depth_ok_nested. rewrite len_drop. lia.
Qed.

Lemma parse_block_object_spec : handler_spec (parse_block_object rec).
Proof.
  intros data index. unfold parse_block_object, verbose.
  repeat spec_step.
  apply rec_nested; rewrite ?len_drop in *; simpl in *; lia.
Qed.

Lemma parse_block_unk30_spec : handler_spec (parse_block_unk30 rec).
Proof.
  intros data index. unfold parse_block_unk30, verbose.
  repeat spec_step.
  apply rec_nested; rewrite ?len_drop in *; simpl in *; lia.
Qed.

Lemma parse_block_mesh_spec : handler_spec (parse_block_mesh rec).
Proof.
  intros data index. unfold parse_block_mesh, verbose.
  repeat spec_step.
  apply rec_nested; rewrite ?len_drop in *; simpl in *; lia.
Qed.

Lemma parse_block_material_spec : handler_spec (parse_block_material rec).
Proof.
  intros data index. unfold parse_block_material, verbose.
  repeat spec_step.
  apply rec_nested; rewrite ?len_drop in *; simpl in *; lia.
Qed.

Lemma parse_block_vertices_spec : handler_spec parse_block_vertices.
Proof.
  intros data index. unfold parse_block_vertices, verbose, error.
  repeat spec_step.
Qed.

Lemma parse_block_faces_spec : handler_spec parse_block_faces.
Proof.
  intros data index. unfold parse_block_faces, verbose, error.
  repeat spec_step.
Qed.

Lemma parse_block_properties_spec : handler_spec parse_block_properties.
Proof.
  intros data index. unfold parse_block_properties, verbose, error.
  repeat spec_step.
Qed.

Lemma parse_block_unk35_spec : handler_spec parse_block_unk35.
Proof.
  intros data index. unfold parse_block_unk35, verbose, error.
  repeat spec_step.
Qed.

Lemma parse_block_unk36_spec : handler_spec parse_block_unk36.
Proof.
  intros data index. unfold parse_block_unk36, verbose. repeat spec_step.
Qed.

Lemma parse_block_unk38_spec : handler_spec parse_block_unk38.
Proof.
  intros data index. unfold parse_block_unk38, verbose. repeat spec_step.
Qed.

Lemma parse_block_user_info_spec : handler_spec parse_block_user_info.
Proof.
  intros data index. unfold parse_block_user_info, verbose, error.
  repeat spec_step.
Qed.

End HandlerSpecs.

Lemma nth_error_lt {A} (l : list A) (n : N) :
  n < len l -> exists x, nth_error l (N.to_nat n) = Some x.
Proof.
  intros H. destruct (nth_error l (N.to_nat n)) as [x|] eqn:E; [eauto|].
  apply nth_error_None in E. rewrite len_length in H. lia.
Qed.

Lemma py_index_texs texID :
  PteroMat.offset <= texID < PteroMat.offset + len PteroMat.texs ->
  exists s, py_index PteroMat.texs (Z.of_N texID - Z.of_N PteroMat.offset) = Some s.
Proof.
  unfold PteroMat.offset. change (len PteroMat.texs) with 8. intros H.
  assert (Hc : texID = 16 \/ texID = 17 \/ texID = 18 \/ texID = 19 \/
               texID = 20 \/ texID = 21 \/ texID = 22 \/ texID = 23) by lia.
  repeat (destruct Hc as [->|Hc]; [eexists; reflexivity|]).
  subst. eexists; reflexivity.
Qed.

Section LeafSpecs.
Variables (ds d n : N).

Let P := depth_ok ds d n.

Lemma coord_flags_spec coord sPrint :
  spec P decode_exn (fun _ => True) (coord_flags coord sPrint).
Proof.
  unfold coord_flags, error.
  eapply spec_bind with (R := fun _ => True).
  - repeat spec_step.
  - intros s _. repeat spec_step.
Qed.

Lemma bitmap_map_spec data index bType mapID st :
  spec P decode_exn (fun _ => True) (bitmap_map data index bType mapID st).
Proof.
  unfold bitmap_map, warning, error. destruct st as [ptr sPrint].
  destruct (truthy _); [|repeat spec_step].
  destruct (N.ltb_spec mapID (len Bitmap.maps)) as [Hlt|_]; [|repeat spec_step].
  destruct (nth_error_lt Bitmap.maps mapID Hlt) as [name ->].
  cbn [of_option]. rewrite bind_ret_l.
  repeat spec_step.
  eapply spec_bind; [apply coord_flags_spec | intros ? _].
  repeat spec_step.
Qed.

Lemma parseTexture_spec data index texID :
  PteroMat.offset <= texID < PteroMat.offset + len PteroMat.texs ->
  spec P decode_exn (fun _ => True) (PteroMat.parseTexture data index texID).
Proof.
  intros H. unfold PteroMat.parseTexture, warning, error.
  destruct (py_index_texs texID H) as [tex ->].
  unfold PteroMat.shl1.
  destruct (Z.ltb_spec (Z.of_N texID - Z.of_N PteroMat.offset) 0) as [Hneg|_];
    [lia|].
  repeat spec_step.
  cbn [of_option]. rewrite bind_ret_l.
  repeat spec_step.
  rewrite bind_ret_l.
  repeat spec_step.
  cbn [of_option]. rewrite bind_ret_l.
  repeat spec_step.
Qed.

Lemma ptero_tex_spec data index pType texID st :
  spec P decode_exn (fun _ => True) (ptero_tex data index pType texID st).
Proof.
  unfold ptero_tex, error. destruct st as [ptr sPrint].
  destruct (truthy _); [|repeat spec_step].
  destruct (N.leb_spec PteroMat.offset texID) as [Hlo|_];
    [|cbn [andb]; repeat spec_step].
  destruct (N.ltb_spec texID (PteroMat.offset + len PteroMat.texs)) as [Hhi|_];
    cbn [andb]; [|repeat spec_step].
  eapply spec_bind; [apply parseTexture_spec; lia | intros [sz fr] _].
  repeat spec_step.
Qed.

End LeafSpecs.

Lemma parse_block_bitmap_spec : forall data index,
  spec (depth_ok (index + 1) index (len data + 8)) decode_exn (fun _ => True)
       (parse_block_bitmap data index).
Proof.
  intros data index. unfold parse_block_bitmap, verbose, error.
  spec_step.
  eapply spec_bind with (R := fun _ => True).
  - apply spec_for_each; [|exact I].
    intros x s _ _. apply bitmap_map_spec.
  - intros [ptr sPrint] _. repeat spec_step.
Qed.

Lemma nth_error_take4 (l : bytes) (i : nat) :
  4 <= len l -> (i < 4)%nat -> exists b, nth_error (take 4 l) i = Some b.
Proof.
  intros Hl Hi. destruct (nth_error (take 4 l) i) as [b|] eqn:E; [eauto|].
  apply nth_error_None in E.
  pose proof (len_take l 4) as Ht. rewrite len_length in Ht. lia.
Qed.

Lemma parse_block_ptero_mat_spec : forall data index,
  spec (depth_ok (index + 1) index (len data + 8)) decode_exn (fun _ => True)
       (parse_block_ptero_mat data index).
Proof.
  intros data index. unfold parse_block_ptero_mat, verbose, warning, error.
  spec_step. cbn [calcsize fld_size] in *.
  assert (Hbuf : len (take (4 + (4 + (4 + (4 + (4 + 0))))) data) = 20)
    by (rewrite len_take; lia).
  set (buf := take (4 + (4 + (4 + (4 + (4 + 0))))) data) in *.
  destruct (nth_error_take4 (drop 4 (drop 4 buf)) 0) as [c0 ->];
    [rewrite !len_drop; lia | lia |].
  destruct (nth_error_take4 (drop 4 (drop 4 buf)) 1) as [c1 ->];
    [rewrite !len_drop; lia | lia |].
  destruct (nth_error_take4 (drop 4 (drop 4 (drop 4 (drop 4 buf)))) 0) as [v0 ->];
    [rewrite !len_drop; lia | lia |].
  destruct (nth_error_take4 (drop 4 (drop 4 (drop 4 (drop 4 buf)))) 1) as [v1 ->];
    [rewrite !len_drop; lia | lia |].
  cbn [of_option].
  repeat spec_step.
  rewrite !bind_ret_l.
  eapply spec_bind with (R := fun _ => True).
  - apply spec_for_each; [|exact I].
    intros x s _ _. apply ptero_tex_spec.
  - intros [ptr sPrint] _. repeat spec_step.
Qed.

Section ScanSpecs.
Variable rec : dict BlockPresence -> bytes -> N -> M event unit.
Hypothesis rec_spec : forall blocks data i,
  spec (depth_ok i i (len data)) decode_exn (fun _ => True) (rec blocks data i).

Lemma process_block_by_label_spec label data index :
  spec (depth_ok (index + 1) index (len data + 8)) decode_exn (fun _ => True)
       (process_block_by_label rec label data index).
Proof.
  unfold process_block_by_label.
  repeat match goal with
         | |- spec _ _ _ (if ?c then _ else _) => destruct c
         end.
  - apply parse_block_object_spec, rec_spec.
  - apply parse_block_unk30_spec, rec_spec.
  - apply parse_block_mesh_spec, rec_spec.
  - apply parse_block_vertices_spec.
  - apply parse_block_faces_spec.
  - apply parse_block_properties_spec.
  - apply parse_block_unk35_spec.
  - apply parse_block_unk36_spec.
  - apply parse_block_unk38_spec.
  - apply parse_block_user_info_spec.
  - apply parse_block_material_spec, rec_spec.
  - apply parse_block_bitmap_spec.
  - apply parse_block_ptero_mat_spec.
  - unfold warning. repeat spec_step.
Qed.

Lemma covers_init blocks : covers blocks (fst (fst (scan_init blocks))).
Proof.
  intros k Hk. simpl. apply init_has_keys. left. apply mem_keys. exact Hk.
Qed.

Lemma note_label_spec blocks blocks_parsed label index n :
  covers blocks blocks_parsed ->
  spec (depth_ok index index n) decode_exn (covers blocks)
       (note_label blocks blocks_parsed label index).
Proof.
  intros Hc. unfold note_label, warning.
  destruct (mem blocks label) eqn:Hm; cbn [negb].
  - pose proof (Hc label Hm) as Hp. unfold mem in Hm, Hp.
    destruct (get blocks label) as [rule|]; [|discriminate].
    destruct (get blocks_parsed label) as [seen|]; [|discriminate].
    cbn [of_option]. rewrite bind_ret_l.
    eapply spec_bind with (R := fun _ => True).
    + destruct (single rule); [rewrite bind_ret_l|]; repeat spec_step.
    + intros _ _. apply spec_ret. intros k Hk. rewrite mem_set.
      rewrite (Hc k Hk). apply orb_true_r.
  - eapply spec_bind with (R := fun _ => True).
    + apply spec_emit; [ev_ok | exact I].
    + intros _ _. apply spec_ret. exact Hc.
Qed.

Lemma parse_blocks_while_spec fuel blocks data index : forall st,
  loop_inv blocks st ->
  spec (depth_ok index index (len data)) decode_exn (loop_exit blocks data)
       (parse_blocks_while rec fuel blocks data index st).
Proof.
  induction fuel as [|fuel IH]; intros [[blocks_parsed start] label0] [Hc Hl];
    cbn [parse_blocks_while].
  - apply spec_out_of_fuel.
  - destruct (N.ltb_spec 0 (len (drop start data))) as [Hpos|Hend].
    + unfold parse_block_desc. rewrite bind_assoc.
      spec_step. rewrite bind_ret_l.
      cbn [calcsize fld_size] in H. rewrite len_drop in H.
      eapply spec_bind; [apply note_label_spec; exact Hc | intros bp Hbp].
      eapply spec_bind with (R := fun _ => True).
      * eapply spec_weaken; [| | |apply process_block_by_label_spec]; auto.
        intros e. apply depth_ok_dispatch.
        unfold slice. rewrite len_take, len_drop. lia.
      * intros _ _. apply IH. split; [exact Hbp | right; discriminate].
    + apply spec_ret. split; [exact Hc|].
      destruct Hl as [->|Hl]; [left | right; exact Hl].
      rewrite drop_0 in Hend. lia.
Qed.

Lemma parse_blocks_finish_events (P : event -> Prop) blocks data index st :
  (forall l, P (Log ERROR (MoreDataThanExpected index l))) ->
  (forall k, P (Log WARNING (InvalidOccurrencesMin k))) ->
  loop_exit blocks data st ->
  spec P decode_exn (fun _ => True) (parse_blocks_finish blocks data index st).
Proof.
  destruct st as [[blocks_parsed start] label]. intros Hmore Hmin [Hc Hl].
  unfold parse_blocks_finish, error, warning.
  eapply spec_bind with (R := fun _ => True).
  - destruct (N.eqb_spec start (len data)) as [He|Hne]; cbn [negb];
      [repeat spec_step|].
    destruct Hl as [Hl|Hl]; [contradiction|].
    destruct label as [label|]; [|contradiction].
    cbn [of_option]. rewrite bind_ret_l. apply spec_emit; [apply Hmore | exact I].
  - intros _ _. apply spec_for_each; [|exact I].
    intros k [] Hin _.
    apply mem_keys in Hin. pose proof (Hc k Hin) as Hp.
    unfold mem in Hin, Hp.
    destruct (get blocks k) as [rule|]; [|discriminate].
    destruct (get blocks_parsed k) as [seen|]; [|discriminate].
    cbn [of_option]. rewrite bind_ret_l.
    destruct (required rule); [rewrite bind_ret_l|]; [|repeat spec_step].
    apply spec_when; [intros _|exact I].
    apply spec_emit; [apply Hmin | exact I].
Qed.

Lemma parse_blocks_finish_spec blocks data index st :
  loop_exit blocks data st ->
  spec (depth_ok index index (len data)) decode_exn (fun _ => True)
       (parse_blocks_finish blocks data index st).
Proof.
  apply parse_blocks_finish_events; intros; ev_ok.
Qed.

Lemma parse_blocks_body_spec fuel blocks data index :
  spec (depth_ok index index (len data)) decode_exn (fun _ => True)
       (parse_blocks_body rec fuel blocks data index).
Proof.
  unfold parse_blocks_body.
  eapply spec_bind.
  - apply parse_blocks_while_spec. unfold scan_init.
    split; [apply covers_init | left; reflexivity].
  - intros st Hst. apply parse_blocks_finish_spec. exact Hst.
Qed.

End ScanSpecs.

(** Every event of a scan at depth [index] over [data] is at depth
    [index] or deeper, at most [len data / 12] levels deeper; the only
    exceptions that leave a scan are those of the decoders. *)
Lemma parse_blocks_spec fuel : forall blocks data index,
  spec (depth_ok index index (len data)) decode_exn (fun _ => True)
       (parse_blocks fuel blocks data index).
Proof.
  induction fuel as [|fuel IH]; intros blocks data index; cbn [parse_blocks].
  - apply spec_out_of_fuel.
  - apply parse_blocks_body_spec. exact IH.
Qed.

(* ===================================================================== *)
(** ** Steps of the scanner *)

Lemma parse_block_desc_inv (d : bytes) label size :
  parse_block_desc d = ret (label, size) -> 8 <= len d.
Proof.
  unfold parse_block_desc. intros H.
  destruct (@unpack_cases event [fI; fI] d) as [[_ E]|[Hl _]].
  - rewrite E in H. discriminate.
  - exact Hl.
Qed.

Lemma parse_block_desc_short (d : bytes) :
  len d < 8 -> parse_block_desc d = raise StructError.
Proof.
  intros H. unfold parse_block_desc.
  rewrite unpack_short by exact H. reflexivity.
Qed.

Lemma parse_block_desc_block label size (r : bytes) :
  label < 2 ^ 32 -> size < 2 ^ 32 ->
  parse_block_desc (desc label size ++ r) = ret (label, size).
Proof.
  intros Hl Hs. unfold parse_block_desc, desc.
  rewrite <- app_assoc, unpack_II_le32 by assumption. reflexivity.
Qed.

Section ScanSteps.
Variable rec : dict BlockPresence -> bytes -> N -> M event unit.
Variables (blocks : dict BlockPresence) (data : bytes) (index : N).

(** One iteration of the loop at a cursor where a descriptor decodes. *)
Lemma while_step fuel blocks_parsed start label0 label size :
  parse_block_desc (drop start data) = ret (label, size) ->
  parse_blocks_while rec (S fuel) blocks data index (blocks_parsed, start, label0) =
    (bp <- note_label blocks blocks_parsed label index ;;
     process_block_by_label rec label (slice (start + 8) (start + size) data) index ;;
     parse_blocks_while rec fuel blocks data index (bp, start + size, Some label)).
Proof.
  intros H. cbn [parse_blocks_while].
  pose proof (parse_block_desc_inv _ _ _ H) as Hl.
  destruct (N.ltb_spec 0 (len (drop start data))); [|lia].
  rewrite H, bind_ret_l. reflexivity.
Qed.

(** The loop ends when the cursor is at or past the end of the span. *)
Lemma while_exit fuel st :
  len data <= snd (fst st) ->
  parse_blocks_while rec (S fuel) blocks data index st = ret st.
Proof.
  destruct st as [[bp start] label0]. cbn [fst snd]. intros H.
  cbn [parse_blocks_while]. rewrite len_drop.
  destruct (N.ltb_spec 0 (len data - start)); [lia | reflexivity].
Qed.

(** Past the end of the span, the final checks start with the
    "more data than expected" error. *)
Lemma finish_overrun blocks_parsed start label :
  start <> len data ->
  parse_blocks_finish blocks data index (blocks_parsed, start, Some label) =
    (error (MoreDataThanExpected index label) ;;
     parse_blocks_finish blocks data index (blocks_parsed, len data, Some label)).
Proof.
  intros H. unfold parse_blocks_finish.
  destruct (N.eqb_spec start (len data)); [contradiction|].
  rewrite N.eqb_refl. cbn [negb of_option].
  rewrite !bind_ret_l. reflexivity.
Qed.

End ScanSteps.

(* ===================================================================== *)
(** ** C1: a block whose label is not in the schema *)

(** C1, as stated, fails: at the root, where the schema has only Object
    and UserInfo, a Vertices block is reported as unexpected and its
    payload is nevertheless handed to the Vertices handler, whose trace
    is in the log. *)
Lemma C1_unexpected_vertices_reaches_handler :
  mem root_schema BlockID.Vertices = false /\
  parse_blocks 3 root_schema
    (block BlockID.Vertices (le32 0 ++ le32 24 ++ le32 0)) 0 =
  ([Log WARNING (UnexpectedBlock 0 BlockID.Vertices);
    Log VERBOSE (VerticesInfo 0 12 0 24 0);
    Log WARNING (InvalidOccurrencesMin BlockID.Object);
    Log WARNING (InvalidOccurrencesMin BlockID.UserInfo)],
   Return tt).
Proof. split; vm_compute; reflexivity. Qed.

(** C1, amended: when the scanner decodes a block whose label is absent
    from the schema, it reports exactly one "unexpected block" warning,
    leaves the seen-flags as they are, and then dispatches on the label
    exactly as for an expected block, on the payload up to the declared
    size; once the dispatch has returned, the loop goes on at the cursor
    advanced by the declared size.  For a label the dispatcher has no
    branch for, the dispatch is one "unknown block" warning and a hex
    dump of the payload. *)
Theorem C1_unexpected_block_is_dispatched
        rec fuel blocks data index blocks_parsed start label0 label size :
  parse_block_desc (drop start data) = ret (label, size) ->
  mem blocks label = false ->
  parse_blocks_while rec (S fuel) blocks data index (blocks_parsed, start, label0) =
    (warning (UnexpectedBlock index label) ;;
     process_block_by_label rec label (slice (start + 8) (start + size) data) index ;;
     parse_blocks_while rec fuel blocks data index
                        (blocks_parsed, start + size, Some label))
  /\ (~ In label known_labels ->
      process_block_by_label rec label (slice (start + 8) (start + size) data) index =
        (warning (UnknownBlock label) ;;
         emit (HexDump (slice (start + 8) (start + size) data) index))).
Proof.
  intros Hd Hm. split.
  - rewrite (while_step rec blocks data index fuel _ _ _ _ _ Hd).
    unfold note_label. rewrite Hm. cbn [negb].
    rewrite bind_assoc. unfold warning, emit. rewrite !bind_log.
    cbn [fst snd]. rewrite bind_ret_l. reflexivity.
  - intros Hk. unfold process_block_by_label.
    repeat match goal with
           | |- context [?l =? ?c] =>
               destruct (N.eqb_spec l c) as [->|_];
               [exfalso; apply Hk; unfold known_labels; simpl; tauto|]
           end.
    reflexivity.
Qed.

(** C1, amended, at a concrete scan: label 0x99 under the root schema. *)
Lemma C1_unexpected_block_is_dispatched_witness :
  parse_block_desc (drop 0 (block 0x99 [Byte.x07])) = ret (0x99, 9) /\
  mem root_schema 0x99 = false /\
  parse_blocks_while (parse_blocks 1) 2 root_schema (block 0x99 [Byte.x07]) 0
                     (fst (fst (scan_init root_schema)), 0, None) =
  ([Log WARNING (UnexpectedBlock 0 0x99); Log WARNING (UnknownBlock 0x99);
    HexDump [Byte.x07] 0],
   Return (fst (fst (scan_init root_schema)), 9, Some 0x99)).
Proof.
  split; [reflexivity|]. split; [reflexivity|].
  destruct (C1_unexpected_block_is_dispatched (parse_blocks 1) 1 root_schema
              (block 0x99 [Byte.x07]) 0 (fst (fst (scan_init root_schema)))
              0 None 0x99 9 eq_refl eq_refl) as [H _].
  rewrite H. vm_compute. reflexivity.
Defined.

(* ===================================================================== *)
(** ** C3: a declared size that overruns the span, or is below 8 *)

(** A descriptor with size 0 never moves the cursor: the scan of the
    8-byte span holding an Unk36 descriptor of size 0 is out of fuel
    whatever the fuel. *)
Lemma zero_size_loops fuel : forall blocks_parsed label0,
  get blocks_parsed BlockID.Unk36 <> None ->
  snd (parse_blocks_while (parse_blocks fuel) fuel
         [(BlockID.Unk36, OptSingle)] (desc BlockID.Unk36 0) 7
         (blocks_parsed, 0, label0)) = OutOfFuel.
Proof.
  generalize (parse_blocks fuel). intros rec.
  induction fuel as [|fuel IH]; intros bp label0 Hbp; [reflexivity|].
  rewrite (while_step rec _ _ _ fuel bp 0 label0 BlockID.Unk36 0)
    by reflexivity.
  unfold note_label. change (mem _ BlockID.Unk36) with true.
  cbn [negb get]. change (BlockID.Unk36 =? BlockID.Unk36) with true.
  cbn [of_option single presence_eqb orb]. rewrite bind_ret_l.
  destruct (get bp BlockID.Unk36) as [seen|] eqn:Hg; [|contradiction].
  cbn [of_option]. rewrite bind_ret_l, bind_assoc, bind_ret_l.
  specialize (IH (set bp BlockID.Unk36 true) (Some BlockID.Unk36)).
  rewrite get_set, N.eqb_refl in IH. specialize (IH ltac:(discriminate)).
  change (process_block_by_label rec BlockID.Unk36
            (slice (0 + 8) (0 + 0) (desc BlockID.Unk36 0)) 7)
    with (@emit event (Log VERBOSE (Unk36Info 7 0))).
  change (0 + 0) with 0.
  destruct (parse_blocks_while rec fuel _ _ 7 (set bp BlockID.Unk36 true, 0, _))
    as [l o]. cbn [snd] in IH. subst o.
  destruct seen; reflexivity.
Qed.

(** C3, as stated, fails twice.  A descriptor whose size (100) overruns
    the 12-byte span is dispatched all the same: the Unk36 handler runs on
    the 4 payload bytes that are there, and the structural error is only
    reported afterwards.  And a descriptor with size 0, below the 8 bytes
    of the descriptor itself, is accepted; the scan of that finite span
    does not terminate. *)
Lemma C3_overrun_dispatched_and_zero_size_loops :
  parse_blocks 3 unk36_schema overrun_span 7 =
    ([Log VERBOSE (Unk36Info 7 4);
      Log ERROR (MoreDataThanExpected 7 BlockID.Unk36)], Return tt)
  /\ ~ (exists fuel,
         out_of (parse_blocks fuel unk36_schema zero_size_span 7) <> OutOfFuel).
Proof.
  split; [vm_compute; reflexivity|].
  intros [fuel H]. apply H. destruct fuel as [|fuel]; [reflexivity|].
  cbn [parse_blocks]. unfold parse_blocks_body, out_of.
  pose proof (zero_size_loops fuel
                (fst (fst (scan_init unk36_schema)))
                (snd (scan_init unk36_schema))) as Hz.
  specialize (Hz ltac:(discriminate)).
  change (fst (fst (scan_init unk36_schema)), 0, snd (scan_init unk36_schema))
    with (scan_init unk36_schema) in Hz.
  change (parse_blocks_while (parse_blocks fuel) fuel
            [(BlockID.Unk36, OptSingle)] (desc BlockID.Unk36 0) 7
            (scan_init unk36_schema))
    with (parse_blocks_while (parse_blocks fuel) fuel unk36_schema
            zero_size_span 7 (scan_init unk36_schema)) in Hz.
  destruct (parse_blocks_while _ _ _ _ _ _) as [l o].
  cbn [snd] in Hz. subst o. reflexivity.
Qed.

(** C3, amended: if the descriptor decoded at the cursor declares a size
    that overruns the span, the scanner still does the presence
    bookkeeping for the label and dispatches the block, on the payload cut
    off at the end of the span; when the dispatch has returned, scanning
    stops there and exactly one "more data than expected" error is
    reported before the missing-block checks.  The declared size is not
    checked against the 8 bytes of the descriptor: with a size below 8
    the block is dispatched with an empty payload and the loop goes on at
    the cursor advanced by that size. *)
Theorem C3_overrun_is_dispatched_then_reported
        rec fuel blocks data index blocks_parsed start label0 label size :
  parse_block_desc (drop start data) = ret (label, size) ->
  (len data < start + size ->
   (st <- parse_blocks_while rec (S (S fuel)) blocks data index
                             (blocks_parsed, start, label0) ;;
    parse_blocks_finish blocks data index st) =
   (bp <- note_label blocks blocks_parsed label index ;;
    process_block_by_label rec label (drop (start + 8) data) index ;;
    error (MoreDataThanExpected index label) ;;
    parse_blocks_finish blocks data index (bp, len data, Some label)))
  /\
  (size < 8 ->
   parse_blocks_while rec (S fuel) blocks data index
                      (blocks_parsed, start, label0) =
   (bp <- note_label blocks blocks_parsed label index ;;
    process_block_by_label rec label [] index ;;
    parse_blocks_while rec fuel blocks data index
                       (bp, start + size, Some label))).
Proof.
  intros Hd. split; intros Hs.
  - rewrite (while_step rec blocks data index _ _ _ _ _ _ Hd).
    rewrite slice_overrun by lia.
    rewrite !bind_assoc. apply bind_ext. intros bp.
    rewrite !bind_assoc. apply bind_ext. intros _.
    rewrite while_exit by (cbn [fst snd]; lia).
    rewrite bind_ret_l. apply finish_overrun. lia.
  - rewrite (while_step rec blocks data index _ _ _ _ _ _ Hd).
    rewrite slice_empty by lia. reflexivity.
Qed.

(** C3, amended, at the overrunning span and at a span whose descriptor
    declares size 3. *)
Lemma C3_overrun_is_dispatched_then_reported_witness :
  (parse_block_desc (drop 0 overrun_span) = ret (BlockID.Unk36, 100) /\
   len overrun_span < 0 + 100 /\
   (st <- parse_blocks_while (parse_blocks 0) 2 unk36_schema overrun_span 7
                             (scan_init unk36_schema) ;;
    parse_blocks_finish unk36_schema overrun_span 7 st) =
   (bp <- note_label unk36_schema (fst (fst (scan_init unk36_schema)))
                     BlockID.Unk36 7 ;;
    process_block_by_label (parse_blocks 0) BlockID.Unk36
                           (drop (0 + 8) overrun_span) 7 ;;
    error (MoreDataThanExpected 7 BlockID.Unk36) ;;
    parse_blocks_finish unk36_schema overrun_span 7
                        (bp, len overrun_span, Some BlockID.Unk36)))
  /\
  (parse_block_desc (drop 0 short_size_span) = ret (BlockID.Unk36, 3) /\
   3 < 8 /\
   parse_blocks_while (parse_blocks 0) 1 unk36_schema short_size_span 7
                      (scan_init unk36_schema) =
   (bp <- note_label unk36_schema (fst (fst (scan_init unk36_schema)))
                     BlockID.Unk36 7 ;;
    process_block_by_label (parse_blocks 0) BlockID.Unk36 [] 7 ;;
    parse_blocks_while (parse_blocks 0) 0 unk36_schema short_size_span 7
                       (bp, 0 + 3, Some BlockID.Unk36))).
Proof.
  split.
  - split; [reflexivity|]. split; [reflexivity|].
    apply (proj1 (C3_overrun_is_dispatched_then_reported
                    (parse_blocks 0) 0 unk36_schema overrun_span 7
                    (fst (fst (scan_init unk36_schema))) 0
                    (snd (scan_init unk36_schema)) BlockID.Unk36 100 eq_refl)).
    reflexivity.
  - split; [reflexivity|]. split; [reflexivity|].
    apply (proj2 (C3_overrun_is_dispatched_then_reported
                    (parse_blocks 0) 0 unk36_schema short_size_span 7
                    (fst (fst (scan_init unk36_schema))) 0
                    (snd (scan_init unk36_schema)) BlockID.Unk36 3 eq_refl)).
    reflexivity.
Defined.

(* ===================================================================== *)
(** ** C2: exceptions that leave the scan *)

(** C2, as stated, fails: the scan of a 2-byte span raises
    [struct.error] to its caller. *)
Lemma C2_short_span_raises :
  parse_blocks 3 root_schema [Byte.x01; Byte.x02] 0 = ([], Raise StructError).
Proof. vm_compute. reflexivity. Qed.

(** A payload shorter than the fixed fields of its handler. *)
Lemma short_payload_raises rec label (data : bytes) index :
  len data < fixed_size label ->
  process_block_by_label rec label data index = ([], Raise StructError).
Proof.
  unfold fixed_size, process_block_by_label.
  repeat match goal with
         | |- context [label =? ?c] => destruct (N.eqb_spec label c) as [->|_]
         end;
    intros H;
    try (cbv [parse_block_object parse_block_unk30 parse_block_mesh
              parse_block_vertices parse_block_faces parse_block_properties
              parse_block_unk35 parse_block_user_info parse_block_material
              parse_block_bitmap parse_block_ptero_mat];
         rewrite unpack_short by exact H; reflexivity);
    exfalso; apply (N.nlt_0_r _ H).
Qed.

(** C2, amended: a scan can raise to its caller; the scanner catches
    nothing.  When between 1 and 7 bytes are left
    at the cursor, too few for a descriptor, the loop raises
    [struct.error]; and so does the dispatch of a block whose payload is
    shorter than the fixed fields of its handler.  An exception raised by
    the handler of a block leaves the loop at once, and an exception that
    leaves the loop leaves the scan, its final checks skipped.  What was
    found before the exception is in the log. *)
Theorem C2_scan_raises_decode_errors :
  (forall rec fuel blocks data index blocks_parsed start label0,
      0 < len (drop start data) < 8 ->
      parse_blocks_while rec (S fuel) blocks data index
                         (blocks_parsed, start, label0) =
      ([], Raise StructError))
  /\
  (forall rec label data index,
      len data < fixed_size label ->
      process_block_by_label rec label data index = ([], Raise StructError))
  /\
  (forall rec fuel blocks data index blocks_parsed start label0
          label size bp lg0 lg e,
      parse_block_desc (drop start data) = ret (label, size) ->
      note_label blocks blocks_parsed label index = (lg0, Return bp) ->
      process_block_by_label rec label (slice (start + 8) (start + size) data)
                             index = (lg, Raise e) ->
      parse_blocks_while rec (S fuel) blocks data index
                         (blocks_parsed, start, label0) =
      (lg0 ++ lg, Raise e))
  /\
  (forall fuel blocks data index lg e,
      parse_blocks_while (parse_blocks fuel) fuel blocks data index
                         (scan_init blocks) = (lg, Raise e) ->
      parse_blocks (S fuel) blocks data index = (lg, Raise e)).
Proof.
  split; [|split; [|split]].
  - intros rec fuel blocks data index bp start label0 [Hlo Hhi].
    cbn [parse_blocks_while].
    destruct (N.ltb_spec 0 (len (drop start data))); [|lia].
    rewrite parse_block_desc_short by exact Hhi. reflexivity.
  - apply short_payload_raises.
  - intros rec fuel blocks data index blocks_parsed start label0
           label size bp lg0 lg e Hd Hn Hp.
    rewrite (while_step rec blocks data index fuel blocks_parsed start label0
                        label size Hd).
    rewrite Hn, bind_log, Hp. reflexivity.
  - intros fuel blocks data index lg e H.
    cbn [parse_blocks]. unfold parse_blocks_body. rewrite H. reflexivity.
Qed.

(** C2, amended, at a span of two bytes and at a Vertices block with a
    payload of 11 bytes. *)
Lemma C2_scan_raises_decode_errors_witness :
  (0 < len (drop 0 [Byte.x01; Byte.x02]) < 8 /\
   parse_blocks_while (parse_blocks 0) 1 root_schema [Byte.x01; Byte.x02] 0
                      (scan_init root_schema) = ([], Raise StructError))
  /\
  (len (zeros 11) < fixed_size BlockID.Vertices /\
   process_block_by_label (parse_blocks 0) BlockID.Vertices (zeros 11) 0 =
     ([], Raise StructError))
  /\
  parse_blocks_while (parse_blocks 0) 1 root_schema
                     (block BlockID.Vertices (zeros 11)) 0
                     (scan_init root_schema) =
    ([Log WARNING (UnexpectedBlock 0 BlockID.Vertices)] ++ [], Raise StructError)
  /\
  parse_blocks 3 root_schema [Byte.x01; Byte.x02] 0 = ([], Raise StructError).
Proof.
  destruct C2_scan_raises_decode_errors as [H1 [H2 [H3 H4]]].
  split; [|split; [|split]].
  - assert (Hb : 0 < len (drop 0 [Byte.x01; Byte.x02]) < 8)
      by (split; reflexivity).
    split; [exact Hb|].
    apply (H1 (parse_blocks 0) 0%nat root_schema [Byte.x01; Byte.x02] 0
              (fst (fst (scan_init root_schema))) 0
              (snd (scan_init root_schema)) Hb).
  - assert (Hs : len (zeros 11) < fixed_size BlockID.Vertices) by reflexivity.
    split; [exact Hs|].
    apply (H2 (parse_blocks 0) BlockID.Vertices (zeros 11) 0 Hs).
  - apply (H3 (parse_blocks 0) 0%nat root_schema
              (block BlockID.Vertices (zeros 11)) 0
              (fst (fst (scan_init root_schema))) 0
              (snd (scan_init root_schema))
              BlockID.Vertices 19
              (fst (fst (scan_init root_schema)))
              [Log WARNING (UnexpectedBlock 0 BlockID.Vertices)] []
              StructError);
      vm_compute; reflexivity.
  - apply (H4 2%nat root_schema [Byte.x01; Byte.x02] 0 [] StructError).
    vm_compute. reflexivity.
Defined.

(* ===================================================================== *)
(** ** C9: a second block under a single-kind rule *)

Lemma slice_middle {A} (a p b : list A) :
  slice (len a) (len a + len p) (a ++ p ++ b) = p.
Proof.
  unfold slice. rewrite drop_app_exact.
  replace (len a + len p - len a) with (len p) by lia.
  apply take_app_exact.
Qed.

Lemma slice_end {A} (a p : list A) :
  slice (len a) (len a + len p) (a ++ p) = p.
Proof.
  rewrite <- (app_nil_r p) at 2. apply slice_middle.
Qed.

Lemma filter_none {A} (f : A -> bool) (l : list A) :
  Forall (fun x => f x = false) l -> filter f l = [].
Proof.
  induction 1 as [|x l Hx _ IH]; simpl; [reflexivity|].
  rewrite Hx. exact IH.
Qed.

Lemma depth_ok_not_max index label d n e :
  depth_ok (index + 1) d n e -> is_max_warning index label e = false.
Proof.
  intros [Hs _]. destruct e as [lv m| |]; try reflexivity.
  destruct lv; try reflexivity. destruct m; try reflexivity.
  simpl in *. specialize (Hs index0 eq_refl).
  destruct (N.eqb_spec index0 index); [lia | reflexivity].
Qed.

Lemma len_desc label size : len (desc label size) = 8.
Proof. reflexivity. Qed.

Section TwoBlocks.
Variable rec : dict BlockPresence -> bytes -> N -> M event unit.
Variables (blocks : dict BlockPresence) (index label : N) (rule : BlockPresence).
Variables (p1 p2 : bytes).
Hypothesis Hrule : get blocks label = Some rule.
Hypothesis Hsingle : single rule = true.
Hypothesis Hlabel : label < 2 ^ 32.
Hypothesis Hp1 : 8 + len p1 < 2 ^ 32.
Hypothesis Hp2 : 8 + len p2 < 2 ^ 32.

Let data : bytes := block label p1 ++ block label p2.
Let seen0 : dict bool := fst (fst (scan_init blocks)).
Let seen1 : dict bool := set seen0 label true.
Let seen2 : dict bool := set seen1 label true.

Lemma two_blocks_len : len data = (8 + len p1) + (8 + len p2).
Proof.
  unfold data, block. rewrite !len_app, !len_desc. reflexivity.
Qed.

Lemma two_blocks_mem : mem blocks label = true.
Proof. unfold mem. rewrite Hrule. reflexivity. Qed.

Lemma two_blocks_first :
  note_label blocks seen0 label index = ret seen1.
Proof.
  unfold note_label. rewrite two_blocks_mem, Hrule. cbn [negb of_option].
  rewrite bind_ret_l, Hsingle.
  unfold seen0. rewrite scan_init_get by apply two_blocks_mem.
  reflexivity.
Qed.

Lemma two_blocks_second :
  note_label blocks seen1 label index =
    (warning (InvalidOccurrencesMax index label) ;; ret seen2).
Proof.
  unfold note_label. rewrite two_blocks_mem, Hrule. cbn [negb of_option].
  rewrite bind_ret_l, Hsingle.
  unfold seen1 at 1. rewrite get_set, N.eqb_refl.
  cbn [of_option]. rewrite bind_ret_l. reflexivity.
Qed.

Lemma two_blocks_scan fuel :
  parse_blocks_body rec (S (S (S fuel))) blocks data index =
    (process_block_by_label rec label p1 index ;;
     warning (InvalidOccurrencesMax index label) ;;
     process_block_by_label rec label p2 index ;;
     parse_blocks_finish blocks data index (seen2, len data, Some label)).
Proof.
  unfold parse_blocks_body.
  change (scan_init blocks) with (seen0, 0, snd (scan_init blocks)).
  rewrite (while_step rec blocks data index _ seen0 0 _ label (8 + len p1)).
  2:{ rewrite drop_0. unfold data, block. rewrite <- !app_assoc.
      apply parse_block_desc_block; assumption. }
  rewrite two_blocks_first, bind_ret_l.
  replace (slice (0 + 8) (0 + (8 + len p1)) data) with p1.
  2:{ unfold data, block. rewrite <- !app_assoc.
      change (0 + 8) with (len (desc label (8 + len p1))).
      rewrite N.add_0_l, slice_middle. reflexivity. }
  rewrite !bind_assoc. apply bind_ext. intros _.
  rewrite (while_step rec blocks data index _ seen1 _ _ label (8 + len p2)).
  2:{ unfold data. rewrite N.add_0_l.
      rewrite (drop_app_at (block label p1))
        by (unfold block; rewrite len_app, len_desc; reflexivity).
      unfold block. apply parse_block_desc_block; assumption. }
  rewrite two_blocks_second, !bind_assoc. apply bind_ext. intros _.
  rewrite bind_ret_l.
  replace (slice (0 + (8 + len p1) + 8) (0 + (8 + len p1) + (8 + len p2)) data)
    with p2.
  2:{ unfold data. unfold block at 2. rewrite app_assoc.
      replace (0 + (8 + len p1) + 8)
        with (len (block label p1 ++ desc label (8 + len p2)))
        by (unfold block; rewrite !len_app, !len_desc; lia).
      replace (0 + (8 + len p1) + (8 + len p2))
        with (len (block label p1 ++ desc label (8 + len p2)) + len p2)
        by (unfold block; rewrite !len_app, !len_desc; lia).
      rewrite slice_end. reflexivity. }
  rewrite !bind_assoc. apply bind_ext. intros _.
  rewrite while_exit by (cbn [fst snd]; rewrite two_blocks_len; lia).
  rewrite bind_ret_l. f_equal. f_equal. f_equal.
  rewrite two_blocks_len. lia.
Qed.

Lemma two_blocks_covers : covers blocks seen2.
Proof.
  intros k Hk. unfold seen2, seen1, seen0. rewrite !mem_set.
  rewrite (covers_init blocks k Hk). rewrite !orb_true_r. reflexivity.
Qed.

End TwoBlocks.

(** The dispatch of a block at depth [index] logs no "max 1" warning of
    depth [index]: the scans nested in it run one level deeper. *)
Lemma dispatch_no_max_warning fuel label' p index label :
  Forall (fun e => is_max_warning index label e = false)
         (fst (process_block_by_label (parse_blocks fuel) label' p index)).
Proof.
  destruct (process_block_by_label_spec (parse_blocks fuel)
              (parse_blocks_spec fuel) label' p index) as [Hl _].
  eapply Forall_impl; [|exact Hl].
  intros e. apply depth_ok_not_max.
Qed.

(** C9, as stated, fails: under the schema {Object: required-single}, in
    a span of two Object blocks with empty payloads the handler of the
    first raises [struct.error]; the second block is never dispatched and
    no "max 1" warning is logged. *)
Lemma C9_first_handler_raises :
  parse_blocks 5 [(BlockID.Object, ReqSingle)]
               (block BlockID.Object [] ++ block BlockID.Object []) 0 =
    ([], Raise StructError).
Proof. vm_compute. reflexivity. Qed.

(** C9, amended: for every schema with a single-kind rule for a label and
    every span made of two blocks with that label, the scan is: dispatch
    of the first block, one "invalid occurrence count (max 1)" warning,
    dispatch of the second block, the final checks; each step is reached
    when the one before has returned.  So when the handler of the first
    block returns normally, exactly one "max 1" warning of this depth is
    logged for the label, between the two dispatches. *)
Theorem C9_second_occurrence_warns_once fuel blocks index label rule p1 p2 :
  get blocks label = Some rule ->
  single rule = true ->
  label < 2 ^ 32 -> 8 + len p1 < 2 ^ 32 -> 8 + len p2 < 2 ^ 32 ->
  let data := block label p1 ++ block label p2 in
  let rec := parse_blocks (S (S (S fuel))) in
  let seen :=
    set (set (fst (fst (scan_init blocks))) label true) label true in
  parse_blocks (S (S (S (S fuel)))) blocks data index =
    (process_block_by_label rec label p1 index ;;
     warning (InvalidOccurrencesMax index label) ;;
     process_block_by_label rec label p2 index ;;
     parse_blocks_finish blocks data index (seen, len data, Some label))
  /\
  (out_of (process_block_by_label rec label p1 index) = Return tt ->
   count_max_warnings index label
     (log_of (parse_blocks (S (S (S (S fuel)))) blocks data index)) = 1%nat).
Proof.
  intros Hrule Hsingle Hlabel Hp1 Hp2 data rec seen.
  assert (Heq : parse_blocks (S (S (S (S fuel)))) blocks data index =
    (process_block_by_label rec label p1 index ;;
     warning (InvalidOccurrencesMax index label) ;;
     process_block_by_label rec label p2 index ;;
     parse_blocks_finish blocks data index (seen, len data, Some label))).
  { cbn [parse_blocks].
    apply (two_blocks_scan _ blocks index label rule p1 p2
             Hrule Hsingle Hlabel Hp1 Hp2). }
  split; [exact Heq|].
  intros Hret. rewrite Heq. unfold count_max_warnings, log_of.
  pose proof (dispatch_no_max_warning (S (S (S fuel))) label p1 index label)
    as H1.
  fold rec in H1.
  destruct (process_block_by_label rec label p1 index) as [l1 o1].
  unfold out_of in Hret. cbn [snd fst] in *. subst o1.
  rewrite bind_log. cbn [fst].
  unfold warning, emit. rewrite bind_log. cbn [fst].
  rewrite !filter_app, (filter_none _ l1 H1).
  cbn [filter is_max_warning]. rewrite !N.eqb_refl. cbn [andb app].
  rewrite filter_none; [reflexivity|].
  assert (Hs : spec (fun e => is_max_warning index label e = false)
                    decode_exn (fun _ => True)
                    (process_block_by_label rec label p2 index ;;
                     parse_blocks_finish blocks data index
                                         (seen, len data, Some label))).
  { eapply spec_bind with (R := fun _ => True).
    - split.
      + apply dispatch_no_max_warning.
      + destruct (process_block_by_label_spec rec
                    (parse_blocks_spec (S (S (S fuel)))) label p2 index)
          as [_ Ho].
        exact Ho.
    - intros _ _. apply parse_blocks_finish_events; try reflexivity.
      split; [|left; reflexivity].
      apply (two_blocks_covers blocks label). }
  exact (proj1 Hs).
Qed.

(** C9, amended, at two Unk38 blocks under {Unk38: required-single}. *)
Lemma C9_second_occurrence_warns_once_witness :
  let blocks := [(BlockID.Unk38, ReqSingle)] in
  let data := block BlockID.Unk38 [] ++ block BlockID.Unk38 [Byte.x01] in
  parse_blocks 4 blocks data 0 =
    ([Log VERBOSE (Unk38Info 0 0);
      Log WARNING (InvalidOccurrencesMax 0 BlockID.Unk38);
      Log VERBOSE (Unk38Info 0 1)], Return tt)
  /\ count_max_warnings 0 BlockID.Unk38 (log_of (parse_blocks 4 blocks data 0))
     = 1%nat.
Proof.
  intros blocks data.
  destruct (C9_second_occurrence_warns_once 0 blocks 0 BlockID.Unk38 ReqSingle
              [] [Byte.x01] eq_refl eq_refl eq_refl eq_refl eq_refl)
    as [Heq Hcount].
  split.
  - fold data in Heq. rewrite Heq. vm_compute. reflexivity.
  - apply Hcount. reflexivity.
Defined.

(* ===================================================================== *)
(** ** C7: nesting depth *)

Lemma parse_blocks_S fuel blocks data index :
  parse_blocks (S fuel) blocks data index =
    parse_blocks_body (parse_blocks fuel) fuel blocks data index.
Proof. reflexivity. Qed.









(* ===================================================================== *)
(** ** C4: the wrap markers of a Bitmap texture map *)

(** C4 holds for the U axis and fails for the V axis: the V-mirror test
    compares the masked flags with the mask 0xA instead of the mirror bit
    0x8.  So 0x8 alone is reported as an unknown coordinate setting, and
    0xA, both V bits, is accepted as "V mirror" without an error; on the
    U axis, 0x4 alone is "U mirror" and 0x5 is the error. *)
Theorem C4_v_mirror_tested_against_mask :
  (forall sPrint,
      coord_flags 0x2 sPrint = ([], Return (sPrint ++ [VTile])) /\
      coord_flags 0x8 sPrint =
        ([Log ERROR (UnknownCoordinates 0x8)], Return sPrint) /\
      coord_flags 0xA sPrint = ([], Return (sPrint ++ [VMirror])))
  /\
  (forall sPrint,
      coord_flags 0x1 sPrint = ([], Return (sPrint ++ [UTile])) /\
      coord_flags 0x4 sPrint = ([], Return (sPrint ++ [UMirror])) /\
      coord_flags 0x5 sPrint =
        ([Log ERROR (UnknownCoordinates 0x5)], Return sPrint))
  /\
  parse_block_bitmap (bitmap_one_map 0x8) 0 =
    ([Log ERROR (UnknownCoordinates 0x8);
      Log VERBOSE (Summary [BitmapHead 0 22 0 (zeros 4);
                            MapLine 1 "Diffuse Color" 2 "A"])],
     Return tt)
  /\
  parse_block_bitmap (bitmap_one_map 0xA) 0 =
    ([Log VERBOSE (Summary [BitmapHead 0 22 0 (zeros 4);
                            MapLine 1 "Diffuse Color" 2 "A"; VMirror])],
     Return tt).
Proof.
  split; [|split; [|split]].
  - intros sPrint. repeat split; vm_compute; rewrite ?app_nil_r; reflexivity.
  - intros sPrint. repeat split; vm_compute; rewrite ?app_nil_r; reflexivity.
  - vm_compute. reflexivity.
  - vm_compute. reflexivity.
Qed.

(* ===================================================================== *)
(** ** C5: the checks of a Vertices block *)

(** C5, as stated, fails: in this block the stride (31) differs from
    24 + 8 * 1 and the 63 vertex bytes differ from 31 * 2, and only the
    stride error is reported. *)
Lemma C5_both_violated_one_error :
  24 + 8 * N.land (N.shiftr 0x100 8) 0xFF <> 31 /\
  len (drop 12 (vertices_payload 2 31 0x100 63)) <> 31 * 2 /\
  parse_block_vertices (vertices_payload 2 31 0x100 63) 3 =
    ([Log VERBOSE (VerticesInfo 3 75 2 31 0x100);
      Log ERROR (VertexSizeMismatch 3)], Return tt).
Proof. repeat split; try (vm_compute; discriminate). Qed.

(** C5, amended: for every Vertices block whose fixed fields decode,
    with texCount = (typeFlags >> 8) & 0xFF, an error is reported whenever
    the stride differs from 24 + 8 * texCount; the vertex-data length is
    compared with stride * count only when the stride check has passed, so
    at most one of the two errors is reported.  A block with count 2,
    texCount 1, stride 32 and 64 vertex bytes yields no error; the same
    block with 63 vertex bytes yields the size-mismatch error and no
    other. *)
Theorem C5_vertices_checks_are_chained (data : bytes) (index count size vType : N) :
  unpack (E := event) [fI; fI; fI] data = ret (count, (size, (vType, tt))) ->
  let texCnt := N.land (N.shiftr vType 8) 0xFF in
  parse_block_vertices data index =
    (Log VERBOSE (VerticesInfo index (len data) count size vType)
       :: (if negb (24 + 8 * texCnt =? size)
           then [Log ERROR (VertexSizeMismatch index)]
           else if negb (len (drop 12 data) =? size * count)
                then [Log ERROR (BlockSizeMismatch index)]
                else []),
     Return tt)
  /\ parse_block_vertices (vertices_payload 2 32 0x100 64) index =
       ([Log VERBOSE (VerticesInfo index 76 2 32 0x100)], Return tt)
  /\ parse_block_vertices (vertices_payload 2 32 0x100 63) index =
       ([Log VERBOSE (VerticesInfo index 75 2 32 0x100);
         Log ERROR (BlockSizeMismatch index)], Return tt).
Proof.
  intros H texCnt. split; [|split; reflexivity].
  unfold parse_block_vertices. rewrite H, bind_ret_l.
  fold texCnt. unfold verbose, error, emit. rewrite bind_log. cbn [fst snd].
  destruct (negb (24 + 8 * texCnt =? size)); [reflexivity|].
  destruct (negb (len (drop 12 data) =? size * count)); reflexivity.
Qed.

(** C5, amended, at the block of the counterexample. *)
Lemma C5_vertices_checks_are_chained_witness :
  unpack (E := event) [fI; fI; fI] (vertices_payload 2 31 0x100 63)
    = ret (2, (31, (0x100, tt)))
  /\ parse_block_vertices (vertices_payload 2 31 0x100 63) 3 =
       ([Log VERBOSE (VerticesInfo 3 75 2 31 0x100);
         Log ERROR (VertexSizeMismatch 3)], Return tt).
Proof.
  split; [reflexivity|].
  apply (proj1 (C5_vertices_checks_are_chained
                  (vertices_payload 2 31 0x100 63) 3 2 31 0x100 eq_refl)).
Defined.

(* ===================================================================== *)
(** ** C8: the "unknown bits" warning of a PteroMat texture *)

(** C8, as stated, fails in both directions: a coord field with only bit
    0x1 set below the texture-type bits gets no warning (the bit is shown
    as "U tile"), and one with only bit 0x4 set, above the low two bits,
    gets the warning. *)
Lemma C8_low_bits_are_not_the_unknown_bits :
  PteroMat.parseTexture (texture_record 0x10001) 0 16 =
    ([], Return (10, [TexLine 1 "Diffuse #1 - Ground" 2 "A"; UTile]))
  /\
  PteroMat.parseTexture (texture_record 0x10004) 0 16 =
    ([Log WARNING (UnknownTextureBits 0x10004)],
     Return (10, [TexLine 1 "Diffuse #1 - Ground" 2 "A"])).
Proof. split; vm_compute; reflexivity. Qed.

Lemma truthy_spec n : truthy n = true <-> n <> 0.
Proof.
  unfold truthy. destruct (N.eqb_spec n 0); simpl; split; intros; congruence.
Qed.

(** C8, amended: for every PteroMat texture record whose fields decode,
    of a texture in the documented range, the warning "unknown bits" is
    emitted if and only if one of the bits 2 to 15 of the coord field is
    set (mask 0xFFFC); the low two bits are the U-tile and V-tile markers
    and do not count. *)
Theorem C8_unknown_bits_are_bits_2_to_15
        data index texID (coord name_size : N) (name : bytes) :
  unpack (E := event) [fI; fI] data = ret (coord, (name_size, tt)) ->
  unpack (E := event) [fS name_size] (drop 8 data) = ret (name, tt) ->
  16 <= texID < 24 ->
  forall c,
    In (Log WARNING (UnknownTextureBits c))
       (log_of (PteroMat.parseTexture data index texID))
    <-> c = coord /\ N.land coord 0xFFFC <> 0.
Proof.
  intros Hf Hn Hid c. unfold PteroMat.parseTexture, log_of.
  rewrite Hf, bind_ret_l, Hn, bind_ret_l.
  destruct (py_index_texs texID) as [tex ->];
    [unfold PteroMat.offset; change (len PteroMat.texs) with 8; lia|].
  unfold PteroMat.shl1.
  destruct (Z.ltb_spec (Z.of_N texID - Z.of_N PteroMat.offset) 0) as [Hneg|_];
    [unfold PteroMat.offset in Hneg; lia|].
  cbn [of_option]. rewrite !bind_ret_l.
  rewrite <- truthy_spec.
  destruct (truthy (N.land coord 0xFFFC));
    destruct (String.eqb tex "UNKNOWN");
    destruct (negb (N.shiftr coord PteroMat.offset =? _));
    destruct (@pchar_to_string event name) as [l [s|e|]] eqn:Hp;
    unfold pchar_to_string in Hp; destruct (ascii_decode name);
    try discriminate; inversion Hp; subst;
    unfold when, warning, error, emit, ret, bind; cbn [fst snd app In];
    split;
    try (intros [E|[E|[E|[]]]]; try discriminate; inversion E; auto);
    try (intros [E|[E|[]]]; try discriminate; inversion E; auto);
    try (intros [E|[]]; try discriminate; inversion E; auto);
    try (intros []; fail);
    try (intros [-> _]; tauto);
    try (intros [_ A]; discriminate).
Qed.

(** C8, amended, at a record whose coord field has bit 0x4 set. *)
Lemma C8_unknown_bits_are_bits_2_to_15_witness :
  In (Log WARNING (UnknownTextureBits 0x10004))
     (log_of (PteroMat.parseTexture (texture_record 0x10004) 0 16))
  <-> 0x10004 = 0x10004 /\ N.land 0x10004 0xFFFC <> 0.
Proof.
  apply (C8_unknown_bits_are_bits_2_to_15
           (texture_record 0x10004) 0 16 0x10004 2 [Byte.x41; Byte.x00]
           eq_refl eq_refl).
  split; [vm_compute; discriminate | reflexivity].
Defined.

(* ===================================================================== *)
(** ** C6: files shorter than the preview region *)

Lemma bytes_eqb_refl (a : bytes) : bytes_eqb a a = true.
Proof.
  induction a as [|x a IH]; [reflexivity|].
  simpl. rewrite (Byte.byte_dec_lb eq_refl). exact IH.
Qed.





(* ===================================================================== *)
(** ** C10: NUL bytes at both ends of a decoded string *)

Lemma lstrip_nuls k l : lstrip (nuls k ++ l) = lstrip l.
Proof. induction k as [|k IH]; [reflexivity | exact IH]. Qed.

Lemma lstrip_app l t : lstrip l <> [] -> lstrip (l ++ t) = lstrip l ++ t.
Proof.
  induction l as [|c l IH]; simpl; [congruence|].
  destruct (is_nul c); [exact IH | reflexivity].
Qed.

Lemma lstrip_app_nuls l m : lstrip l = [] -> lstrip (l ++ nuls m) = [].
Proof.
  induction l as [|c l IH]; simpl.
  - intros _. rewrite <- (app_nil_r (nuls m)). rewrite lstrip_nuls. reflexivity.
  - destruct (is_nul c); [exact IH | discriminate].
Qed.

Lemma rev_nuls m : rev (nuls m) = nuls m.
Proof. apply rev_repeat. Qed.

Lemma strip_nul_padding k m l :
  strip_nul (nuls k ++ l ++ nuls m) = strip_nul l.
Proof.
  unfold strip_nul. rewrite lstrip_nuls.
  destruct (lstrip l) as [|c t] eqn:E.
  - rewrite lstrip_app_nuls by exact E. reflexivity.
  - rewrite lstrip_app by (rewrite E; discriminate).
    rewrite E, rev_app_distr, rev_nuls, lstrip_nuls. reflexivity.
Qed.

Lemma strip_nul_id l :
  (forall c t, l = c :: t -> is_nul c = false) ->
  (forall c t, rev l = c :: t -> is_nul c = false) ->
  strip_nul l = l.
Proof.
  intros Hh Hl. unfold strip_nul.
  assert (E : lstrip l = l).
  { destruct l as [|c t]; [reflexivity|]. simpl.
    rewrite (Hh c t eq_refl). reflexivity. }
  rewrite E.
  assert (E' : lstrip (rev l) = rev l).
  { destruct (rev l) as [|c t] eqn:Er; [reflexivity|]. simpl.
    rewrite (Hl c t eq_refl). reflexivity. }
  rewrite E'. apply rev_involutive.
Qed.

Lemma ascii_decode_padding k m (s : bytes) :
  ascii_decode (zeros k ++ s ++ zeros m) =
    option_map (fun l => nuls k ++ l ++ nuls m) (ascii_decode s).
Proof.
  unfold ascii_decode. rewrite !forallb_app.
  assert (Hz : forall n, forallb (fun b => Byte.to_N b <? 128) (zeros n) = true).
  { induction n as [|n IH]; [reflexivity | exact IH]. }
  assert (Hm : forall n, map ascii_of_byte (zeros n) = nuls n).
  { induction n as [|n IH]; [reflexivity|].
    unfold zeros, nuls in *. simpl. rewrite IH. reflexivity. }
  rewrite !Hz, andb_true_r. cbn [andb].
  destruct (forallb _ s); [|reflexivity].
  cbn [option_map]. rewrite !map_app, !Hm. reflexivity.
Qed.

Lemma pchar_to_string_padding {E} k m (s : bytes) :
  @pchar_to_string E (zeros k ++ s ++ zeros m) = pchar_to_string s.
Proof.
  unfold pchar_to_string. rewrite ascii_decode_padding.
  destruct (ascii_decode s) as [l|]; [|reflexivity].
  cbn [option_map]. rewrite strip_nul_padding. reflexivity.
Qed.

Lemma bind_ret_tt {E} (m : M E unit) : (m ;; ret tt) = m.
Proof.
  destruct m as [l [[]|e|]]; unfold bind, ret; simpl;
    rewrite ?app_nil_r; reflexivity.
Qed.

Lemma parse_block_properties_exact (p : bytes) index :
  len p < 2 ^ 32 ->
  parse_block_properties (le32 (len p) ++ p) index =
    (text <- pchar_to_string p ;;
     verbose (PropertiesInfo index (4 + len p) text)).
Proof.
  intros H. unfold parse_block_properties.
  rewrite unpack_I_le32 by exact H. rewrite bind_ret_l.
  rewrite (drop_app_at (le32 (len p)) p) by reflexivity.
  rewrite unpack_bytes by lia. rewrite bind_ret_l.
  rewrite take_all by lia.
  apply bind_ext. intros text.
  rewrite len_app, len_le32.
  replace (len p + 4 =? 4 + len p) with true
    by (symmetry; apply N.eqb_eq; lia).
  cbn [negb when]. apply bind_ret_tt.
Qed.

(** C10: decoding strips NUL bytes at both ends.  Zero bytes before a
    byte string change the decoded text no more than zero bytes after it
    do; and a Properties block whose text field is an ASCII string with
    NUL padding on both sides reports exactly that string, a string that
    starts and ends with a non-NUL character. *)
Theorem C10_nul_stripped_at_both_ends :
  (forall k m (s : bytes),
      pchar_to_string (E := event) (zeros k ++ s ++ zeros m) = pchar_to_string s)
  /\
  (forall k m (s : bytes) (text : list ascii) index,
      ascii_decode s = Some text ->
      (forall c t, text = c :: t -> is_nul c = false) ->
      (forall c t, rev text = c :: t -> is_nul c = false) ->
      len (zeros k ++ s ++ zeros m) < 2 ^ 32 ->
      parse_block_properties
        (le32 (len (zeros k ++ s ++ zeros m)) ++ zeros k ++ s ++ zeros m) index =
        ([Log VERBOSE (PropertiesInfo index (4 + len (zeros k ++ s ++ zeros m))
                                      (string_of_list_ascii text))],
         Return tt)).
Proof.
  split.
  - intros k m s. apply pchar_to_string_padding.
  - intros k m s text index Hd Hh Hl Hlen.
    rewrite parse_block_properties_exact by exact Hlen.
    rewrite pchar_to_string_padding. unfold pchar_to_string.
    rewrite Hd, strip_nul_id by assumption.
    rewrite bind_ret_l. reflexivity.
Qed.

(** C10 at the text "AB" with two NUL bytes before it and three after. *)
Lemma C10_nul_stripped_at_both_ends_witness :
  parse_block_properties
    (le32 7 ++ zeros 2 ++ [Byte.x41; Byte.x42] ++ zeros 3) 0 =
    ([Log VERBOSE (PropertiesInfo 0 11 "AB")], Return tt).
Proof.
  apply (proj2 C10_nul_stripped_at_both_ends 2%nat 3%nat
               [Byte.x41; Byte.x42] ["A"%char; "B"%char] 0 eq_refl).
  - intros c t E. inversion E. reflexivity.
  - intros c t E. inversion E. reflexivity.
  - reflexivity.
Defined.

(* ===================================================================== *)
(** * Further properties of the script *)

(** ** [BES.unpack] *)

Lemma take_plus {A} (l : list A) : forall a b,
  take (a + b) l = take a l ++ take b (drop a l).
Proof.
  induction l as [|x t IH]; intros a b; [reflexivity|].
  destruct (N.eqb_spec a 0) as [->|Ha].
  - rewrite N.add_0_l. reflexivity.
  - rewrite take_cons, (take_cons a), drop_cons by lia.
    replace (N.pred (a + b)) with (N.pred a + b) by lia.
    rewrite IH. reflexivity.
Qed.

Lemma drop_drop {A} (l : list A) : forall a b,
  drop b (drop a l) = drop (a + b) l.
Proof.
  induction l as [|x t IH]; intros a b; [reflexivity|].
  destruct (N.eqb_spec a 0) as [->|Ha].
  - rewrite N.add_0_l. reflexivity.
  - rewrite drop_cons, (drop_cons (a + b)) by lia.
    replace (N.pred (a + b)) with (N.pred a + b) by lia.
    apply IH.
Qed.

Lemma drop_take {A} (l : list A) : forall a b,
  drop a (take b l) = take (b - a) (drop a l).
Proof.
  induction l as [|x t IH]; intros a b; [reflexivity|].
  destruct (N.eqb_spec b 0) as [->|Hb].
  - rewrite take_0. replace (0 - a) with 0 by lia. rewrite take_0.
    reflexivity.
  - rewrite take_cons by lia.
    destruct (N.eqb_spec a 0) as [->|Ha].
    + rewrite !drop_0, N.sub_0_r, take_cons by lia. reflexivity.
    + rewrite !drop_cons by lia. rewrite IH. f_equal. lia.
Qed.

Lemma le_value_bound (l : bytes) : len l <= 4 -> le_value l < 2 ^ 32.
Proof.
  change (2 ^ 32) with 4294967296.
  destruct l as [|a [|b [|c [|d [|e l]]]]]; simpl; intros H.
  - lia.
  - pose proof (Byte.to_N_bounded a). lia.
  - pose proof (Byte.to_N_bounded a). pose proof (Byte.to_N_bounded b). lia.
  - pose proof (Byte.to_N_bounded a). pose proof (Byte.to_N_bounded b).
    pose proof (Byte.to_N_bounded c). lia.
  - pose proof (Byte.to_N_bounded a). pose proof (Byte.to_N_bounded b).
    pose proof (Byte.to_N_bounded c). pose proof (Byte.to_N_bounded d). lia.
  - lia.
Qed.

Lemma byte_of_to_N b : byte_of (Byte.to_N b) = b.
Proof.
  unfold byte_of. pose proof (Byte.to_N_bounded b).
  rewrite N.mod_small by lia. rewrite Byte.of_to_N. reflexivity.
Qed.

Lemma le32_le_value (l : bytes) : len l = 4 -> le32 (le_value l) = l.
Proof.
  destruct l as [|a [|b [|c [|d [|e l]]]]]; simpl; intros H; try lia.
  pose proof (Byte.to_N_bounded a). pose proof (Byte.to_N_bounded b).
  pose proof (Byte.to_N_bounded c). pose proof (Byte.to_N_bounded d).
  unfold le32.
  replace 65536 with (256 * 256) by reflexivity.
  replace 16777216 with (256 * 256 * 256) by reflexivity.
  rewrite <- !N.Div0.div_div.
  set (va := Byte.to_N a) in *. set (vb := Byte.to_N b) in *.
  set (vc := Byte.to_N c) in *. set (vd := Byte.to_N d) in *.
  assert (E1 : (va + 256 * (vb + 256 * (vc + 256 * (vd + 256 * 0)))) / 256
               = vb + 256 * (vc + 256 * (vd + 256 * 0))).
  { rewrite N.mul_comm, N.div_add by lia. rewrite N.div_small by lia. lia. }
  assert (E2 : (vb + 256 * (vc + 256 * (vd + 256 * 0))) / 256
               = vc + 256 * (vd + 256 * 0)).
  { rewrite N.mul_comm, N.div_add by lia. rewrite N.div_small by lia. lia. }
  assert (E3 : (vc + 256 * (vd + 256 * 0)) / 256 = vd + 256 * 0).
  { rewrite N.mul_comm, N.div_add by lia. rewrite N.div_small by lia. lia. }
  rewrite E1, E2, E3.
  assert (Hb : forall v q, v < 256 -> byte_of (v + 256 * q) = byte_of v).
  { intros v q Hv. unfold byte_of.
    rewrite N.mul_comm, N.Div0.mod_add. reflexivity. }
  rewrite !Hb by lia.
  unfold va, vb, vc, vd. rewrite !byte_of_to_N. reflexivity.
Qed.

Lemma len_encode_fld f v : fits_fld f v -> len (encode_fld f v) = fld_size f.
Proof. destruct f; simpl; intros H; try reflexivity. exact H. Qed.

Lemma len_encode_fields fmt : forall t, fits fmt t -> len (encode_fields fmt t) = calcsize fmt.
Proof.
  induction fmt as [|f r IH]; intros t H; [reflexivity|].
  destruct H as [Hf Hr]. cbn [encode_fields calcsize].
  rewrite len_app, len_encode_fld, IH by assumption. reflexivity.
Qed.

Lemma decode_fits fmt : forall d : bytes,
  calcsize fmt <= len d -> fits fmt (decode fmt d).
Proof.
  induction fmt as [|f r IH]; intros d H; [exact I|].
  cbn [calcsize] in H. cbn [decode fits fst snd]. split.
  - destruct f; cbn [decode_fld fits_fld fld_size] in *.
    + apply le_value_bound. rewrite len_take. lia.
    + apply le_value_bound. rewrite len_take. lia.
    + rewrite len_take. lia.
  - apply IH. rewrite len_drop. lia.
Qed.

Lemma decode_encode_fields fmt : forall t (r : bytes),
  fits fmt t -> decode fmt (encode_fields fmt t ++ r) = t.
Proof.
  induction fmt as [|f fr IH]; intros t r H.
  - destruct t. reflexivity.
  - destruct t as [v t']. destruct H as [Hf Hr]. cbn [fst snd] in *.
    cbn [decode encode_fields]. rewrite <- app_assoc. f_equal.
    + destruct f; cbn [decode_fld encode_fld fits_fld fld_size] in *.
      * rewrite (take_app_at (le32 v)) by reflexivity.
        apply le_value_le32. exact Hf.
      * rewrite (take_app_at (le32 v)) by reflexivity.
        apply le_value_le32. exact Hf.
      * apply take_app_at. exact Hf.
    + rewrite drop_app_at by (apply len_encode_fld; exact Hf).
      apply IH. exact Hr.
Qed.

Lemma encode_fields_decode fmt : forall d : bytes,
  calcsize fmt <= len d -> encode_fields fmt (decode fmt d) = take (calcsize fmt) d.
Proof.
  induction fmt as [|f r IH]; intros d H.
  - cbn. rewrite take_0. reflexivity.
  - cbn [calcsize] in *. cbn [encode_fields decode fst snd].
    rewrite take_plus, IH by (rewrite len_drop; lia). f_equal.
    destruct f; cbn [decode_fld encode_fld fld_size] in *; try reflexivity;
      apply le32_le_value; rewrite len_take; lia.
Qed.

(** X1.  [BES.unpack] logs nothing and has two outcomes: it raises
    [struct.error] exactly when the data is shorter than the format, and
    otherwise returns fields in range, every integer below 2^32 and every
    byte string of exactly the length asked for, read from the first
    [calcsize fmt] bytes only. *)
Theorem X1_unpack_outcomes fmt (data : bytes) :
  (len data < calcsize fmt /\ unpack (E := event) fmt data = ([], Raise StructError))
  \/
  (calcsize fmt <= len data /\
   exists t, unpack (E := event) fmt data = ([], Return t) /\ fits fmt t /\
             forall rest,
               unpack (E := event) fmt (take (calcsize fmt) data ++ rest)
               = ([], Return t)).
Proof.
  destruct (@unpack_cases event fmt data) as [[H E]|[H E]].
  - left. split; assumption.
  - right. split; [exact H|].
    exists (decode fmt (take (calcsize fmt) data)). split; [exact E|].
    split.
    + apply decode_fits. rewrite len_take. lia.
    + intros rest.
      assert (Hl : len (take (calcsize fmt) data) = calcsize fmt)
        by (rewrite len_take; lia).
      rewrite unpack_ok by (rewrite len_app, Hl; lia).
      rewrite (take_app_at (take (calcsize fmt) data)) by exact Hl.
      reflexivity.
Qed.

(** X2.  For a format of integers and byte strings, unpacking is
    one-to-one on the bytes it reads and onto the values in range: two
    buffers that unpack to the same fields agree on their first
    [calcsize fmt] bytes, and every tuple of values in range is what some
    string of [calcsize fmt] bytes unpacks to, whatever follows it. *)
Theorem X2_unpack_is_one_to_one fmt :
  float_free fmt = true ->
  (forall (d1 d2 : bytes) t,
      unpack (E := event) fmt d1 = ret t ->
      unpack (E := event) fmt d2 = ret t ->
      take (calcsize fmt) d1 = take (calcsize fmt) d2)
  /\
  (forall t,
      fits fmt t ->
      exists data : bytes,
        len data = calcsize fmt /\
        forall rest, unpack (E := event) fmt (data ++ rest) = ret t).
Proof.
  intros _. split.
  - assert (Hb : forall (d : bytes) t,
               unpack (E := event) fmt d = ret t ->
               encode_fields fmt t = take (calcsize fmt) d).
    { intros d t H.
      pose proof (unpack_ret_inv _ _ _ H) as Hl.
      rewrite unpack_ok in H by exact Hl.
      assert (t = decode fmt (take (calcsize fmt) d))
        by (inversion H; reflexivity).
      subst t. rewrite encode_fields_decode by (rewrite len_take; lia).
      apply take_take. lia. }
    intros d1 d2 t H1 H2.
    rewrite <- (Hb d1 t H1), <- (Hb d2 t H2). reflexivity.
  - intros t H. exists (encode_fields fmt t).
    split; [apply len_encode_fields; exact H|].
    intros rest.
    rewrite unpack_ok by (rewrite len_app, len_encode_fields by exact H; lia).
    rewrite (take_app_at (encode_fields fmt t))
      by (apply len_encode_fields; exact H).
    rewrite <- (app_nil_r (encode_fields fmt t)), decode_encode_fields
      by exact H.
    reflexivity.
Qed.

(** X2 at the descriptor of an Object block of 24 bytes. *)
Lemma X2_unpack_is_one_to_one_witness :
  float_free [fI; fI] = true /\
  fits [fI; fI] (1, (24, tt)) /\
  take (calcsize [fI; fI]) (desc 1 24 ++ [Byte.x07])
    = take (calcsize [fI; fI]) (desc 1 24 ++ [Byte.x08; Byte.x09]) /\
  exists data : bytes,
    len data = calcsize [fI; fI] /\
    forall rest, unpack (E := event) [fI; fI] (data ++ rest) = ret (1, (24, tt)).
Proof.
  assert (Hf : fits [fI; fI] (1, (24, tt)))
    by (repeat split; reflexivity).
  split; [reflexivity|]. split; [exact Hf|]. split.
  - apply (proj1 (X2_unpack_is_one_to_one [fI; fI] eq_refl)
                 (desc 1 24 ++ [Byte.x07]) (desc 1 24 ++ [Byte.x08; Byte.x09])
                 (1, (24, tt)));
      reflexivity.
  - apply (proj2 (X2_unpack_is_one_to_one [fI; fI] eq_refl) _ Hf).
Defined.

(** ** [pchar_to_string] *)

Lemma lstrip_split l :
  exists a, l = nuls a ++ lstrip l /\
            (forall c t, lstrip l = c :: t -> is_nul c = false).
Proof.
  induction l as [|c l (a & E & H)]; simpl.
  - exists 0%nat. split; [reflexivity | discriminate].
  - destruct (is_nul c) eqn:Hc.
    + exists (S a). split; [|exact H].
      unfold is_nul in Hc. apply Ascii.eqb_eq in Hc. subst c.
      cbn [nuls repeat app]. f_equal. exact E.
    + exists 0%nat. split; [reflexivity|].
      intros c' t E'. inversion E'; subst. exact Hc.
Qed.

Lemma strip_nul_split l :
  exists a b, l = nuls a ++ strip_nul l ++ nuls b /\ trimmed (strip_nul l).
Proof.
  unfold strip_nul.
  destruct (lstrip_split l) as (a & Ea & Ha).
  destruct (lstrip_split (rev (lstrip l))) as (b & Eb & Hb).
  set (inner := lstrip (rev (lstrip l))) in *.
  assert (E1 : lstrip l = rev inner ++ nuls b).
  { rewrite <- (rev_involutive (lstrip l)), Eb, rev_app_distr, rev_nuls.
    reflexivity. }
  exists a, b. split; [rewrite <- E1; exact Ea|]. split.
  - intros c t E. apply (Ha c (t ++ nuls b)). rewrite E1, E. reflexivity.
  - intros c t E. rewrite rev_involutive in E. apply (Hb c t E).
Qed.

(** X3.  [pchar_to_string] raises [UnicodeDecodeError] exactly when some
    byte is above 0x7f; otherwise the text it returns is the decoded input
    without its leading and its trailing run of NUL characters: it has no
    NUL at either end, and NULs inside it are kept. *)
Theorem X3_pchar_to_string_outcomes (pchar : bytes) :
  (forallb (fun b => Byte.to_N b <? 128) pchar = false /\
   pchar_to_string (E := event) pchar = ([], Raise UnicodeDecodeError))
  \/
  (forallb (fun b => Byte.to_N b <? 128) pchar = true /\
   exists a b text,
     map ascii_of_byte pchar = nuls a ++ text ++ nuls b /\
     trimmed text /\
     pchar_to_string (E := event) pchar = ([], Return (string_of_list_ascii text))).
Proof.
  unfold pchar_to_string, ascii_decode.
  destruct (forallb _ pchar); [right | left; split; reflexivity].
  split; [reflexivity|].
  destruct (strip_nul_split (map ascii_of_byte pchar)) as (a & b & E & T).
  exists a, b, (strip_nul (map ascii_of_byte pchar)).
  split; [exact E|]. split; [exact T | reflexivity].
Qed.

(** ** [parse_header] and [processFile] *)

Lemma bytes_eqb_eq (a b : bytes) : bytes_eqb a b = true <-> a = b.
Proof.
  revert b. induction a as [|x a IH]; intros [|y b]; simpl;
    try (split; [discriminate | discriminate]); try tauto.
  rewrite andb_true_iff, IH. split.
  - intros [Hx ->]. apply Byte.byte_dec_bl in Hx. subst. reflexivity.
  - intros E. inversion E; subst. split; [apply Byte.byte_dec_lb|]; reflexivity.
Qed.

Lemma header_fields (data : bytes) :
  16 <= len data ->
  unpack (E := event) [fS 4; fS 5; fI; fS 3] data =
    ret (take 4 data,
         (slice 4 9 data, (le_value (slice 9 13 data), (slice 13 16 data, tt)))).
Proof.
  intros H. rewrite unpack_ok by (cbn [calcsize fld_size]; lia).
  cbn [decode decode_fld fld_size calcsize].
  unfold slice. rewrite !drop_drop, !drop_take, !take_take by lia.
  reflexivity.
Qed.

(** X4.  [parse_header] on a buffer shorter than 16 bytes raises
    [struct.error]; on a longer one whose first four bytes are not the
    magic it raises [RuntimeError] and logs nothing; otherwise it returns
    bytes 4 to 8 as the version, after one warning if they differ from
    "0100\0" and one warning if bytes 13 to 15 are not all zero.  The
    reserved field, bytes 9 to 12, is not looked at. *)
Theorem X4_parse_header_outcomes (data : bytes) :
  (len data < 16 -> parse_header data = ([], Raise StructError))
  /\
  (16 <= len data -> take 4 data <> Header.sig ->
   parse_header data = ([], Raise (RuntimeError "  Invalid header signature")))
  /\
  (16 <= len data -> take 4 data = Header.sig ->
   parse_header data =
     ((if bytes_eqb (slice 4 9 data) Header.ver then []
       else [Log WARNING (UnsupportedVersion (slice 4 9 data))])
      ++ (if bytes_eqb (slice 13 16 data) [Byte.x00; Byte.x00; Byte.x00] then []
          else [Log WARNING ExpectedTrailingZeros]),
      Return (slice 4 9 data))).
Proof.
  split; [|split].
  - intros H. unfold parse_header.
    rewrite unpack_short by (cbn [calcsize fld_size]; lia). reflexivity.
  - intros H Hs. unfold parse_header. rewrite header_fields by exact H.
    rewrite bind_ret_l.
    destruct (bytes_eqb (take 4 data) Header.sig) eqn:E;
      [apply bytes_eqb_eq in E; contradiction | reflexivity].
  - intros H Hs. unfold parse_header. rewrite header_fields by exact H.
    rewrite bind_ret_l, Hs, bytes_eqb_refl. cbn [negb]. rewrite bind_ret_l.
    unfold when, warning, emit.
    destruct (bytes_eqb (slice 4 9 data) Header.ver),
             (bytes_eqb (slice 13 16 data) [Byte.x00; Byte.x00; Byte.x00]);
      reflexivity.
Qed.

(** X4 at a 3-byte buffer, at a buffer of sixteen "x00" bytes and at the
    header-only file. *)
Lemma X4_parse_header_outcomes_witness :
  parse_header (zeros 3) = ([], Raise StructError) /\
  parse_header (zeros 16) =
    ([], Raise (RuntimeError "  Invalid header signature")) /\
  parse_header header_only_file = ([], Return Header.ver).
Proof.
  split; [|split].
  - apply (proj1 (X4_parse_header_outcomes (zeros 3))). reflexivity.
  - apply (proj1 (proj2 (X4_parse_header_outcomes (zeros 16)))).
    + vm_compute. discriminate.
    + discriminate.
  - apply (proj2 (proj2 (X4_parse_header_outcomes header_only_file))).
    + vm_compute. discriminate.
    + reflexivity.
Defined.

Lemma parse_header_good (data : bytes) :
  16 <= len data -> take 4 data = Header.sig ->
  parse_header data = (header_warnings data, Return (slice 4 9 data)).
Proof.
  intros H Hs. unfold parse_header, header_warnings.
  rewrite header_fields by exact H.
  rewrite bind_ret_l, Hs, bytes_eqb_refl. cbn [negb]. rewrite bind_ret_l.
  unfold when, warning, emit.
  destruct (bytes_eqb (slice 4 9 data) Header.ver),
           (bytes_eqb (slice 13 16 data) [Byte.x00; Byte.x00; Byte.x00]);
    reflexivity.
Qed.

Lemma parse_header_bad (data : bytes) :
  16 <= len data -> take 4 data <> Header.sig ->
  parse_header data = ([], Raise bad_signature).
Proof.
  intros H Hs. unfold parse_header. rewrite header_fields by exact H.
  rewrite bind_ret_l.
  destruct (bytes_eqb (take 4 data) Header.sig) eqn:E;
    [apply bytes_eqb_eq in E; contradiction | reflexivity].
Qed.

Lemma parse_data_out fuel data e :
  out_of (parse_data fuel data) = Raise e -> decode_exn e.
Proof.
  unfold parse_data, out_of. intros H.
  destruct (parse_blocks_spec fuel
              [(BlockID.Object, ReqSingle); (BlockID.UserInfo, ReqSingle)]
              (drop 0x3010 data) 0) as [_ Ho].
  rewrite H in Ho. exact Ho.
Qed.

(** The outcomes of [processFile], case by case. *)
Lemma processFile_missing fs fuel fileName extract :
  fs fileName = None ->
  processFile fs fuel fileName extract =
    ([Log INFO (ModelName fileName); Log ERROR (ExceptionText FileNotFoundError)],
     Return tt).
Proof. intros H. unfold processFile. rewrite H. reflexivity. Qed.

Lemma processFile_truncated fs fuel fileName extract data :
  fs fileName = Some data -> len data < 16 ->
  processFile fs fuel fileName extract =
    ([Log INFO (ModelName fileName)], Raise StructError).
Proof.
  intros H Hl. unfold processFile. rewrite H. cbn [of_option].
  rewrite bind_ret_l. unfold parse_header.
  rewrite unpack_short by (cbn [calcsize fld_size]; lia). reflexivity.
Qed.

Lemma processFile_bad_signature fs fuel fileName extract data :
  fs fileName = Some data -> 16 <= len data -> take 4 data <> Header.sig ->
  processFile fs fuel fileName extract =
    ([Log INFO (ModelName fileName); Log ERROR (ExceptionText bad_signature)],
     Return tt).
Proof.
  intros H Hl Hs. unfold processFile. rewrite H. cbn [of_option].
  rewrite bind_ret_l, parse_header_bad by assumption. reflexivity.
Qed.

Lemma processFile_no_preview fs fuel fileName extract data :
  fs fileName = Some data -> 16 <= len data -> take 4 data = Header.sig ->
  len data < 0x3010 ->
  processFile fs fuel fileName extract =
    (Log INFO (ModelName fileName) :: header_warnings data
       ++ [Log ERROR (ExceptionText missing_preview)],
     Return tt).
Proof.
  intros H Hl Hs Hp. unfold processFile. rewrite H. cbn [of_option].
  rewrite bind_ret_l, parse_header_good by assumption.
  unfold parse_preview.
  destruct (N.ltb_spec (len data) 0x3010); [|lia].
  rewrite bind_log, bind_raise. cbn [fst snd raise].
  unfold try_except, info, error, emit, bind. cbn [app].
  rewrite app_nil_r. reflexivity.
Qed.

Lemma processFile_extract fs fuel fileName data :
  fs fileName = Some data -> take 4 data = Header.sig ->
  0x3010 <= len data ->
  processFile fs fuel fileName true =
    (Log INFO (ModelName fileName) :: header_warnings data
       ++ [SavePreview (slice 0x10 0x3010 data) fileName],
     Return tt).
Proof.
  intros H Hs Hp. unfold processFile. rewrite H. cbn [of_option].
  rewrite bind_ret_l, parse_header_good by (assumption || lia).
  unfold parse_preview.
  destruct (N.ltb_spec (len data) 0x3010); [lia|].
  rewrite bind_log, bind_ret_l. reflexivity.
Qed.

Lemma processFile_check fs fuel fileName data :
  fs fileName = Some data -> take 4 data = Header.sig ->
  0x3010 <= len data ->
  processFile fs fuel fileName false =
    (Log INFO (ModelName fileName) :: header_warnings data
       ++ log_of (parse_data fuel data),
     out_of (parse_data fuel data)).
Proof.
  intros H Hs Hp. unfold processFile. rewrite H. cbn [of_option].
  rewrite bind_ret_l, parse_header_good by (assumption || lia).
  unfold parse_preview.
  destruct (N.ltb_spec (len data) 0x3010); [lia|].
  rewrite bind_log. cbn [fst snd]. rewrite bind_ret_l.
  pose proof (parse_data_out fuel data) as Ho.
  unfold log_of, out_of in *.
  destruct (parse_data fuel data) as [l o]. cbn [fst snd] in *.
  destruct o as [[]|e|]; try reflexivity.
  destruct (Ho e eq_refl) as [-> | ->]; reflexivity.
Qed.

Lemma processFile_raises fs fuel fileName extract e :
  out_of (processFile fs fuel fileName extract) = Raise e -> decode_exn e.
Proof.
  destruct (fs fileName) as [data|] eqn:Hfs.
  2:{ rewrite processFile_missing by exact Hfs. discriminate. }
  destruct (N.lt_ge_cases (len data) 16) as [Hs|Hl].
  { rewrite (processFile_truncated _ _ _ _ data) by assumption.
    intros H. inversion H. left. reflexivity. }
  destruct (bytes_eqb (take 4 data) Header.sig) eqn:Hsig.
  2:{ rewrite (processFile_bad_signature _ _ _ _ data); try assumption.
      - discriminate.
      - intros E. apply bytes_eqb_eq in E. congruence. }
  apply bytes_eqb_eq in Hsig.
  destruct (N.lt_ge_cases (len data) 0x3010) as [Hp|Hp].
  { rewrite (processFile_no_preview _ _ _ _ data) by assumption. discriminate. }
  destruct extract.
  - rewrite (processFile_extract _ _ _ data) by assumption. discriminate.
  - rewrite (processFile_check _ _ _ data) by assumption.
    apply parse_data_out.
Qed.

(** X5.  [processFile] catches what the script treats as fatal for one
    file: a missing file and a bad signature each end in one logged error
    and a normal return, with nothing else done for the file, and no
    [FileNotFoundError] or [RuntimeError] ever leaves it.  The exception
    of a decoder is not caught: a file shorter than the 16-byte header
    makes it raise [struct.error] after the "Model:" line. *)
Theorem X5_processFile_fatal_conditions fs fuel fileName extract :
  (forall e,
      out_of (processFile fs fuel fileName extract) = Raise e ->
      e <> FileNotFoundError /\ forall text, e <> RuntimeError text)
  /\
  (fs fileName = None ->
   processFile fs fuel fileName extract =
     ([Log INFO (ModelName fileName);
       Log ERROR (ExceptionText FileNotFoundError)], Return tt))
  /\
  (forall data,
      fs fileName = Some data -> 16 <= len data -> take 4 data <> Header.sig ->
      processFile fs fuel fileName extract =
        ([Log INFO (ModelName fileName);
          Log ERROR (ExceptionText bad_signature)], Return tt))
  /\
  (forall data,
      fs fileName = Some data -> len data < 16 ->
      processFile fs fuel fileName extract =
        ([Log INFO (ModelName fileName)], Raise StructError)).
Proof.
  split; [|split; [|split]].
  - intros e H. apply processFile_raises in H.
    destruct H as [-> | ->]; split; try intros text; discriminate.
  - apply processFile_missing.
  - intros data. apply processFile_bad_signature.
  - intros data. apply processFile_truncated.
Qed.

(** X5 at a missing file, a file of sixteen zero bytes and a file of three
    bytes. *)
Lemma X5_processFile_fatal_conditions_witness :
  processFile (fun _ => None) 5 "a.bes" false =
    ([Log INFO (ModelName "a.bes");
      Log ERROR (ExceptionText FileNotFoundError)], Return tt)
  /\
  processFile (fun _ => Some (zeros 16)) 5 "a.bes" false =
    ([Log INFO (ModelName "a.bes");
      Log ERROR (ExceptionText bad_signature)], Return tt)
  /\
  processFile (fun _ => Some (zeros 3)) 5 "a.bes" false =
    ([Log INFO (ModelName "a.bes")], Raise StructError)
  /\
  (StructError <> FileNotFoundError /\
   forall text, StructError <> RuntimeError text).
Proof.
  split; [|split; [|split]].
  - apply (proj1 (proj2 (X5_processFile_fatal_conditions
                           (fun _ => None) 5 "a.bes"%string false))).
    reflexivity.
  - apply (proj1 (proj2 (proj2 (X5_processFile_fatal_conditions
                                  (fun _ => Some (zeros 16)) 5 "a.bes"%string false)))
                 (zeros 16) eq_refl).
    + vm_compute. discriminate.
    + discriminate.
  - apply (proj2 (proj2 (proj2 (X5_processFile_fatal_conditions
                                  (fun _ => Some (zeros 3)) 5 "a.bes"%string false)))
                 (zeros 3) eq_refl).
    reflexivity.
  - apply (proj1 (X5_processFile_fatal_conditions
                    (fun _ => Some (zeros 3)) 5 "a.bes"%string false)).
    reflexivity.
Defined.

(** X6.  With extraction requested, a file with a good signature and at
    least 0x3010 bytes has its preview saved and nothing else done: after
    the header's warnings, [savePreview] gets the 12288 bytes from offset
    0x10 on, and the blocks behind them are never scanned, so whatever
    follows the preview cannot make the extraction fail. *)
Theorem X6_extraction_saves_the_preview fs fuel fileName data :
  fs fileName = Some data ->
  take 4 data = Header.sig ->
  0x3010 <= len data ->
  processFile fs fuel fileName true =
    (Log INFO (ModelName fileName) :: header_warnings data
       ++ [SavePreview (slice 0x10 0x3010 data) fileName],
     Return tt)
  /\ len (slice 0x10 0x3010 data) = 12288
  /\ (forall tail, slice 0x10 0x3010 (take 0x3010 data ++ tail)
                   = slice 0x10 0x3010 data).
Proof.
  intros H Hs Hp. split; [apply processFile_extract; assumption|].
  split.
  - unfold slice. rewrite len_take, len_drop. lia.
  - intros tail. unfold slice.
    assert (Hl : len (take 0x3010 data) = 0x3010) by (rewrite len_take; lia).
    rewrite <- (drop_take data), <- (drop_take (take 0x3010 data ++ tail)).
    rewrite (take_app_at (take 0x3010 data)) by exact Hl.
    reflexivity.
Qed.

(** X6 at the file with 66 nested Objects. *)
Lemma X6_extraction_saves_the_preview_witness :
  processFile (fun _ => Some deep_file) 0 "deep.bes" true =
    (Log INFO (ModelName "deep.bes") :: header_warnings deep_file
       ++ [SavePreview (slice 0x10 0x3010 deep_file) "deep.bes"],
     Return tt)
  /\ len (slice 0x10 0x3010 deep_file) = 12288
  /\ (forall tail, slice 0x10 0x3010 (take 0x3010 deep_file ++ tail)
                   = slice 0x10 0x3010 deep_file).
Proof.
  apply (X6_extraction_saves_the_preview
           (fun _ => Some deep_file) 0 "deep.bes"%string deep_file eq_refl eq_refl).
  vm_compute. discriminate.
Defined.

(** ** [savePreview] *)

Lemma in_range n x : In x (range n) <-> x < N.of_nat n.
Proof.
  unfold range. rewrite in_map_iff. split.
  - intros (k & <- & Hk). apply in_seq in Hk. lia.
  - intros H. exists (N.to_nat x). split; [lia|]. apply in_seq. lia.
Qed.

Lemma for_each_append {X Y} (l : list X) (k : X -> list Y)
      (body : X -> list Y -> M event (list Y)) :
  (forall x a, In x l -> body x a = ret (a ++ k x)) ->
  forall a, for_each l a body = ret (a ++ flat_map k l).
Proof.
  induction l as [|x r IH]; intros Hb a; simpl.
  - rewrite app_nil_r. reflexivity.
  - rewrite Hb by (left; reflexivity). rewrite bind_ret_l.
    rewrite IH by (intros; apply Hb; right; assumption).
    rewrite app_assoc. reflexivity.
Qed.

Lemma get_byte_ok (imageData : bytes) i :
  i < len imageData -> get_byte imageData i = ret (byte_at imageData i).
Proof.
  intros H. unfold get_byte, byte_at.
  destruct (nth_error_lt imageData i H) as [b E]. rewrite E.
  apply nth_error_nth with (d := Byte.x00) in E. rewrite E. reflexivity.
Qed.

Lemma get_byte_out (imageData : bytes) i :
  len imageData <= i -> get_byte imageData i = raise IndexError.
Proof.
  intros H. unfold get_byte.
  replace (nth_error imageData (N.to_nat i)) with (@None Byte.byte);
    [reflexivity|].
  symmetry. apply nth_error_None. rewrite len_length in H. lia.
Qed.

Lemma savePreview_pixels_ok (imageData : bytes) :
  12288 <= len imageData ->
  savePreview_pixels imageData = ret (bgr_pixels imageData).
Proof.
  intros H. unfold savePreview_pixels, bgr_pixels.
  rewrite (for_each_append (range 64)
             (fun row => flat_map (fun col =>
                [((col, row),
                  (byte_at imageData (row * 192 + col * 3 + 2),
                   byte_at imageData (row * 192 + col * 3 + 1),
                   byte_at imageData (row * 192 + col * 3 + 0)))]) (range 64))).
  - reflexivity.
  - intros row a Hrow. apply in_range in Hrow.
    apply for_each_append. intros col a' Hcol. apply in_range in Hcol.
    rewrite !get_byte_ok by lia. rewrite !bind_ret_l. reflexivity.
Qed.

Lemma index_only_bind {A B} (R : A -> Prop) (R' : B -> Prop) m
      (f : A -> M event B) :
  index_only R m -> (forall a, R a -> index_only R' (f a)) ->
  index_only R' (bind m f).
Proof.
  intros [Hs Hn] Hf. split.
  - eapply spec_bind; [exact Hs | intros a Ha; apply Hf; exact Ha].
  - destruct m as [l [a|e|]]; cbn [snd] in *; try congruence.
    + destruct Hs as [_ Ha]. cbn [snd] in Ha.
      destruct (Hf a Ha) as [_ Hn']. unfold bind.
      destruct (f a) as [l' o']. exact Hn'.
    + unfold bind. discriminate.
Qed.

Lemma index_only_for_each {X S} (Inv : S -> Prop) (l : list X) body :
  (forall x s, In x l -> Inv s -> index_only Inv (body x s)) ->
  forall s, Inv s -> index_only Inv (for_each l s body).
Proof.
  induction l as [|x r IH]; intros Hb s Hs; simpl.
  - split; [apply spec_ret; exact Hs | discriminate].
  - eapply index_only_bind.
    + apply Hb; [left; reflexivity | exact Hs].
    + intros s' Hs'. apply IH; [|exact Hs'].
      intros y t Hy. apply Hb. right. exact Hy.
Qed.

Lemma index_only_get_byte (imageData : bytes) i :
  index_only (fun _ => i < len imageData) (get_byte imageData i).
Proof.
  destruct (N.lt_ge_cases i (len imageData)) as [H|H].
  - rewrite get_byte_ok by exact H.
    split; [apply spec_ret; exact H | discriminate].
  - rewrite get_byte_out by exact H.
    split; [apply spec_raise; reflexivity | discriminate].
Qed.

Lemma for_each_app {X S} (l1 l2 : list X) (s : S) body :
  for_each (l1 ++ l2) s body =
    (s' <- for_each l1 s body ;; for_each l2 s' body).
Proof.
  revert s. induction l1 as [|x r IH]; intros s; cbn [app for_each].
  - rewrite bind_ret_l. reflexivity.
  - rewrite bind_assoc. apply bind_ext. intros s'. apply IH.
Qed.

Lemma index_only_post {A} (R R' : A -> Prop) (m : M event A) :
  (forall a, R a -> R' a) -> index_only R m -> index_only R' m.
Proof.
  intros H [Hs Hn]. split; [eapply spec_post; eassumption | exact Hn].
Qed.

Lemma index_only_ret {A} (R : A -> Prop) a : R a -> index_only R (ret a).
Proof. intros H. split; [apply spec_ret; exact H | discriminate]. Qed.

(** One pixel: if it is set, its red byte, the last of its three, was
    there to read. *)
Lemma pixel_step (imageData : bytes) row col (img : list pixel) :
  index_only (fun _ => row * 192 + col * 3 + 2 < len imageData)
    (b <- get_byte imageData (row * 192 + col * 3 + 0) ;;
     g <- get_byte imageData (row * 192 + col * 3 + 1) ;;
     r <- get_byte imageData (row * 192 + col * 3 + 2) ;;
     ret (img ++ [((col, row), (r, g, b))])).
Proof.
  eapply index_only_bind; [apply index_only_get_byte | intros b _].
  eapply index_only_bind; [apply index_only_get_byte | intros g _].
  eapply index_only_bind; [apply index_only_get_byte | intros r Hr].
  apply index_only_ret. exact Hr.
Qed.

Lemma savePreview_pixels_needs (imageData : bytes) :
  index_only (fun _ => 12288 <= len imageData) (savePreview_pixels imageData).
Proof.
  unfold savePreview_pixels.
  change (range 64) with (range 63 ++ [63]).
  rewrite for_each_app.
  eapply index_only_bind with (R := fun _ => True).
  - apply index_only_for_each; [|exact I]. intros row img _ _.
    apply index_only_for_each; [|exact I]. intros col img' _ _.
    eapply index_only_post; [|apply pixel_step]. intros; exact I.
  - intros img _. cbn [for_each]. rewrite for_each_app.
    eapply index_only_bind with (R := fun _ => 12288 <= len imageData);
      [|intros; apply index_only_ret; assumption].
    eapply index_only_bind with (R := fun _ => True).
    + apply index_only_for_each; [|exact I]. intros col img' _ _.
      eapply index_only_post; [|apply pixel_step]. intros; exact I.
    + intros img' _. cbn [for_each].
      eapply index_only_bind; [apply pixel_step | intros img'' H].
      apply index_only_ret. cbv beta in H. lia.
Qed.

(** X7.  The pixel loops of [savePreview] read the image as 64 rows of
    64 pixels of three bytes in blue-green-red order and set each pixel
    once, as (red, green, blue), row by row.  They succeed on any buffer
    of at least 12288 bytes, so always on what [parse_preview] returns,
    and raise [IndexError], having logged nothing, on any shorter one. *)
Theorem X7_savePreview_pixels (imageData : bytes) :
  (12288 <= len imageData ->
   savePreview_pixels imageData = ([], Return (bgr_pixels imageData)))
  /\
  (len imageData < 12288 ->
   savePreview_pixels imageData = ([], Raise IndexError))
  /\
  (forall data preview,
      parse_preview data = ret preview ->
      savePreview_pixels preview = ([], Return (bgr_pixels preview)))
  /\
  List.length (bgr_pixels imageData) = 4096%nat.
Proof.
  split; [|split; [|split]].
  - apply savePreview_pixels_ok.
  - intros H. destruct (savePreview_pixels_needs imageData) as [[Hl Ho] Hn].
    destruct (savePreview_pixels imageData) as [l o]. cbn [fst snd] in *.
    assert (l = []) by (destruct l as [|e l]; [reflexivity | inversion Hl; contradiction]).
    subst l. destruct o as [a|e|]; [lia | subst; reflexivity | congruence].
  - intros data preview H. unfold parse_preview in H.
    destruct (len data <? 0x3010) eqn:E; [discriminate|].
    apply N.ltb_ge in E. inversion H; subst.
    apply savePreview_pixels_ok.
    unfold slice. rewrite len_take, len_drop. lia.
  - unfold bgr_pixels. rewrite flat_map_concat_map, length_concat.
    rewrite map_map.
    erewrite map_ext.
    2:{ intros row. rewrite flat_map_concat_map, length_concat, map_map.
        cbn [List.length]. reflexivity. }
    vm_compute. reflexivity.
Qed.

(** X7 at a blank image of 12288 bytes and at an image of 12287 bytes. *)
Lemma X7_savePreview_pixels_witness :
  savePreview_pixels (zeros (N.to_nat 12288)) =
    ([], Return (bgr_pixels (zeros (N.to_nat 12288))))
  /\ savePreview_pixels (zeros (N.to_nat 12287)) = ([], Raise IndexError).
Proof.
  split.
  - apply (proj1 (X7_savePreview_pixels (zeros (N.to_nat 12288)))).
    unfold zeros. rewrite len_repeat. lia.
  - apply (proj1 (proj2 (X7_savePreview_pixels (zeros (N.to_nat 12287))))).
    unfold zeros. rewrite len_repeat. lia.
Defined.

(** ** The main program *)

Lemma for_each_unit_returns {X} (l : list X) (body : X -> unit -> M event unit) :
  (forall x, In x l -> snd (body x tt) = Return tt) ->
  for_each l tt body = (flat_map (fun x => fst (body x tt)) l, Return tt).
Proof.
  induction l as [|x r IH]; intros H; [reflexivity|].
  cbn [for_each flat_map].
  pose proof (H x (or_introl eq_refl)) as Hx.
  destruct (body x tt) as [lx ox]. cbn [fst snd] in *. subst ox.
  rewrite bind_log, IH by (intros; apply H; right; assumption).
  reflexivity.
Qed.

Lemma for_each_unit_raises {X} (pre post : list X) x e
      (body : X -> unit -> M event unit) :
  (forall y, In y pre -> snd (body y tt) = Return tt) ->
  snd (body x tt) = Raise e ->
  for_each (pre ++ x :: post) tt body =
    (flat_map (fun y => fst (body y tt)) pre ++ fst (body x tt), Raise e).
Proof.
  intros Hpre Hx. rewrite for_each_app, for_each_unit_returns by exact Hpre.
  rewrite bind_log. cbn [for_each].
  destruct (body x tt) as [lx ox]. cbn [fst snd] in *. subst ox.
  reflexivity.
Qed.

Lemma fatal_for_returns fs fuel fileName extract :
  fatal_for fs fileName ->
  out_of (processFile fs fuel fileName extract) = Return tt.
Proof.
  intros [H | (data & H & Hl & Hc)].
  - rewrite processFile_missing by exact H. reflexivity.
  - destruct (bytes_eqb (take 4 data) Header.sig) eqn:E.
    + apply bytes_eqb_eq in E. destruct Hc as [Hc|Hc]; [contradiction|].
      rewrite (processFile_no_preview _ _ _ _ data) by assumption. reflexivity.
    + rewrite (processFile_bad_signature _ _ _ _ data); try assumption.
      * reflexivity.
      * intros E'. apply bytes_eqb_eq in E'. congruence.
Qed.

(** X8.  In the main program a file that is missing, has a bad
    signature or has no room for the preview does not stop the batch: a
    batch made of such files runs to its end.  But a file shorter than
    the 16-byte header stops it: [struct.error] leaves the loop after
    that file's "Model:" line, the files after it are not processed and
    no preview is extracted. *)
Theorem X8_batch_and_fatal_files fs fuel :
  (forall names,
      Forall (fatal_for fs) names ->
      main_process fs fuel (Some names) None =
        (flat_map (fun n => log_of (processFile fs fuel n false)) names,
         Return tt))
  /\
  (forall pre fileName post extract_preview data,
      (forall n, In n pre -> out_of (processFile fs fuel n false) = Return tt) ->
      fs fileName = Some data -> len data < 16 ->
      main_process fs fuel (Some (pre ++ fileName :: post)) extract_preview =
        (flat_map (fun n => log_of (processFile fs fuel n false)) pre
           ++ [Log INFO (ModelName fileName)],
         Raise StructError)).
Proof.
  split.
  - intros names Hf. unfold main_process.
    destruct names as [|f r]; [reflexivity|].
    rewrite for_each_unit_returns.
    + rewrite bind_log. cbn [fst snd]. rewrite app_nil_r. reflexivity.
    + intros x Hx. rewrite Forall_forall in Hf.
      apply (fatal_for_returns fs fuel x false (Hf x Hx)).
  - intros pre fileName post extract data Hpre Hfs Hl. unfold main_process.
    assert (E : for_each (pre ++ fileName :: post) tt
                  (fun n _ => processFile fs fuel n false) =
                (flat_map (fun n => log_of (processFile fs fuel n false)) pre
                   ++ [Log INFO (ModelName fileName)], Raise StructError)).
    { rewrite (for_each_unit_raises pre post fileName StructError).
      - rewrite (processFile_truncated fs fuel fileName false data) by assumption.
        reflexivity.
      - exact Hpre.
      - rewrite (processFile_truncated fs fuel fileName false data) by assumption.
        reflexivity. }
    destruct (pre ++ fileName :: post) as [|f r] eqn:El.
    + destruct pre; discriminate.
    + rewrite E. reflexivity.
Qed.

(** X8 at a batch of a missing file, a 3-byte file and a missing file. *)
Lemma X8_batch_and_fatal_files_witness :
  let fs := fun n => if String.eqb n "short.bes" then Some (zeros 3) else None in
  main_process fs 5 (Some ["a.bes"; "b.bes"]%string) None =
    ([Log INFO (ModelName "a.bes"); Log ERROR (ExceptionText FileNotFoundError);
      Log INFO (ModelName "b.bes"); Log ERROR (ExceptionText FileNotFoundError)],
     Return tt)
  /\
  main_process fs 5 (Some (["a.bes"%string] ++ "short.bes"%string :: ["b.bes"%string]))
               (Some "c.bes"%string) =
    ([Log INFO (ModelName "a.bes"); Log ERROR (ExceptionText FileNotFoundError);
      Log INFO (ModelName "short.bes")],
     Raise StructError).
Proof.
  intros fs. split.
  - apply (proj1 (X8_batch_and_fatal_files fs 5) ["a.bes"; "b.bes"]%string).
    repeat constructor.
  - apply (proj2 (X8_batch_and_fatal_files fs 5)
                 ["a.bes"%string] "short.bes"%string ["b.bes"%string]
                 (Some "c.bes"%string) (zeros 3)).
    + intros n [<-|[]]. reflexivity.
    + reflexivity.
    + reflexivity.
Defined.

(** ** The scanner, from any cursor *)

Lemma while_shift rec blocks data index fuel : forall c bp s label,
  parse_blocks_while rec fuel blocks data index (bp, c + s, label) =
    (st <- parse_blocks_while rec fuel blocks (drop c data) index (bp, s, label) ;;
     ret (shift_state c st)).
Proof.
  induction fuel as [|fuel IH]; intros c bp s label; [reflexivity|].
  cbn [parse_blocks_while]. rewrite drop_drop.
  destruct (0 <? len (drop (c + s) data)); [|rewrite bind_ret_l; reflexivity].
  rewrite !bind_assoc. apply bind_ext. intros [lab size].
  rewrite !bind_assoc. apply bind_ext. intros bp'.
  replace (slice (s + 8) (s + size) (drop c data))
    with (slice (c + s + 8) (c + s + size) data).
  2:{ unfold slice. rewrite drop_drop. f_equal; [lia | f_equal; lia]. }
  rewrite !bind_assoc. apply bind_ext. intros _.
  rewrite <- N.add_assoc. apply IH.
Qed.

Lemma finish_shift blocks (data : bytes) index c st :
  c <= len data ->
  parse_blocks_finish blocks data index (shift_state c st) =
    parse_blocks_finish blocks (drop c data) index st.
Proof.
  intros H. destruct st as [[bp s] label].
  unfold shift_state, parse_blocks_finish. rewrite len_drop.
  replace (c + s =? len data) with (s =? len data - c); [reflexivity|].
  destruct (N.eqb_spec s (len data - c)), (N.eqb_spec (c + s) (len data));
    try reflexivity; lia.
Qed.

(** X9.  The scanner never looks back: the loop started at a cursor does
    what the loop started at 0 on the bytes from the cursor on does, with
    the final cursor moved by as much; and the rest of a scan, final
    checks included, is the scan of the rest of the span. *)
Theorem X9_scan_depends_on_rest_only rec fuel blocks (data : bytes) index
        blocks_parsed start label :
  parse_blocks_while rec fuel blocks data index (blocks_parsed, start, label) =
    (st <- parse_blocks_while rec fuel blocks (drop start data) index
                              (blocks_parsed, 0, label) ;;
     ret (shift_state start st))
  /\
  (start <= len data ->
   (st <- parse_blocks_while rec fuel blocks data index
                             (blocks_parsed, start, label) ;;
    parse_blocks_finish blocks data index st) =
   (st <- parse_blocks_while rec fuel blocks (drop start data) index
                             (blocks_parsed, 0, label) ;;
    parse_blocks_finish blocks (drop start data) index st)).
Proof.
  assert (E : parse_blocks_while rec fuel blocks data index
                (blocks_parsed, start, label) =
              (st <- parse_blocks_while rec fuel blocks (drop start data) index
                                        (blocks_parsed, 0, label) ;;
               ret (shift_state start st))).
  { rewrite <- (N.add_0_r start) at 1. apply while_shift. }
  split; [exact E|].
  intros H. rewrite E, bind_assoc. apply bind_ext. intros st.
  rewrite bind_ret_l. apply finish_shift. exact H.
Qed.

(** X9 at the second of two Unk38 blocks. *)
Lemma X9_scan_depends_on_rest_only_witness :
  let data := block BlockID.Unk38 [] ++ block BlockID.Unk38 [Byte.x01] in
  8 <= len data /\
  (st <- parse_blocks_while (parse_blocks 0) 3 unk36_schema data 0
                            ([], 8, None) ;;
   parse_blocks_finish unk36_schema data 0 st) =
  (st <- parse_blocks_while (parse_blocks 0) 3 unk36_schema (drop 8 data) 0
                            ([], 0, None) ;;
   parse_blocks_finish unk36_schema (drop 8 data) 0 st).
Proof.
  intros data.
  assert (H : 8 <= len data) by (vm_compute; discriminate).
  split; [exact H|].
  apply (proj2 (X9_scan_depends_on_rest_only (parse_blocks 0) 3 unk36_schema
                  data 0 [] 8 None) H).
Defined.

(** ** The scanner on a sequence of well-formed blocks *)

Lemma bind_emit {B} (e : event) (f : unit -> M event B) :
  bind (emit e) f = (e :: fst (f tt), snd (f tt)).
Proof. unfold emit. rewrite bind_log. reflexivity. Qed.

Lemma existsb_snoc k prev l :
  existsb (N.eqb k) (prev ++ [l]) = existsb (N.eqb k) prev || (k =? l).
Proof. rewrite existsb_app. simpl. rewrite orb_false_r. reflexivity. Qed.

Lemma seen_ok_init blocks : seen_ok blocks (fst (fst (scan_init blocks))) [].
Proof. intros k Hk. apply scan_init_get. exact Hk. Qed.

Lemma note_label_seq blocks bp prev label index :
  seen_ok blocks bp prev ->
  exists bp',
    note_label blocks bp label index =
      (note_events blocks index prev label, Return bp') /\
    seen_ok blocks bp' (prev ++ [label]).
Proof.
  intros Hs. unfold note_label, note_events.
  destruct (mem blocks label) eqn:Hm; unfold mem in Hm.
  - destruct (get blocks label) as [rule|] eqn:Hg; [|discriminate].
    assert (Hm' : mem blocks label = true) by (unfold mem; rewrite Hg; reflexivity).
    pose proof (Hs label Hm') as Hl.
    exists (set bp label true). split.
    + cbn [negb of_option]. rewrite bind_ret_l.
      destruct (single rule); cbn [andb].
      * rewrite Hl. cbn [of_option]. rewrite bind_ret_l.
        destruct (existsb (N.eqb label) prev); reflexivity.
      * reflexivity.
    + intros k Hk. rewrite get_set, existsb_snoc, (Hs k Hk).
      rewrite (N.eqb_sym k label).
      destruct (label =? k); [rewrite orb_true_r | rewrite orb_false_r];
        reflexivity.
  - destruct (get blocks label) eqn:Hg; [discriminate|].
    exists bp. split; [reflexivity|].
    intros k Hk. rewrite existsb_snoc, (Hs k Hk).
    destruct (N.eqb_spec k label) as [->|_]; [|rewrite orb_false_r; reflexivity].
    unfold mem in Hk. rewrite Hg in Hk. discriminate.
Qed.

Lemma finish_missing blocks (data : bytes) index bp prev label :
  seen_ok blocks bp prev ->
  parse_blocks_finish blocks data index (bp, len data, label) =
    emit_all (missing_warnings blocks prev).
Proof.
  intros Hs. unfold parse_blocks_finish, missing_warnings.
  rewrite N.eqb_refl. cbn [negb]. rewrite bind_ret_l.
  assert (Hk : forall k, In k (keys blocks) -> mem blocks k = true)
    by (intros k; apply mem_keys).
  induction (keys blocks) as [|k ks IH]; [reflexivity|].
  cbn [for_each flat_map].
  pose proof (Hk k (or_introl eq_refl)) as Hmk.
  rewrite (Hs k Hmk). unfold mem in Hmk.
  destruct (get blocks k) as [rule|]; [|discriminate].
  cbn [of_option]. rewrite bind_ret_l.
  specialize (IH (fun k' H' => Hk k' (or_intror H'))).
  destruct (required rule); cbn [andb of_option].
  - rewrite bind_ret_l.
    destruct (existsb (N.eqb k) prev); cbn [negb when].
    + rewrite bind_ret_l, IH. reflexivity.
    + unfold warning at 1. rewrite bind_emit, IH. reflexivity.
  - rewrite bind_ret_l, IH. reflexivity.
Qed.

Lemma while_seq rec blocks index bs : forall fuel (pre : bytes) bp prev label0,
  Forall encodable bs ->
  seen_ok blocks bp prev ->
  (List.length bs < fuel)%nat ->
  (st <- parse_blocks_while rec fuel blocks (pre ++ encode_blocks bs) index
                            (bp, len pre, label0) ;;
   parse_blocks_finish blocks (pre ++ encode_blocks bs) index st) =
  (scan_seq rec blocks index prev bs ;;
   emit_all (missing_warnings blocks (prev ++ map fst bs))).
Proof.
  induction bs as [|[l p] r IH]; intros fuel pre bp prev label0 Hw Hs Hf.
  - destruct fuel as [|fuel]; [inversion Hf|].
    cbn [encode_blocks flat_map map scan_seq]. rewrite !app_nil_r.
    rewrite while_exit by (cbn [fst snd]; lia).
    rewrite !bind_ret_l. apply finish_missing. exact Hs.
  - destruct fuel as [|fuel]; [inversion Hf|].
    inversion Hw as [|b r' [Hl Hp] Hr]; subst. cbn [fst snd] in *.
    change (encode_blocks ((l, p) :: r)) with (block l p ++ encode_blocks r).
    rewrite (while_step rec blocks _ index fuel bp (len pre) label0 l (8 + len p)).
    2:{ rewrite drop_app_exact. unfold block. rewrite <- app_assoc.
        apply parse_block_desc_block; assumption. }
    destruct (note_label_seq blocks bp prev l index Hs) as (bp' & En & Hs').
    rewrite En. cbn [scan_seq fst snd]. unfold emit_all at 1.
    rewrite !bind_assoc, !bind_log. cbn [fst snd].
    match goal with
    | |- (_ ++ fst ?X, snd ?X) = (_ ++ fst ?Y, snd ?Y) =>
        assert (EXY : X = Y); [|rewrite EXY; reflexivity]
    end.
    replace (slice (len pre + 8) (len pre + (8 + len p))
                   (pre ++ block l p ++ encode_blocks r)) with p.
    2:{ unfold block. rewrite <- !app_assoc.
        rewrite (app_assoc pre).
        replace (len pre + 8) with (len (pre ++ desc l (8 + len p)))
          by (rewrite len_app, len_desc; reflexivity).
        replace (len pre + (8 + len p))
          with (len (pre ++ desc l (8 + len p)) + len p)
          by (rewrite len_app, len_desc; lia).
        rewrite slice_middle. reflexivity. }
    rewrite !bind_assoc.
    assert (E : forall u : unit,
      (st <- parse_blocks_while rec fuel blocks
               (pre ++ block l p ++ encode_blocks r) index
               (bp', len pre + (8 + len p), Some l) ;;
       parse_blocks_finish blocks (pre ++ block l p ++ encode_blocks r) index st) =
      (scan_seq rec blocks index (prev ++ [l]) r ;;
       emit_all (missing_warnings blocks (prev ++ map fst ((l, p) :: r))))).
    { intros _. rewrite (app_assoc pre).
      replace (len pre + (8 + len p)) with (len (pre ++ block l p))
        by (unfold block; rewrite !len_app, len_desc; lia).
      rewrite (IH fuel (pre ++ block l p) bp' (prev ++ [l]) (Some l) Hr Hs')
        by (simpl in Hf; lia).
      cbn [map fst]. rewrite <- app_assoc. reflexivity. }
    destruct (process_block_by_label rec l p index) as [lg [[]|e|]];
      unfold bind at 1; unfold bind at 2; cbn [fst snd];
      [rewrite (E tt) | reflexivity | reflexivity].
    destruct (scan_seq rec blocks index (prev ++ [l]) r ;; _); reflexivity.
Qed.

Lemma existsb_eqb_In k l : existsb (N.eqb k) l = true <-> In k l.
Proof.
  rewrite existsb_exists. split.
  - intros (x & Hx & E). apply N.eqb_eq in E. subst. exact Hx.
  - intros H. exists k. split; [exact H | apply N.eqb_refl].
Qed.

Lemma note_events_spec blocks index prev label e :
  In e (note_events blocks index prev label) <->
  (e = Log WARNING (UnexpectedBlock index label) /\ mem blocks label = false)
  \/
  (e = Log WARNING (InvalidOccurrencesMax index label) /\
   exists rule, get blocks label = Some rule /\ single rule = true /\
                In label prev).
Proof.
  unfold note_events, mem. destruct (get blocks label) as [rule|].
  - destruct (single rule) eqn:Hs; cbn [andb].
    + destruct (existsb (N.eqb label) prev) eqn:He.
      * apply existsb_eqb_In in He. simpl. split.
        -- intros [<-|[]]. right. split; [reflexivity|]. eauto.
        -- intros [[_ H]|[-> _]]; [discriminate | left; reflexivity].
      * simpl. split; [tauto|].
        intros [[_ H]|[_ (r & Hr & _ & Hin)]]; [discriminate|].
        apply existsb_eqb_In in Hin. congruence.
    + simpl. split; [tauto|].
      intros [[_ H]|[_ (r & Hr & Hs' & _)]]; [discriminate|].
      inversion Hr; subst. congruence.
  - simpl. split.
    + intros [<-|[]]. left. split; reflexivity.
    + intros [[-> _]|[_ (r & Hr & _)]]; [left; reflexivity | discriminate].
Qed.

Lemma missing_warnings_spec blocks seen k :
  In (Log WARNING (InvalidOccurrencesMin k)) (missing_warnings blocks seen) <->
  exists rule, get blocks k = Some rule /\ required rule = true /\ ~ In k seen.
Proof.
  unfold missing_warnings. rewrite in_flat_map. split.
  - intros (k' & Hk' & Hin).
    destruct (get blocks k') as [rule|] eqn:Hg; [|contradiction].
    destruct (required rule) eqn:Hr; cbn [andb] in Hin; [|contradiction].
    destruct (existsb (N.eqb k') seen) eqn:He; cbn [negb] in Hin;
      [contradiction|].
    destruct Hin as [E|[]]. inversion E; subst.
    exists rule. repeat split; try assumption.
    intros Hs. apply existsb_eqb_In in Hs. congruence.
  - intros (rule & Hg & Hr & Hs). exists k. split.
    + apply mem_keys. unfold mem. rewrite Hg. reflexivity.
    + rewrite Hg, Hr. cbn [andb].
      destruct (existsb (N.eqb k) seen) eqn:He.
      * apply existsb_eqb_In in He. contradiction.
      * left. reflexivity.
Qed.

(** X10.  On a span that is a sequence of well-formed blocks the scanner
    visits the blocks from left to right and hands each handler exactly
    the payload of its block; before each dispatch it reports an
    unexpected block when the label is not in the schema, and a "max 1"
    violation when the label has a single-kind rule and has been met
    before in this span; no "more data" error is reported.  After the
    last block it warns "min 1" for each label of the schema whose rule
    demands a block and that no block of the span carries, in the order
    of the schema.  (Each step is reached when the dispatch before it has
    returned.) *)
Theorem X10_scan_of_block_sequence fuel blocks index (bs : list (N * bytes)) :
  Forall encodable bs ->
  (List.length bs < fuel)%nat ->
  parse_blocks (S fuel) blocks (encode_blocks bs) index =
    (scan_seq (parse_blocks fuel) blocks index [] bs ;;
     emit_all (missing_warnings blocks (map fst bs)))
  /\
  (forall prev label e,
      In e (note_events blocks index prev label) <->
      (e = Log WARNING (UnexpectedBlock index label) /\ mem blocks label = false)
      \/
      (e = Log WARNING (InvalidOccurrencesMax index label) /\
       exists rule, get blocks label = Some rule /\ single rule = true /\
                    In label prev))
  /\
  (forall seen k,
      In (Log WARNING (InvalidOccurrencesMin k)) (missing_warnings blocks seen) <->
      exists rule, get blocks k = Some rule /\ required rule = true /\
                   ~ In k seen).
Proof.
  intros Hw Hf. split; [|split].
  - rewrite parse_blocks_S. unfold parse_blocks_body.
    change (scan_init blocks)
      with (fst (fst (scan_init blocks)), len (@nil Byte.byte),
            snd (scan_init blocks)).
    change (encode_blocks bs) with ([] ++ encode_blocks bs).
    apply (while_seq (parse_blocks fuel) blocks index bs fuel []
             (fst (fst (scan_init blocks))) [] _ Hw (seen_ok_init blocks) Hf).
  - intros prev label e. apply note_events_spec.
  - intros seen k. apply missing_warnings_spec.
Qed.

(** X10 at the schema {Unk36: required-single, Unk38: optional-multiple}
    and a span of three Unk38 blocks. *)
Lemma X10_scan_of_block_sequence_witness :
  let blocks := [(BlockID.Unk36, ReqSingle); (BlockID.Unk38, OptMultiple)] in
  let bs := [(BlockID.Unk38, []); (BlockID.Unk38, [Byte.x01]);
             (BlockID.Unk38, [])] in
  parse_blocks 5 blocks (encode_blocks bs) 2 =
    ([Log VERBOSE (Unk38Info 2 0); Log VERBOSE (Unk38Info 2 1);
      Log VERBOSE (Unk38Info 2 0);
      Log WARNING (InvalidOccurrencesMin BlockID.Unk36)], Return tt).
Proof.
  intros blocks bs.
  assert (Hw : Forall encodable bs) by (repeat constructor).
  assert (Hf : (List.length bs < 4)%nat) by (vm_compute; lia).
  rewrite (proj1 (X10_scan_of_block_sequence 4 blocks 2 bs Hw Hf)).
  vm_compute. reflexivity.
Defined.

(** ** Termination of the scan *)

Lemma take_drop_id {A} (l : list A) : forall n, take n l ++ drop n l = l.
Proof.
  induction l as [|x t IH]; intros n; simpl; [reflexivity|].
  destruct (n =? 0); [reflexivity|]. simpl. rewrite IH. reflexivity.
Qed.

Lemma parse_block_desc_out (d : bytes) label size :
  out_of (parse_block_desc d) = Return (label, size) ->
  parse_block_desc d = ret (label, size).
Proof.
  unfold parse_block_desc, out_of.
  destruct (@unpack_cases event [fI; fI] d) as [[_ E]|[_ E]]; rewrite E.
  - discriminate.
  - rewrite bind_ret_l. cbn [snd ret]. intros H. inversion H. reflexivity.
Qed.

Lemma nested_span_len label (payload sub : bytes) :
  nested_span label payload = Some sub -> len sub <= len payload.
Proof.
  unfold nested_span.
  repeat match goal with
         | |- context [if ?c then _ else _] => destruct c
         end;
    try discriminate;
    try (intros H; inversion H; rewrite len_drop; lia).
  destruct (out_of (unpack [fI; fI] payload)) as [[c [n []]]| |];
    try discriminate.
  intros H. inversion H. rewrite len_drop. lia.
Qed.

Lemma len_slice_le {A} (a b : N) (l : list A) : len (slice a b l) <= len l - a.
Proof. unfold slice. rewrite len_take, len_drop. lia. Qed.

(** The answer of [zero_size_at] does not depend on the fuel, once it
    exceeds the length of the span. *)
Lemma zero_size_at_fuel : forall f1 f2 (d : bytes),
  (N.to_nat (len d) < f1)%nat -> (N.to_nat (len d) < f2)%nat ->
  zero_size_at f1 d = zero_size_at f2 d.
Proof.
  induction f1 as [|f1 IH]; intros f2 d H1 H2; [lia|].
  destruct f2 as [|f2]; [lia|]. cbn [zero_size_at].
  destruct (out_of (parse_block_desc d)) as [[label size]| |] eqn:E;
    try reflexivity.
  apply parse_block_desc_out in E.
  pose proof (parse_block_desc_inv _ _ _ E) as H8.
  destruct (N.eqb_spec size 0) as [|Hs]; [reflexivity|].
  f_equal.
  - destruct (nested_span label (slice 8 size d)) as [sub|] eqn:En;
      [|reflexivity].
    apply nested_span_len in En.
    pose proof (len_slice_le 8 size d).
    apply IH; lia.
  - apply IH; rewrite len_drop; lia.
Qed.

(** A span without a zero size on the way of its scan: the size at the
    cursor is not 0, and neither the span nested in the block at the
    cursor nor the span behind that block has one. *)
Lemma has_zero_size_step (d : bytes) label size :
  parse_block_desc d = ret (label, size) ->
  has_zero_size d = false ->
  size <> 0 /\
  (forall sub, nested_span label (slice 8 size d) = Some sub ->
               has_zero_size sub = false) /\
  has_zero_size (drop size d) = false.
Proof.
  intros E. pose proof (parse_block_desc_inv _ _ _ E) as H8.
  unfold has_zero_size at 1. cbn [zero_size_at].
  unfold out_of. rewrite E. cbn [snd ret].
  destruct (N.eqb_spec size 0) as [|Hs]; [discriminate|].
  intros H. apply orb_false_iff in H. destruct H as [Ha Hb].
  split; [exact Hs|]. split.
  - intros sub En. rewrite En in Ha.
    apply nested_span_len in En.
    pose proof (len_slice_le 8 size d).
    unfold has_zero_size.
    rewrite (zero_size_at_fuel _ (N.to_nat (len d)) sub); [exact Ha | lia..].
  - unfold has_zero_size.
    rewrite (zero_size_at_fuel _ (N.to_nat (len d)) (drop size d));
      [exact Hb | rewrite ?len_drop; lia..].
Qed.

Section Finishes.
Context {A B : Type}.

Lemma finishes_bind (m : M event A) (f : A -> M event B) :
  finishes m -> (forall a, finishes (f a)) -> finishes (bind m f).
Proof.
  unfold finishes. destruct m as [l [a|e|]]; cbn [snd]; intros Hm Hf.
  - unfold bind. specialize (Hf a). destruct (f a) as [l' o']. exact Hf.
  - unfold bind. discriminate.
  - congruence.
Qed.

Lemma finishes_ret (a : A) : finishes (ret (E := event) a).
Proof. discriminate. Qed.

Lemma finishes_raise e : finishes (raise (E := event) (A := A) e).
Proof. discriminate. Qed.

Lemma finishes_of_option (o : option A) e : finishes (of_option o e).
Proof. destruct o; discriminate. Qed.

End Finishes.

Lemma finishes_emit e : finishes (emit e).
Proof. discriminate. Qed.

Lemma finishes_when c m : finishes m -> finishes (when c m).
Proof. destruct c; [auto | discriminate]. Qed.

Lemma finishes_unpack fmt (d : bytes) : finishes (unpack (E := event) fmt d).
Proof. unfold unpack. destruct (_ <? _); discriminate. Qed.

Lemma finishes_pchar_to_string (p : bytes) :
  finishes (pchar_to_string (E := event) p).
Proof. unfold pchar_to_string. destruct (ascii_decode p); discriminate. Qed.

Lemma finishes_for_each {X S} (l : list X) body :
  (forall x (s : S), finishes (body x s)) ->
  forall s, finishes (for_each l s body).
Proof.
  intros Hb. induction l as [|x r IH]; intros s; simpl.
  - discriminate.
  - apply finishes_bind; [apply Hb | exact IH].
Qed.

(** Runs through a computation that has no call of the scanner in it. *)
Ltac fin :=
  repeat first
    [ apply finishes_ret | apply finishes_raise | apply finishes_emit
    | apply finishes_unpack | apply finishes_pchar_to_string
    | apply finishes_of_option
    | apply finishes_when
    | apply finishes_for_each; intros
    | apply finishes_bind; [|intros]
    | match goal with
      | |- finishes (let '(_, _) := ?x in _) => destruct x
      | |- finishes (if ?c then _ else _) => destruct c
      | |- finishes (match ?x with _ => _ end) => destruct x
      end ].

Lemma leaf_handlers_finish (data : bytes) index :
  finishes (parse_block_vertices data index) /\
  finishes (parse_block_faces data index) /\
  finishes (parse_block_properties data index) /\
  finishes (parse_block_unk35 data index) /\
  finishes (parse_block_unk36 data index) /\
  finishes (parse_block_unk38 data index) /\
  finishes (parse_block_user_info data index) /\
  finishes (parse_block_bitmap data index) /\
  finishes (parse_block_ptero_mat data index).
Proof.
  repeat split;
    unfold parse_block_vertices, parse_block_faces, parse_block_properties,
      parse_block_unk35, parse_block_unk36, parse_block_unk38,
      parse_block_user_info, parse_block_bitmap, parse_block_ptero_mat,
      bitmap_map, ptero_tex, coord_flags, PteroMat.parseTexture,
      PteroMat.shl1, verbose, warning, error;
    fin.
Qed.

Lemma finishes_bind_unpack {B} fmt (d : bytes) (f : tuple fmt -> M event B) :
  (calcsize fmt <= len d -> finishes (f (decode fmt (take (calcsize fmt) d)))) ->
  finishes (bind (unpack fmt d) f).
Proof.
  intros H. destruct (@unpack_cases event fmt d) as [[_ ->]|[Hl ->]].
  - discriminate.
  - rewrite bind_ret_l. apply H. exact Hl.
Qed.

Section FinishesScan.
Variable rec : dict BlockPresence -> bytes -> N -> M event unit.
Variable L : N.
Hypothesis rec_finishes : forall blocks (d : bytes) i,
  has_zero_size d = false -> len d + 12 <= L -> finishes (rec blocks d i).

Lemma dispatch_finishes label (sub : bytes) index :
  (forall s, nested_span label sub = Some s -> has_zero_size s = false) ->
  len sub + 8 <= L ->
  finishes (process_block_by_label rec label sub index).
Proof.
  intros Hn Hl. revert Hn.
  destruct (leaf_handlers_finish sub index)
    as (Hv & Hf & Hp & H35 & H36 & H38 & Hu & Hb & Hpm).
  unfold process_block_by_label, nested_span.
  repeat match goal with
         | |- _ -> finishes (if ?c then _ else _) => destruct c
         end; intros Hn; try assumption.
  - unfold parse_block_object.
    apply finishes_bind_unpack. intros H8.
    rewrite unpack_ok in Hn by exact H8.
    cbn [calcsize fld_size] in H8.
    unfold out_of, ret in Hn. cbn [snd] in Hn.
    cbn [decode decode_fld fld_size] in *.
    apply finishes_bind_unpack. intros Hs. cbn [calcsize fld_size] in Hs.
    rewrite len_drop in Hs. cbn [decode decode_fld fld_size].
    apply finishes_bind; [apply finishes_pchar_to_string | intros s].
    apply finishes_bind; [apply finishes_emit | intros _].
    apply rec_finishes; [apply Hn; reflexivity|].
    rewrite len_drop. lia.
  - unfold parse_block_unk30.
    apply finishes_bind_unpack. intros H4. cbn [calcsize fld_size] in H4.
    cbn [decode decode_fld fld_size].
    apply finishes_bind; [apply finishes_emit | intros _].
    apply rec_finishes; [apply Hn; reflexivity|].
    rewrite len_drop. lia.
  - unfold parse_block_mesh.
    apply finishes_bind_unpack. intros H4. cbn [calcsize fld_size] in H4.
    cbn [decode decode_fld fld_size].
    apply finishes_bind; [apply finishes_emit | intros _].
    apply rec_finishes; [apply Hn; reflexivity|].
    rewrite len_drop. lia.
  - unfold parse_block_material.
    apply finishes_bind_unpack. intros H4. cbn [calcsize fld_size] in H4.
    cbn [decode decode_fld fld_size].
    apply finishes_bind; [apply finishes_emit | intros _].
    apply rec_finishes; [apply Hn; reflexivity|].
    rewrite len_drop. lia.
Qed.

Lemma note_label_finishes blocks bp label index :
  finishes (note_label blocks bp label index).
Proof. unfold note_label, warning. fin. Qed.

Lemma finish_finishes blocks (data : bytes) index st :
  finishes (parse_blocks_finish blocks data index st).
Proof.
  destruct st as [[bp start] label].
  unfold parse_blocks_finish, warning, error. fin.
Qed.

Lemma while_finishes blocks (data : bytes) index :
  len data <= L ->
  forall fuel bp start label,
    has_zero_size (drop start data) = false ->
    (N.to_nat (len data - start) + 1 <= fuel)%nat ->
    finishes (parse_blocks_while rec fuel blocks data index (bp, start, label)).
Proof.
  intros HL. induction fuel as [|fuel IH]; intros bp start label Hz Hf; [lia|].
  cbn [parse_blocks_while].
  destruct (N.ltb_spec 0 (len (drop start data))) as [Hpos|_];
    [|apply finishes_ret].
  rewrite len_drop in Hpos.
  destruct (parse_block_desc (drop start data)) as [lg [[lab size]|e|]] eqn:Ed.
  - assert (Hlg : lg = []).
    { unfold parse_block_desc in Ed.
      destruct (@unpack_cases event [fI; fI] (drop start data)) as [[_ E]|[_ E]];
        rewrite E in Ed; [discriminate|].
      rewrite bind_ret_l in Ed. inversion Ed. reflexivity. }
    subst lg. change ([], Return (lab, size)) with (@ret event _ (lab, size)) in *.
    rewrite bind_ret_l.
    pose proof (parse_block_desc_inv _ _ _ Ed) as H8. rewrite len_drop in H8.
    destruct (has_zero_size_step _ _ _ Ed Hz) as (Hsz & Hsub & Hnext).
    apply finishes_bind; [apply note_label_finishes | intros bp'].
    apply finishes_bind.
    + apply dispatch_finishes.
      * replace (slice (start + 8) (start + size) data)
          with (slice 8 size (drop start data)); [exact Hsub|].
        unfold slice. rewrite drop_drop. f_equal. lia.
      * unfold slice. rewrite len_take, len_drop. lia.
    + intros _. apply IH; [|lia].
      rewrite drop_drop in Hnext. exact Hnext.
  - unfold bind. discriminate.
  - exfalso. unfold parse_block_desc in Ed.
    destruct (@unpack_cases event [fI; fI] (drop start data)) as [[_ E]|[_ E]];
      rewrite E in Ed; [discriminate|].
    rewrite bind_ret_l in Ed. discriminate.
Qed.

End FinishesScan.

Lemma parse_blocks_finishes fuel : forall blocks (data : bytes) index,
  has_zero_size data = false ->
  (N.to_nat (len data) + 2 <= fuel)%nat ->
  finishes (parse_blocks fuel blocks data index).
Proof.
  induction fuel as [|fuel IH]; intros blocks data index Hz Hf; [lia|].
  rewrite parse_blocks_S. unfold parse_blocks_body.
  apply finishes_bind.
  - apply (while_finishes (parse_blocks fuel) (len data)).
    + intros b d i Hd Hl. apply IH; [exact Hd | lia].
    + lia.
    + rewrite drop_0. exact Hz.
    + rewrite N.sub_0_r. lia.
  - intros st. apply finish_finishes.
Qed.

(** X11.  A scan can fail to terminate only on a size field of 0.  For
    every schema and depth: when no block descriptor on the way of the
    scan of a span (at the top level, or in the spans that the Object,
    Unk30, Mesh and Material handlers hand to nested scans) has a size of
    0, a fuel of [len data + 2] is enough for the scan to return or
    raise, scans nested in it included.  Zero bytes anywhere else, in
    counts, names or payloads, do no harm. *)
Theorem X11_scan_terminates_without_zero_sizes fuel blocks (data : bytes) index :
  has_zero_size data = false ->
  (N.to_nat (len data) + 2 <= fuel)%nat ->
  out_of (parse_blocks fuel blocks data index) <> OutOfFuel.
Proof.
  intros Hz Hf. apply parse_blocks_finishes; assumption.
Qed.

(** X11 at three nested Objects with empty names, a span of 48 bytes of
    which 24 are zero. *)
Lemma X11_scan_terminates_without_zero_sizes_witness :
  has_zero_size (nested_objects 3) = false /\
  out_of (parse_blocks 50 object_schema (nested_objects 3) 0) <> OutOfFuel.
Proof.
  split; [vm_compute; reflexivity|].
  apply (X11_scan_terminates_without_zero_sizes 50 object_schema
           (nested_objects 3) 0).
  - vm_compute. reflexivity.
  - vm_compute. lia.
Defined.

(** ** Leaf handlers: what is raised and what is reported *)

Lemma unpack_I (d : bytes) :
  4 <= len d -> unpack (E := event) [fI] d = ret (le_value (take 4 d), tt).
Proof.
  intros H. rewrite unpack_ok by (cbn [calcsize fld_size]; lia).
  cbn [decode decode_fld calcsize fld_size]. rewrite take_take by lia.
  reflexivity.
Qed.

Lemma unpack_III (d : bytes) :
  12 <= len d ->
  unpack (E := event) [fI; fI; fI] d =
    ret (le_value (slice 0 4 d), (le_value (slice 4 8 d),
         (le_value (slice 8 12 d), tt))).
Proof.
  intros H. rewrite unpack_ok by (cbn [calcsize fld_size]; lia).
  cbn [decode decode_fld calcsize fld_size]. unfold slice.
  rewrite !drop_drop, !drop_take, !take_take, drop_0 by lia. reflexivity.
Qed.

(** X12.  The Properties handler raises [struct.error] when the payload
    is shorter than its length field announces (or too short to hold the
    field); the "block size" error is therefore only ever reported for a
    payload that is longer than announced.  Only the announced bytes are
    decoded into the text. *)
Theorem X12_properties_short_raises_long_reports (data : bytes) index :
  let count := le_value (take 4 data) in
  (len data < 4 \/ len data < count + 4 ->
   parse_block_properties data index = ([], Raise StructError))
  /\
  (count + 4 <= len data ->
   parse_block_properties data index =
     (text <- pchar_to_string (slice 4 (4 + count) data) ;;
      verbose (PropertiesInfo index (len data) text) ;;
      if count + 4 <? len data
      then error (BlockSizeMismatchVs index (len data) (count + 4))
      else ret tt)).
Proof.
  intros count. split.
  - intros H. unfold parse_block_properties.
    destruct (N.lt_ge_cases (len data) 4) as [H4|H4].
    + rewrite unpack_short by (cbn [calcsize fld_size]; lia). reflexivity.
    + rewrite unpack_I by exact H4. rewrite bind_ret_l. fold count.
      rewrite unpack_short
        by (cbn [calcsize fld_size]; rewrite len_drop; lia).
      reflexivity.
  - intros H. unfold parse_block_properties.
    rewrite unpack_I by lia. rewrite bind_ret_l. fold count.
    rewrite unpack_bytes by (rewrite len_drop; lia). rewrite bind_ret_l.
    replace (take count (drop 4 data)) with (slice 4 (4 + count) data)
      by (unfold slice; f_equal; lia).
    apply bind_ext. intros text. apply bind_ext. intros _.
    destruct (N.eqb_spec (count + 4) (len data)), (N.ltb_spec (count + 4) (len data));
      try reflexivity; lia.
Qed.

(** X12 at a payload that announces 5 bytes of text and holds 2, and at
    one that announces 1 and holds 2. *)
Lemma X12_properties_short_raises_long_reports_witness :
  parse_block_properties (le32 5 ++ [Byte.x41; Byte.x42]) 0 =
    ([], Raise StructError)
  /\
  parse_block_properties (le32 1 ++ [Byte.x41; Byte.x42]) 0 =
    ([Log VERBOSE (PropertiesInfo 0 6 "A");
      Log ERROR (BlockSizeMismatchVs 0 6 5)], Return tt).
Proof.
  split.
  - apply (proj1 (X12_properties_short_raises_long_reports
                    (le32 5 ++ [Byte.x41; Byte.x42]) 0)).
    right. reflexivity.
  - rewrite (proj2 (X12_properties_short_raises_long_reports
                      (le32 1 ++ [Byte.x41; Byte.x42]) 0)).
    + reflexivity.
    + vm_compute. discriminate.
Defined.

(** X13.  The UserInfo handler reads the name at offset 12 and the
    comment at the fixed offset 76.  It raises [struct.error] when the
    payload has fewer than 12 bytes, fewer than [name_size] bytes from
    offset 12 on or fewer than [comment_size] bytes from offset 76 on.
    Otherwise, once both texts decode, it reports a name length above 64
    and a payload length other than 76 + [comment_size] independently of
    each other: both errors can be reported for one block. *)
Theorem X13_user_info_outcomes (data : bytes) index :
  let name_size := le_value (slice 0 4 data) in
  let comment_size := le_value (slice 4 8 data) in
  let unknown := le_value (slice 8 12 data) in
  (len data < 12 \/ len data - 12 < name_size \/ len data - 76 < comment_size ->
   parse_block_user_info data index = ([], Raise StructError))
  /\
  (12 <= len data -> name_size <= len data - 12 ->
   comment_size <= len data - 76 ->
   parse_block_user_info data index =
     (name <- pchar_to_string (take name_size (drop 12 data)) ;;
      comment <- pchar_to_string (take comment_size (drop 76 data)) ;;
      emit_all
        (Log VERBOSE (UserInfoInfo index (len data) name_size name
                                   comment_size comment unknown)
         :: (if 64 <? name_size
             then [Log ERROR (InvalidNameLength index name_size)] else [])
         ++ (if len data =? 76 + comment_size then []
             else [Log ERROR (BlockSizeMismatchVs index (len data)
                                                  (76 + comment_size))])))).
Proof.
  intros name_size comment_size unknown. split.
  - intros H. unfold parse_block_user_info.
    destruct (N.lt_ge_cases (len data) 12) as [H12|H12].
    { rewrite unpack_short by (cbn [calcsize fld_size]; lia). reflexivity. }
    rewrite unpack_III by exact H12. rewrite bind_ret_l.
    fold name_size comment_size unknown.
    destruct (N.lt_ge_cases (len data - 12) name_size) as [Hn|Hn].
    { rewrite unpack_short
        by (cbn [calcsize fld_size]; rewrite len_drop; lia).
      reflexivity. }
    rewrite unpack_bytes by (rewrite len_drop; lia). rewrite bind_ret_l.
    rewrite unpack_short
      by (cbn [calcsize fld_size]; rewrite len_drop; lia).
    reflexivity.
  - intros H12 Hn Hc. unfold parse_block_user_info.
    rewrite unpack_III by exact H12. rewrite bind_ret_l.
    fold name_size comment_size unknown.
    rewrite unpack_bytes by (rewrite len_drop; lia). rewrite bind_ret_l.
    rewrite unpack_bytes by (rewrite len_drop; lia). rewrite bind_ret_l.
    apply bind_ext. intros name. apply bind_ext. intros comment.
    unfold verbose, error, emit_all. rewrite bind_emit.
    destruct (64 <? name_size), (len data =? 76 + comment_size); reflexivity.
Qed.

(** X13 at a payload of 5 bytes, at a well-formed one (name "A", comment
    "BC") and at one of 80 bytes with a name length of 65. *)
Lemma X13_user_info_outcomes_witness :
  parse_block_user_info (zeros 5) 0 = ([], Raise StructError)
  /\
  parse_block_user_info
    (le32 1 ++ le32 2 ++ le32 0 ++ [Byte.x41] ++ zeros 63 ++ [Byte.x42; Byte.x43]) 0 =
    ([Log VERBOSE (UserInfoInfo 0 78 1 "A" 2 "BC" 0)], Return tt)
  /\
  parse_block_user_info (le32 65 ++ le32 2 ++ le32 0 ++ zeros 68) 0 =
    ([Log VERBOSE (UserInfoInfo 0 80 65 "" 2 "" 0);
      Log ERROR (InvalidNameLength 0 65);
      Log ERROR (BlockSizeMismatchVs 0 80 78)], Return tt).
Proof.
  split; [|split].
  - apply (proj1 (X13_user_info_outcomes (zeros 5) 0)). left. reflexivity.
  - rewrite (proj2 (X13_user_info_outcomes
               (le32 1 ++ le32 2 ++ le32 0 ++ [Byte.x41] ++ zeros 63
                  ++ [Byte.x42; Byte.x43]) 0));
      [reflexivity | vm_compute; discriminate | vm_compute; discriminate
       | vm_compute; discriminate].
  - rewrite (proj2 (X13_user_info_outcomes
               (le32 65 ++ le32 2 ++ le32 0 ++ zeros 68) 0));
      [reflexivity | vm_compute; discriminate | vm_compute; discriminate
       | vm_compute; discriminate].
Defined.

(** X14.  A Faces payload is accepted without an error exactly when its
    count field is followed by 12 bytes per face; any other length gets
    exactly one "block size" error, and a payload without room for the
    count raises [struct.error].  An Unk35 payload must hold 100 bytes to
    be accepted although only its first 12 are decoded; with fewer than 12
    the handler raises. *)
Theorem X14_faces_and_unk35_sizes :
  (forall count (body : bytes) index,
      count < 2 ^ 32 ->
      parse_block_faces (le32 count ++ body) index =
        (Log VERBOSE (FacesInfo index (4 + len body) count)
           :: (if len body =? 12 * count then []
               else [Log ERROR (BlockSizeMismatch index)]),
         Return tt))
  /\
  (forall (data : bytes) index,
      len data < 4 -> parse_block_faces data index = ([], Raise StructError))
  /\
  (forall (data : bytes) index,
      12 <= len data ->
      parse_block_unk35 data index =
        (Log VERBOSE (Unk35Info index (len data) (le_value (slice 0 4 data))
                                (le_value (slice 4 8 data))
                                (le_value (slice 8 12 data)))
           :: (if len data =? 100 then []
               else [Log ERROR (BlockSizeMismatch index)]),
         Return tt))
  /\
  (forall (data : bytes) index,
      len data < 12 -> parse_block_unk35 data index = ([], Raise StructError)).
Proof.
  split; [|split; [|split]].
  - intros count body index H. unfold parse_block_faces.
    rewrite unpack_I_le32 by exact H. rewrite bind_ret_l.
    rewrite (drop_app_at (le32 count) body) by reflexivity.
    rewrite len_app, len_le32. unfold verbose, error. rewrite bind_emit.
    replace (count * 12) with (12 * count) by lia.
    destruct (len body =? 12 * count); reflexivity.
  - intros data index H. unfold parse_block_faces.
    rewrite unpack_short by (cbn [calcsize fld_size]; lia). reflexivity.
  - intros data index H. unfold parse_block_unk35.
    rewrite unpack_ok by (cbn [calcsize fld_size]; lia).
    rewrite bind_ret_l. cbn [decode decode_fld calcsize fld_size].
    unfold slice. rewrite !drop_drop, !drop_take, !take_take, drop_0 by lia.
    unfold verbose, error. rewrite bind_emit.
    destruct (len data =? 100); reflexivity.
  - intros data index H. unfold parse_block_unk35.
    rewrite unpack_short by (cbn [calcsize fld_size]; lia). reflexivity.
Qed.

(** X14 at two faces with 24 and with 25 index bytes. *)
Lemma X14_faces_and_unk35_sizes_witness :
  parse_block_faces (le32 2 ++ zeros 24) 1 =
    ([Log VERBOSE (FacesInfo 1 28 2)], Return tt)
  /\
  parse_block_faces (le32 2 ++ zeros 25) 1 =
    ([Log VERBOSE (FacesInfo 1 29 2); Log ERROR (BlockSizeMismatch 1)],
     Return tt)
  /\
  parse_block_unk35 (zeros 11) 1 = ([], Raise StructError).
Proof.
  destruct X14_faces_and_unk35_sizes as (Hf & _ & _ & Hu).
  split; [|split].
  - apply (Hf 2 (zeros 24) 1). reflexivity.
  - apply (Hf 2 (zeros 25) 1). reflexivity.
  - apply (Hu (zeros 11) 1). reflexivity.
Defined.

(** ** The bit loops of the Bitmap and PteroMat handlers *)

Lemma truthy_bit bits i : truthy (N.land bits (N.shiftl 1 i)) = N.testbit bits i.
Proof.
  rewrite N.shiftl_1_l. unfold truthy.
  destruct (N.testbit bits i) eqn:Hb.
  - destruct (N.eqb_spec (N.land bits (2 ^ i)) 0) as [E|_]; [|reflexivity].
    assert (Ht : N.testbit (N.land bits (2 ^ i)) i = true)
      by (rewrite N.land_spec, Hb, N.pow2_bits_true; reflexivity).
    rewrite E, N.bits_0 in Ht. discriminate.
  - replace (N.land bits (2 ^ i)) with 0; [reflexivity|].
    symmetry. apply N.bits_inj. intros n.
    rewrite N.land_spec, N.pow2_bits_eqb, N.bits_0.
    destruct (N.eqb_spec i n) as [<-|_];
      [rewrite Hb; reflexivity | apply andb_false_r].
Qed.

Lemma for_each_reports {X S} (l : list X) (ev : X -> list event)
      (body : X -> S -> M event S) :
  (forall x s, In x l -> body x s = (ev x, Return s)) ->
  forall s, for_each l s body = (flat_map ev l, Return s).
Proof.
  induction l as [|x r IH]; intros Hb s; [reflexivity|].
  cbn [for_each flat_map]. rewrite Hb by (left; reflexivity).
  rewrite bind_log. rewrite IH by (intros; apply Hb; right; assumption).
  reflexivity.
Qed.

Lemma bind_nil {A B} (a : A) (f : A -> M event B) :
  bind ([], Return a) f = f a.
Proof. apply bind_ret_l. Qed.

Lemma emit_then_ret {S} (l : list event) (s : S) :
  (emit_all l ;; ret s) = (l, Return s).
Proof.
  unfold emit_all. rewrite bind_log. cbn [fst snd ret].
  rewrite app_nil_r. reflexivity.
Qed.

Lemma in_high_map_bits i : In i high_map_bits -> 12 <= i.
Proof.
  unfold high_map_bits. rewrite in_map_iff.
  intros (k & <- & Hk). apply in_seq in Hk. lia.
Qed.

Lemma bitmap_map_unknown data index bType mapID st :
  12 <= mapID ->
  bitmap_map data index bType mapID st =
    (if N.testbit bType mapID
     then [Log ERROR (UnknownBitmap (N.shiftl 1 mapID))] else [],
     Return st).
Proof.
  intros H. unfold bitmap_map. destruct st as [ptr sPrint].
  rewrite truthy_bit. destruct (N.testbit bType mapID); [|reflexivity].
  change (len Bitmap.maps) with 12.
  destruct (N.ltb_spec mapID 12); [lia | reflexivity].
Qed.

Lemma bitmap_map_clear data index bType mapID st :
  N.testbit bType mapID = false ->
  bitmap_map data index bType mapID st = ret st.
Proof.
  intros H. unfold bitmap_map. destruct st as [ptr sPrint].
  rewrite truthy_bit, H. reflexivity.
Qed.

Lemma low_bits_clear bits mask i :
  N.land bits mask = 0 -> N.testbit mask i = true -> N.testbit bits i = false.
Proof.
  intros H Hm.
  assert (E : N.testbit (N.land bits mask) i = false)
    by (rewrite H; apply N.bits_0).
  rewrite N.land_spec, Hm, andb_true_r in E. exact E.
Qed.

(** X15.  In the Bitmap handler the bits 12 to 31 of the map bits are
    dealt with after the twelve known maps: each one that is set gets
    exactly one "unknown bitmap" error, in ascending order, and none of
    them moves the read position or adds to the summary line.  So a
    payload with no known map bit set is accepted, apart from those
    errors, exactly when it is 12 bytes long. *)
Theorem X15_bitmap_unknown_map_bits (data : bytes) index bType :
  (forall st,
      for_each (range 32) st (bitmap_map data index bType) =
        (st' <- for_each (range 12) st (bitmap_map data index bType) ;;
         emit_all (unknown_bit_errors UnknownBitmap bType high_map_bits) ;;
         ret st'))
  /\
  (N.land bType 0xFFF = 0 ->
   unpack (E := event) [fI; fS 4; fI] data
     = ret (le_value (slice 0 4 data), (slice 4 8 data, (bType, tt))) ->
   parse_block_bitmap data index =
     (unknown_bit_errors UnknownBitmap bType high_map_bits
        ++ (if len data =? 12 then [] else [Log ERROR BlockSizeMismatchPlain])
        ++ [Log VERBOSE (Summary [BitmapHead index (len data)
                                    (le_value (slice 0 4 data))
                                    (slice 4 8 data)])],
      Return tt)).
Proof.
  assert (Hsplit : forall st,
      for_each (range 32) st (bitmap_map data index bType) =
        (st' <- for_each (range 12) st (bitmap_map data index bType) ;;
         emit_all (unknown_bit_errors UnknownBitmap bType high_map_bits) ;;
         ret st')).
  { intros st. change (range 32) with (range 12 ++ high_map_bits).
    rewrite for_each_app. apply bind_ext. intros st'.
    rewrite (for_each_reports high_map_bits
               (fun i => if N.testbit bType i
                         then [Log ERROR (UnknownBitmap (N.shiftl 1 i))]
                         else [])).
    - rewrite emit_then_ret. reflexivity.
    - intros x s Hx. apply bitmap_map_unknown. apply in_high_map_bits. exact Hx. }
  split; [exact Hsplit|].
  intros Hlow Hu. unfold parse_block_bitmap. rewrite Hu, bind_ret_l, Hsplit.
  rewrite (for_each_reports (range 12) (fun _ => [])).
  2:{ intros x s Hx. apply in_range in Hx.
      rewrite bitmap_map_clear; [reflexivity|].
      apply (low_bits_clear bType 0xFFF x Hlow).
      assert (Hc : x = 0 \/ x = 1 \/ x = 2 \/ x = 3 \/ x = 4 \/ x = 5 \/ x = 6 \/
                   x = 7 \/ x = 8 \/ x = 9 \/ x = 10 \/ x = 11) by lia.
      repeat (destruct Hc as [->|Hc]; [reflexivity|]). subst. reflexivity. }
  change (flat_map (fun _ : N => @nil event) (range 12)) with (@nil event).
  rewrite bind_nil, emit_then_ret, bind_log. cbn [fst snd].
  rewrite (N.eqb_sym 12). destruct (len data =? 12); reflexivity.
Qed.

(** X15 at a 12-byte payload whose map bits are 0x3000. *)
Lemma X15_bitmap_unknown_map_bits_witness :
  parse_block_bitmap (le32 0 ++ zeros 4 ++ le32 0x3000) 0 =
    ([Log ERROR (UnknownBitmap 0x1000); Log ERROR (UnknownBitmap 0x2000);
      Log VERBOSE (Summary [BitmapHead 0 12 0 (zeros 4)])], Return tt).
Proof.
  apply (proj2 (X15_bitmap_unknown_map_bits
                  (le32 0 ++ zeros 4 ++ le32 0x3000) 0 0x3000));
    reflexivity.
Defined.

Lemma in_low_tex_bits i : In i low_tex_bits -> i < 16.
Proof. unfold low_tex_bits. rewrite in_range. lia. Qed.

Lemma in_high_tex_bits i : In i high_tex_bits -> 24 <= i.
Proof.
  unfold high_tex_bits. rewrite in_map_iff.
  intros (k & <- & Hk). apply in_seq in Hk. lia.
Qed.

Lemma in_known_tex_bits i : In i known_tex_bits -> 16 <= i < 24.
Proof.
  unfold known_tex_bits. rewrite in_map_iff.
  intros (k & <- & Hk). apply in_seq in Hk. lia.
Qed.

Lemma ptero_tex_unknown data index pType texID st :
  texID < 16 \/ 24 <= texID ->
  ptero_tex data index pType texID st =
    (if N.testbit pType texID
     then [Log ERROR (UnknownTexture (N.shiftl 1 texID))] else [],
     Return st).
Proof.
  intros H. unfold ptero_tex. destruct st as [ptr sPrint].
  rewrite truthy_bit. destruct (N.testbit pType texID); [|reflexivity].
  unfold PteroMat.offset. change (len PteroMat.texs) with 8.
  destruct (N.leb_spec 16 texID), (N.ltb_spec texID (16 + 8));
    cbn [andb]; try reflexivity; lia.
Qed.

Lemma ptero_tex_known data index pType texID ptr sPrint :
  16 <= texID < 24 ->
  ptero_tex data index pType texID (ptr, sPrint) =
    if N.testbit pType texID
    then '(dataSize, sPrintNew) <-
           PteroMat.parseTexture (drop ptr data) (index + 1) texID ;;
         ret (ptr + dataSize, sPrint ++ sPrintNew)
    else ret (ptr, sPrint).
Proof.
  intros H. unfold ptero_tex. rewrite truthy_bit.
  destruct (N.testbit pType texID); [|reflexivity].
  unfold PteroMat.offset. change (len PteroMat.texs) with 8.
  destruct (N.leb_spec 16 texID), (N.ltb_spec texID (16 + 8));
    cbn [andb]; try reflexivity; lia.
Qed.

(** X16.  The texture loop of the PteroMat handler goes through the 32
    bits in ascending order, so it first reports every set bit below 16 as
    an unknown texture, then decodes the textures of the set bits 16 to
    23, each from the read position the one before left, and then reports
    every set bit from 24 up; the bits outside 16 to 23 consume no bytes
    and add nothing to the summary line. *)
Theorem X16_ptero_mat_texture_bits (data : bytes) index pType :
  (forall st,
      for_each (range 32) st (ptero_tex data index pType) =
        (emit_all (unknown_bit_errors UnknownTexture pType low_tex_bits) ;;
         st' <- for_each known_tex_bits st (ptero_tex data index pType) ;;
         emit_all (unknown_bit_errors UnknownTexture pType high_tex_bits) ;;
         ret st'))
  /\
  (forall texID ptr sPrint,
      In texID known_tex_bits ->
      ptero_tex data index pType texID (ptr, sPrint) =
        if N.testbit pType texID
        then '(dataSize, sPrintNew) <-
               PteroMat.parseTexture (drop ptr data) (index + 1) texID ;;
             ret (ptr + dataSize, sPrint ++ sPrintNew)
        else ret (ptr, sPrint)).
Proof.
  split.
  - intros st.
    change (range 32) with (low_tex_bits ++ known_tex_bits ++ high_tex_bits).
    rewrite !for_each_app.
    rewrite (for_each_reports low_tex_bits
               (fun i => if N.testbit pType i
                         then [Log ERROR (UnknownTexture (N.shiftl 1 i))]
                         else [])).
    2:{ intros x s Hx. apply ptero_tex_unknown. left.
        apply in_low_tex_bits. exact Hx. }
    unfold emit_all at 1. rewrite !bind_log. cbn [fst snd].
    match goal with
    | |- (_ ++ fst ?X, snd ?X) = (_ ++ fst ?Y, snd ?Y) =>
        assert (EXY : X = Y); [|rewrite EXY; reflexivity]
    end.
    rewrite for_each_app. apply bind_ext. intros st'.
    rewrite (for_each_reports high_tex_bits
               (fun i => if N.testbit pType i
                         then [Log ERROR (UnknownTexture (N.shiftl 1 i))]
                         else [])).
    + rewrite emit_then_ret. reflexivity.
    + intros x s Hx. apply ptero_tex_unknown. right.
      apply in_high_tex_bits. exact Hx.
  - intros texID ptr sPrint Hin. apply ptero_tex_known.
    apply in_known_tex_bits. exact Hin.
Qed.

(** X16 at texture bits 0x01010001 and an empty payload: two errors
    around the (failing) decoding of texture 16. *)
Lemma X16_ptero_mat_texture_bits_witness :
  In 16 known_tex_bits /\
  for_each (range 32) (0, []) (ptero_tex [] 0 0x01010001) =
    ([Log ERROR (UnknownTexture 1)], Raise StructError).
Proof.
  assert (Hin : In 16 known_tex_bits) by (left; reflexivity).
  split; [exact Hin|].
  destruct (X16_ptero_mat_texture_bits [] 0 0x01010001) as [Hs Hk].
  rewrite Hs.
  change known_tex_bits with (16 :: map N.of_nat (seq 17 7)).
  cbn [for_each]. rewrite (Hk 16 0 [] Hin).
  vm_compute. reflexivity.
Defined.

(** ** The read position of the Bitmap and PteroMat handlers *)

Lemma spec_top {A} (m : M event A) :
  spec (fun _ => True) (fun _ => True) (fun _ => True) m.
Proof.
  split; [apply Forall_forall; intros; exact I|].
  destruct (snd m); exact I.
Qed.

Lemma spec_returns {A} P Q (R : A -> Prop) m lg a :
  spec P Q R m -> m = (lg, Return a) -> R a.
Proof. intros [_ H] ->. exact H. Qed.

Lemma bind_ext_spec {A B} P Q (R : A -> Prop) (m : M event A)
      (f g : A -> M event B) :
  spec P Q R m -> (forall a, R a -> f a = g a) -> bind m f = bind m g.
Proof.
  destruct m as [l [a|e|]]; intros [_ Hr] H; unfold bind;
    [rewrite (H a Hr)|..]; reflexivity.
Qed.

Ltac skip_step :=
  eapply spec_bind; [apply spec_top | intros ? _].

Lemma parseTexture_size (data : bytes) index texID :
  spec (fun _ => True) (fun _ => True) (fun r => 8 <= fst r <= len data)
       (PteroMat.parseTexture data index texID).
Proof.
  unfold PteroMat.parseTexture.
  eapply spec_bind; [apply spec_unpack; exact I|].
  intros t [H8 ->]. cbn [decode decode_fld fld_size].
  eapply spec_bind; [apply spec_unpack; exact I|].
  intros t [Hn ->]. cbn [decode decode_fld fld_size].
  do 7 skip_step.
  apply spec_ret. cbn [fst calcsize fld_size] in *.
  rewrite len_drop in Hn. lia.
Qed.

Lemma ptero_tex_position (data : bytes) index pType texID p0 st :
  p0 <= fst st <= len data ->
  spec (fun _ => True) (fun _ => True) (fun st' => p0 <= fst st' <= len data)
       (ptero_tex data index pType texID st).
Proof.
  destruct st as [ptr sPrint]. cbn [fst]. intros H. unfold ptero_tex.
  destruct (truthy _); [|apply spec_ret; exact H].
  destruct (_ && _).
  - eapply spec_bind; [apply parseTexture_size|].
    intros [sz fr]. cbn [fst]. rewrite len_drop. intros Hs.
    apply spec_ret. cbn [fst]. lia.
  - skip_step. apply spec_ret. exact H.
Qed.

Lemma bitmap_map_position (data : bytes) index bType mapID p0 st :
  p0 <= fst st <= len data ->
  spec (fun _ => True) (fun _ => True) (fun st' => p0 <= fst st' <= len data)
       (bitmap_map data index bType mapID st).
Proof.
  destruct st as [ptr sPrint]. cbn [fst]. intros H. unfold bitmap_map.
  destruct (truthy _); [|apply spec_ret; exact H].
  destruct (_ <? _).
  - do 2 skip_step.
    eapply spec_bind; [apply spec_unpack; exact I|].
    intros t [H8 ->]. cbn [decode decode_fld fld_size].
    eapply spec_bind; [apply spec_unpack; exact I|].
    intros t [Hn ->]. cbn [decode decode_fld fld_size].
    do 2 skip_step.
    apply spec_ret. cbn [fst calcsize fld_size] in *.
    rewrite len_drop in *. lia.
  - skip_step. apply spec_ret. exact H.
Qed.

Lemma size_check_lt (ptr : N) (data : bytes) :
  ptr <= len data -> negb (ptr =? len data) = (ptr <? len data).
Proof.
  intros H. destruct (N.eqb_spec ptr (len data)), (N.ltb_spec ptr (len data));
    cbn [negb]; try reflexivity; lia.
Qed.

(** X17.  In the loops of the Bitmap and PteroMat handlers, the read
    position only moves forward and never passes the end of the payload:
    a map or texture record that would reach beyond it raises instead.
    So the final size check of either handler, written as an inequality,
    fires exactly when bytes are left unread. *)
Theorem X17_read_position_stays_inside (data : bytes) index :
  (forall bits ptr sPrint lg ptr' sPrint',
      ptr <= len data ->
      (for_each (range 32) (ptr, sPrint) (bitmap_map data index bits)
         = (lg, Return (ptr', sPrint')) \/
       for_each (range 32) (ptr, sPrint) (ptero_tex data index bits)
         = (lg, Return (ptr', sPrint'))) ->
      ptr <= ptr' <= len data)
  /\
  parse_block_bitmap data index =
    ('(unk1, (unk2, (bType, _))) <- unpack [fI; fS 4; fI] data ;;
     '(ptr, sPrint) <-
        for_each (range 32) (12, [BitmapHead index (len data) unk1 unk2])
                 (bitmap_map data index bType) ;;
     when (ptr <? len data) (error BlockSizeMismatchPlain) ;;
     verbose (Summary sPrint))
  /\
  parse_block_ptero_mat data index =
    ('(tSides, (pType, (collisMat, (unk4, (veget, _))))) <-
        unpack [fI; fI; fS 4; fI; fS 4] data ;;
     '(name_size, _) <- unpack [fI] (drop 20 data) ;;
     '(name, _) <- unpack [fS name_size] (drop 24 data) ;;
     when (truthy (N.land tSides 0xFFFFFFE))
       (warning (InvalidTransparentSides tSides)) ;;
     when (negb (bytes_eqb (drop 2 collisMat) [Byte.x00; Byte.x00]))
       (warning ExpectedZerosCollision) ;;
     when (negb (bytes_eqb (drop 2 veget) [Byte.x00; Byte.x00]))
       (warning ExpectedZerosVegetation) ;;
     name_s <- pchar_to_string name ;;
     c0 <- of_option (nth_error collisMat 0) IndexError ;;
     c1 <- of_option (nth_error collisMat 1) IndexError ;;
     v0 <- of_option (nth_error veget 0) IndexError ;;
     v1 <- of_option (nth_error veget 1) IndexError ;;
     '(ptr, sPrint) <-
        for_each (range 32)
                 (24 + name_size,
                  [PteroHead index (len data) name_size name_s (tSides + 1)
                             c0 c1 v0 v1])
                 (ptero_tex data index pType) ;;
     verbose (Summary sPrint) ;;
     when (ptr <? len data) (error BlockSizeMismatchPlain)).
Proof.
  split; [|split].
  3:{ unfold parse_block_ptero_mat.
      eapply bind_ext_spec; [apply spec_unpack with (P := fun _ => True)
                                                    (Q := fun _ => True); exact I|].
      intros t [H20 ->]. cbn [decode decode_fld fld_size calcsize] in *.
      eapply bind_ext_spec; [apply spec_unpack with (P := fun _ => True)
                                                    (Q := fun _ => True); exact I|].
      intros t [H4 ->]. cbn [decode decode_fld fld_size calcsize] in *.
      eapply bind_ext_spec; [apply spec_unpack with (P := fun _ => True)
                                                    (Q := fun _ => True); exact I|].
      intros t [Hn ->]. cbn [decode decode_fld fld_size calcsize] in *.
      rewrite len_drop in H4, Hn.
      do 8 (apply bind_ext; intros ?).
      eapply bind_ext_spec.
      - apply (spec_for_each (fun _ => True) (fun _ => True)
                 (fun st' => 24 <= fst st' <= len data)).
        + intros x s _. apply ptero_tex_position.
        + cbn [fst]. lia.
      - intros [ptr' s'] [_ Hle]. cbn [fst] in Hle.
        rewrite size_check_lt by exact Hle. reflexivity. }
  - intros bits ptr sPrint lg ptr' sPrint' Hp [Hr|Hr].
    + apply (spec_returns _ _ (fun st' => ptr <= fst st' <= len data)
               _ _ _ (spec_for_each _ _ _ (range 32) _
                        (fun x s _ => bitmap_map_position data index bits x ptr s)
                        (ptr, sPrint) (conj (N.le_refl ptr) Hp)) Hr).
    + apply (spec_returns _ _ (fun st' => ptr <= fst st' <= len data)
               _ _ _ (spec_for_each _ _ _ (range 32) _
                        (fun x s _ => ptero_tex_position data index bits x ptr s)
                        (ptr, sPrint) (conj (N.le_refl ptr) Hp)) Hr).
  - unfold parse_block_bitmap.
    eapply bind_ext_spec; [apply spec_unpack with (P := fun _ => True)
                                                  (Q := fun _ => True); exact I|].
    intros t [H12 ->]. cbn [decode decode_fld fld_size calcsize] in *.
    eapply bind_ext_spec.
    + apply (spec_for_each (fun _ => True) (fun _ => True)
               (fun st' => 12 <= fst st' <= len data)).
      * intros x s _. apply bitmap_map_position.
      * cbn [fst]. lia.
    + intros [ptr' s'] [_ Hle]. cbn [fst] in Hle.
      rewrite size_check_lt by exact Hle. reflexivity.
Qed.

(** X17 on a payload of one map record with an empty name (20 bytes):
    the loop ends at position 20, the end of the payload. *)
Lemma X17_read_position_stays_inside_witness :
  12 <= len (Enc.zeros 20) /\ 12 <= 20 <= len (Enc.zeros 20).
Proof.
  assert (H : 12 <= len (Enc.zeros 20)) by (vm_compute; discriminate).
  split; [exact H|].
  apply (proj1 (X17_read_position_stays_inside (Enc.zeros 20) 0)
           1 12 [] [] 20 [MapLine 1 "Diffuse Color" 0 ""] H).
  left. vm_compute. reflexivity.
Defined.
